(** * RelayUpdater: the release pipeline of [updater.go]

    A shallow embedding of the release tool (manifest store, version
    resolver, artifact stager, remote publisher, orchestrator) together
    with the properties its specification states about it. *)

From Stdlib Require Import ZArith String Ascii List Lia Bool.
From stdpp Require Import base option gmap strings list.

Local Open Scope string_scope.
Local Open Scope list_scope.
Local Open Scope Z_scope.

#[local] Arguments String.append !_ _ / : simpl nomatch.

(** ** Strings and characters *)

Definition code (c : ascii) : Z := Z.of_N (N_of_ascii c).

Definition is_digit (c : ascii) : bool := (48 <=? code c) && (code c <=? 57).
Definition is_upper (c : ascii) : bool := (65 <=? code c) && (code c <=? 90).
Definition is_lower (c : ascii) : bool := (97 <=? code c) && (code c <=? 122).

Fixpoint string_forallb (p : ascii → bool) (s : string) : bool :=
  match s with
  | EmptyString => true
  | String c s' => p c && string_forallb p s'
  end.

(** [strings.Split(s, sep)] for a one-byte separator: the pieces between
    the separators, a single empty piece for the empty string. *)
Fixpoint split_on (sep : ascii) (s : string) : list string :=
  match s with
  | EmptyString => [EmptyString]
  | String c s' =>
      if Ascii.eqb c sep then EmptyString :: split_on sep s'
      else match split_on sep s' with
           | x :: xs => String c x :: xs
           | [] => [String c EmptyString]
           end
  end.

(** The value of a run of decimal digits, most significant first. *)
Fixpoint digits_value (acc : Z) (s : string) : Z :=
  match s with
  | EmptyString => acc
  | String c s' => digits_value (10 * acc + (code c - 48)) s'
  end.

(** [strconv.ParseUint(s, 10, 64)]: a non-empty run of digits whose value
    fits 64 bits; anything else is an error. *)
Definition ParseUint64 (s : string) : option Z :=
  match s with
  | EmptyString => None
  | _ =>
      if string_forallb is_digit s then
        let v := digits_value 0 s in
        if v <? 2 ^ 64 then Some v else None
      else None
  end.

Definition digit_char (d : Z) : ascii := ascii_of_N (Z.to_N (48 + d)).

(** Decimal digits of a non-negative number, most significant first;
    twenty digits cover every 64-bit value. *)
Fixpoint dec_go (fuel : nat) (n : Z) (acc : string) : string :=
  match fuel with
  | O => acc
  | S f =>
      let acc' := String (digit_char (n mod 10)) acc in
      if n <? 10 then acc' else dec_go f (n / 10) acc'
  end.

Definition dec (n : Z) : string := dec_go 20 n EmptyString.

(** ** github.com/Masterminds/semver/v3

    The library is not part of the repository; these definitions follow
    its [version.go]: the [Version] struct, [NewVersion] (the lenient
    parser behind the regular expression
    [v?([0-9]+)(\.[0-9]+)?(\.[0-9]+)?(-(pre))?(\+(meta))?]), [Compare],
    [GreaterThan], [IncPatch] and [String]. *)
Module semver.

Record Version : Type := mkVersion {
  major : Z;            (* uint64 *)
  minor : Z;            (* uint64 *)
  patch : Z;            (* uint64 *)
  pre : string;
  metadata : string;
  original : string
}.

(** allowed = letters, digits and the hyphen *)
Definition allowed (c : ascii) : bool :=
  is_lower c || is_upper c || is_digit c || Ascii.eqb c "-".

Definition containsOnly (s : string) (p : ascii → bool) : bool :=
  string_forallb p s.

(** The longest prefix of digits and what follows it. *)
Fixpoint span_digits (s : string) : string * string :=
  match s with
  | String c s' =>
      if is_digit c then
        let '(d, r) := span_digits s' in (String c d, r)
      else (EmptyString, s)
  | EmptyString => (EmptyString, EmptyString)
  end.

(** The text before the first ['+'] and, when there is one, the text
    after it. *)
Fixpoint cut_plus (s : string) : string * option string :=
  match s with
  | EmptyString => (EmptyString, None)
  | String c s' =>
      if Ascii.eqb c "+" then (EmptyString, Some s')
      else let '(a, b) := cut_plus s' in (String c a, b)
  end.

(** [[0-9A-Za-z\-]+(\.[0-9A-Za-z\-]+)*]: dot-separated, non-empty runs of
    allowed characters. *)
Definition identifiers (s : string) : bool :=
  forallb (λ p, negb (String.eqb p EmptyString) && containsOnly p allowed)
          (split_on "." s).

(** [(\.[0-9]+)?]: a dot must be followed by at least one digit. *)
Definition dot_number (s : string) : option (string * string) :=
  match s with
  | String "." s' =>
      match span_digits s' with
      | (EmptyString, _) => None
      | (d, r) => Some (d, r)
      end
  | _ => Some (EmptyString, s)
  end.

(** [(-(pre))?(\+(meta))?$] *)
Definition suffix (s : string) : option (string * string) :=
  match s with
  | EmptyString => Some (EmptyString, EmptyString)
  | String "-" r =>
      match cut_plus r with
      | (p, None) => if identifiers p then Some (p, EmptyString) else None
      | (p, Some m) =>
          if identifiers p && identifiers m then Some (p, m) else None
      end
  | String "+" m => if identifiers m then Some (EmptyString, m) else None
  | _ => None
  end.

(** [v?] *)
Definition strip_v (s : string) : string :=
  match s with
  | String "v" s' => s'
  | _ => s
  end.

(** The submatches m[1], m[2], m[3], m[5], m[8] of the anchored regular
    expression (the dots of m[2] and m[3] already trimmed). *)
Definition submatch (v : string)
  : option (string * string * string * string * string) :=
  match span_digits (strip_v v) with
  | (EmptyString, _) => None
  | (ma, r1) =>
      '(mi, r2) ← dot_number r1;
      '(pa, r3) ← dot_number r2;
      '(p, m) ← suffix r3;
      Some (ma, mi, pa, p, m)
  end.

(** The check [validatePrerelease] makes on one part: a numeric part
    must not start with a zero unless it is the single digit, any other
    part must consist of allowed characters. *)
Definition validPart (e : string) : bool :=
  if containsOnly e is_digit then
    negb ((1 <? Z.of_nat (String.length e))
          && match e with String "0" _ => true | _ => false end)
  else containsOnly e allowed.

Definition validatePrerelease (p : string) : bool :=
  forallb validPart (split_on "." p).

Definition validateMetadata (m : string) : bool :=
  forallb (λ e, containsOnly e allowed) (split_on "." m).

(** func NewVersion(v string) ( *Version, error) *)
Definition NewVersion (v : string) : option Version :=
  '(ma, mi, pa, p, m) ← submatch v;
  major ← ParseUint64 ma;
  minor ← (if String.eqb mi EmptyString then Some 0 else ParseUint64 mi);
  patch ← (if String.eqb pa EmptyString then Some 0 else ParseUint64 pa);
  if negb (String.eqb p EmptyString) && negb (validatePrerelease p) then None
  else if negb (String.eqb m EmptyString) && negb (validateMetadata m) then None
  else Some (mkVersion major minor patch p m v).

(** func MustParse(v string) Version pointer; it panics on an error, which the
    one call of the program (on 0.0.0) never meets. *)
Definition MustParse (v : string) : Version :=
  default (mkVersion 0 0 0 EmptyString EmptyString EmptyString) (NewVersion v).

(** func (v Version) String() string *)
Definition String_ (v : Version) : string :=
  dec (major v) +:+ "." +:+ dec (minor v) +:+ "." +:+ dec (patch v)
  +:+ (if String.eqb (pre v) EmptyString then EmptyString else "-" +:+ pre v)
  +:+ (if String.eqb (metadata v) EmptyString then EmptyString else "+" +:+ metadata v).

Definition originalVPrefix (v : Version) : string :=
  match original v with
  | String "v" _ => "v"
  | _ => EmptyString
  end.

(** func (v Version) IncPatch() Version: a version with a pre-release
    keeps its patch number and loses the pre-release; otherwise the
    patch number goes up by one (wrapping at 64 bits). Metadata is
    dropped either way. *)
Definition IncPatch (v : Version) : Version :=
  let vNext :=
    if negb (String.eqb (pre v) EmptyString) then
      mkVersion (major v) (minor v) (patch v) EmptyString EmptyString (original v)
    else
      mkVersion (major v) (minor v) ((patch v + 1) mod 2 ^ 64) EmptyString EmptyString
                (original v) in
  mkVersion (major vNext) (minor vNext) (patch vNext) (pre vNext)
            (metadata vNext) (originalVPrefix v +:+ String_ vNext).

Definition compareSegment (v o : Z) : Z :=
  if v <? o then -1 else if o <? v then 1 else 0.

Definition string_gtb (s o : string) : bool :=
  match String.compare s o with Gt => true | _ => false end.

(** func comparePrePart(s, o string) int *)
Definition comparePrePart (s o : string) : Z :=
  if String.eqb s o then 0
  else if String.eqb s EmptyString then (if negb (String.eqb o EmptyString) then -1 else 1)
  else if String.eqb o EmptyString then (if negb (String.eqb s EmptyString) then 1 else -1)
  else
    match ParseUint64 o, ParseUint64 s with
    | None, None => if string_gtb s o then 1 else -1
    | None, Some _ => -1
    | Some _, None => 1
    | Some oi, Some si => if oi <? si then 1 else -1
    end.

(** The loop of [comparePrerelease]: [n] rounds over the two part
    lists, a list that has run out standing for empty parts. *)
Fixpoint compareParts (n : nat) (sparts oparts : list string) : Z :=
  match n with
  | O => 0
  | S n' =>
      let stemp := hd EmptyString sparts in
      let otemp := hd EmptyString oparts in
      let d := comparePrePart stemp otemp in
      if negb (d =? 0) then d else compareParts n' (tl sparts) (tl oparts)
  end.

(** func comparePrerelease(v, o string) int *)
Definition comparePrerelease (v o : string) : Z :=
  let sparts := split_on "." v in
  let oparts := split_on "." o in
  compareParts (Nat.max (length sparts) (length oparts)) sparts oparts.

(** func (v *Version) Compare(o *Version) int *)
Definition Compare (v o : Version) : Z :=
  let d := compareSegment (major v) (major o) in
  if negb (d =? 0) then d else
  let d := compareSegment (minor v) (minor o) in
  if negb (d =? 0) then d else
  let d := compareSegment (patch v) (patch o) in
  if negb (d =? 0) then d else
  let ps := pre v in
  let po := pre o in
  if String.eqb ps EmptyString && String.eqb po EmptyString then 0
  else if String.eqb ps EmptyString then 1
  else if String.eqb po EmptyString then -1
  else comparePrerelease ps po.

(** func (v *Version) GreaterThan(o *Version) bool *)
Definition GreaterThan (v o : Version) : bool := 0 <? Compare v o.

End semver.

(** ** Go values *)

(** A Go slice is either [nil] or a (possibly empty) sequence. *)
Definition slice (A : Type) : Type := option (list A).

Definition elems {A} (s : slice A) : list A :=
  match s with
  | Some l => l
  | None => []
  end.

(** [append(s, x)]: the result is never nil. *)
Definition append1 {A} (s : slice A) (x : A) : slice A :=
  Some (elems s ++ [x]).

(** ** The manifest data model *)

(** type downloadInfo struct { Link, Checksum string } *)
Record downloadInfo : Type := mkDownloadInfo {
  Link : string;
  Checksum : string
}.

(** type Entry struct { Version string; Date int64; Links []downloadInfo } *)
Record Entry : Type := mkEntry {
  Version : string;
  Date : Z;
  Links : slice downloadInfo
}.

(** func upsertEntry(entries []Entry, newEntry Entry) []Entry

    The loop stops at the first index whose entry carries the new entry's
    version, overwrites that slot and returns the slice; without such an
    index the new entry is appended. *)
Definition upsertEntry (entries : slice Entry) (newEntry : Entry) : slice Entry :=
  match list_find (λ e, Version e = Version newEntry) (elems entries) with
  | Some (i, _) => Some (<[i := newEntry]> (elems entries))
  | None => append1 entries newEntry
  end.

(** ** unicode/utf8 and encoding/json

    Go's JSON package is not part of the repository either. The
    definitions below follow its documented behaviour for the one type the
    program serialises, [[]Entry]: [MarshalIndent] with an empty prefix
    and a two-space indent, and [Unmarshal] into a nil [[]Entry]. *)

Definition byte_of (z : Z) : ascii := ascii_of_N (Z.to_N z).

Definition dquote : ascii := byte_of 34.
Definition backslash : ascii := byte_of 92.
Definition newline : ascii := byte_of 10.

Module utf8.

Definition RuneError : Z := 65533.

(** DecodeRuneInString: the first rune of [s] and its width in bytes;
    a malformed sequence decodes as (RuneError, 1), the empty string as
    (RuneError, 0). *)
Definition DecodeRune (s : string) : Z * nat :=
  match s with
  | EmptyString => (RuneError, 0%nat)
  | String c0 r0 =>
      let b0 := code c0 in
      if b0 <? 128 then (b0, 1%nat)
      else if (b0 <? 194) || (244 <? b0) then (RuneError, 1%nat)
      else
        let lo := if b0 =? 224 then 160 else if b0 =? 240 then 144 else 128 in
        let hi := if b0 =? 237 then 159 else if b0 =? 244 then 143 else 191 in
        match r0 with
        | EmptyString => (RuneError, 1%nat)
        | String c1 r1 =>
            let b1 := code c1 in
            if (b1 <? lo) || (hi <? b1) then (RuneError, 1%nat)
            else if b0 <? 224 then (b0 mod 32 * 64 + b1 mod 64, 2%nat)
            else
              match r1 with
              | EmptyString => (RuneError, 1%nat)
              | String c2 r2 =>
                  let b2 := code c2 in
                  if (b2 <? 128) || (191 <? b2) then (RuneError, 1%nat)
                  else if b0 <? 240 then
                    (b0 mod 16 * 4096 + b1 mod 64 * 64 + b2 mod 64, 3%nat)
                  else
                    match r2 with
                    | EmptyString => (RuneError, 1%nat)
                    | String c3 _ =>
                        let b3 := code c3 in
                        if (b3 <? 128) || (191 <? b3) then (RuneError, 1%nat)
                        else
                          (b0 mod 8 * 262144 + b1 mod 64 * 4096
                           + b2 mod 64 * 64 + b3 mod 64, 4%nat)
                    end
              end
        end
  end.

Definition enc3 (r : Z) : string :=
  String (byte_of (224 + r / 4096))
    (String (byte_of (128 + r / 64 mod 64))
       (String (byte_of (128 + r mod 64)) EmptyString)).

(** EncodeRune: the UTF-8 bytes of a rune; surrogates and values out of
    range are written as U+FFFD. *)
Definition EncodeRune (r : Z) : string :=
  if (0 <=? r) && (r <=? 127) then String (byte_of r) EmptyString
  else if (0 <=? r) && (r <=? 2047) then
    String (byte_of (192 + r / 64))
      (String (byte_of (128 + r mod 64)) EmptyString)
  else if (r <? 0) || (1114111 <? r) || ((55296 <=? r) && (r <=? 57343))
  then enc3 RuneError
  else if r <=? 65535 then enc3 r
  else
    String (byte_of (240 + r / 262144))
      (String (byte_of (128 + r / 4096 mod 64))
         (String (byte_of (128 + r / 64 mod 64))
            (String (byte_of (128 + r mod 64)) EmptyString))).

End utf8.

Module json.

#[local] Unset Elimination Schemes.
Inductive value : Type :=
| Null
| Bool (b : bool)
| Number (lit : string)
| Str (s : string)
| Array (vs : list value)
| Object (ms : list (string * value)).
#[local] Set Elimination Schemes.

(** *** Encoding *)

Definition hex_char (d : Z) : ascii :=
  if d <? 10 then byte_of (48 + d) else byte_of (87 + d).

(** htmlSafeSet: printable ASCII except the quote, the backslash and
    the characters <, > and &. *)
Definition htmlSafe (c : ascii) : bool :=
  let b := code c in
  (32 <=? b) && (b <? 128)
  && negb ((b =? 34) || (b =? 92) || (b =? 60) || (b =? 62) || (b =? 38)).

Definition esc2 (c : ascii) : string := String backslash (String c EmptyString).

Definition esc_u00 (b : Z) : string :=
  String backslash
    ("u00" +:+ String (hex_char (b / 16)) (String (hex_char (b mod 16)) EmptyString)).

(** The escape of an ASCII byte outside htmlSafeSet. *)
Definition escape (c : ascii) : string :=
  let b := code c in
  if (b =? 92) || (b =? 34) then esc2 c
  else if b =? 8 then esc2 "b"
  else if b =? 12 then esc2 "f"
  else if b =? 10 then esc2 "n"
  else if b =? 13 then esc2 "r"
  else if b =? 9 then esc2 "t"
  else esc_u00 b.

(** The body of the string encoder. [skip] counts the bytes that remain
    of a rune already dealt with: they are copied when [keep] holds and
    dropped otherwise. *)
Fixpoint encode_bytes (s : string) (skip : nat) (keep : bool) : string :=
  match s with
  | EmptyString => EmptyString
  | String c s' =>
      match skip with
      | S k =>
          if keep then String c (encode_bytes s' k keep)
          else encode_bytes s' k keep
      | O =>
          if code c <? 128 then
            (if htmlSafe c then String c EmptyString else escape c)
            +:+ encode_bytes s' 0 true
          else
            let '(r, size) := utf8.DecodeRune s in
            if (r =? utf8.RuneError) && Nat.eqb size 1 then
              String backslash "ufffd" +:+ encode_bytes s' 0 true
            else if (r =? 8232) || (r =? 8233) then
              String backslash ("u202" +:+ String (hex_char (r mod 16)) EmptyString)
              +:+ encode_bytes s' (size - 1) false
            else String c (encode_bytes s' (size - 1) true)
      end
  end.

Definition quote (s : string) : string :=
  String dquote (encode_bytes s 0 true +:+ String dquote EmptyString).

(** strconv.AppendInt(b, v, 10) *)
Definition format_int (z : Z) : string :=
  if z <? 0 then "-" +:+ dec (- z) else dec z.

(** A line break followed by [depth] copies of the indent. *)
Fixpoint indent (depth : nat) : string :=
  match depth with
  | O => EmptyString
  | S d => "  " +:+ indent d
  end.

Definition nl (depth : nat) : string := String newline (indent depth).

(** The elements of a non-empty array or object, each on a line of its
    own at the inner depth, and the closing bracket on a line at the
    outer depth; an empty array or object stays closed. *)
Definition print_seq {A} (pr : A → string) (opening closing : string)
    (depth : nat) (l : list A) : string :=
  match l with
  | [] => opening +:+ closing
  | x :: xs =>
      opening +:+ nl (S depth) +:+ pr x
      +:+ fold_right (λ y acc, "," +:+ nl (S depth) +:+ pr y +:+ acc)
            (nl depth +:+ closing) xs
  end.

(** Indented output, with a colon and a space after a key. *)
Fixpoint print (depth : nat) (v : value) : string :=
  match v with
  | Null => "null"
  | Bool true => "true"
  | Bool false => "false"
  | Number lit => lit
  | Str s => quote s
  | Array vs => print_seq (print (S depth)) "[" "]" depth vs
  | Object ms =>
      print_seq (λ m, quote m.1 +:+ ": " +:+ print (S depth) m.2)
        "{" "}" depth ms
  end.

(** The JSON values of the manifest types; a nil slice is [null]. *)
Definition of_slice {A} (f : A → value) (s : slice A) : value :=
  match s with
  | None => Null
  | Some l => Array (f <$> l)
  end.

Definition of_downloadInfo (i : downloadInfo) : value :=
  Object [("link", Str (Link i)); ("sha256", Str (Checksum i))].

Definition of_Entry (e : Entry) : value :=
  Object [("version", Str (Version e));
          ("utc-unixnano", Number (format_int (Date e)));
          ("links", of_slice of_downloadInfo (Links e))].

(** json.MarshalIndent(ents, EmptyString, two spaces); it cannot fail
    on these types. *)
Definition MarshalIndent (ents : slice Entry) : string :=
  print 0 (of_slice of_Entry ents).

(** *** Decoding *)

Inductive token : Type :=
| TLBrack | TRBrack | TLBrace | TRBrace | TColon | TComma
| TNull | TTrue | TFalse
| TNum (lit : string)
| TStr (s : string).

Definition hex_val (c : ascii) : option Z :=
  let b := code c in
  if is_digit c then Some (b - 48)
  else if (97 <=? b) && (b <=? 102) then Some (b - 87)
  else if (65 <=? b) && (b <=? 70) then Some (b - 55)
  else None.

(** Four hexadecimal digits at the head of [s]. *)
Definition hex4 (s : string) : option Z :=
  match s with
  | String a (String b (String c (String d _))) =>
      a ← hex_val a; b ← hex_val b; c ← hex_val c; d ← hex_val d;
      Some (a * 4096 + b * 256 + c * 16 + d)
  | _ => None
  end.

(** getu4 six bytes on: a backslash, a [u] and four hexadecimal digits. *)
Definition getu4 (s : string) : option Z :=
  match s with
  | String b (String "u" r) => if Ascii.eqb b backslash then hex4 r else None
  | _ => None
  end.

Definition IsSurrogate (r : Z) : bool := (55296 <=? r) && (r <? 57344).

(** utf16.DecodeRune *)
Definition utf16_DecodeRune (r1 r2 : Z) : Z :=
  if (55296 <=? r1) && (r1 <? 56320) && (56320 <=? r2) && (r2 <? 57344)
  then (r1 - 55296) * 1024 + (r2 - 56320) + 65536
  else utf8.RuneError.

Fixpoint drop_string (n : nat) (s : string) : string :=
  match n, s with
  | S k, String _ s' => drop_string k s'
  | _, _ => s
  end.

Definition simple_escape (e : ascii) : option ascii :=
  let b := code e in
  if (b =? 34) || (b =? 92) || (b =? 47) then Some e
  else if b =? 98 then Some (byte_of 8)
  else if b =? 102 then Some (byte_of 12)
  else if b =? 110 then Some (byte_of 10)
  else if b =? 114 then Some (byte_of 13)
  else if b =? 116 then Some (byte_of 9)
  else None.

(** A string literal from just after its opening quote: the unquoted
    text and what follows the closing quote. Escapes are resolved, raw
    control characters refused, and bytes that are not UTF-8 replaced by
    U+FFFD. [skip] counts bytes already accounted for by a look-ahead. *)
Fixpoint lex_string (s : string) (skip : nat) : option (string * string) :=
  match s with
  | EmptyString => None
  | String c s' =>
      match skip with
      | S k => lex_string s' k
      | O =>
          let b := code c in
          if b =? 34 then Some (EmptyString, s')
          else if b <? 32 then None
          else if b =? 92 then
            match s' with
            | EmptyString => None
            | String e s'' =>
                if Ascii.eqb e "u" then
                  rr ← hex4 s'';
                  let '(out, k) :=
                    if IsSurrogate rr then
                      let d := utf16_DecodeRune rr
                                 (default (-1) (getu4 (drop_string 4 s''))) in
                      if negb (d =? utf8.RuneError) then (utf8.EncodeRune d, 11%nat)
                      else (utf8.EncodeRune utf8.RuneError, 5%nat)
                    else (utf8.EncodeRune rr, 5%nat) in
                  '(t, r) ← lex_string s' k;
                  Some (out +:+ t, r)
                else
                  x ← simple_escape e;
                  '(t, r) ← lex_string s' 1;
                  Some (String x t, r)
            end
          else if b <? 128 then
            '(t, r) ← lex_string s' 0;
            Some (String c t, r)
          else
            let '(rr, size) := utf8.DecodeRune s in
            '(t, r) ← lex_string s' (size - 1);
            Some (utf8.EncodeRune rr +:+ t, r)
      end
  end.

Definition digits1 (s : string) : option (string * string) :=
  match semver.span_digits s with
  | (EmptyString, _) => None
  | p => Some p
  end.

(** A number literal at the head of [s]:
    -? (0 | [1-9][0-9]* ) (. [0-9]+)? ([eE] [+-]? [0-9]+)? *)
Definition lex_number (s : string) : option (string * string) :=
  let '(sign, s1) :=
    match s with String "-" r => ("-", r) | _ => (EmptyString, s) end in
  '(int, s2) ←
    match s1 with
    | String "0" r => Some ("0", r)
    | _ => digits1 s1
    end;
  '(frac, s3) ←
    match s2 with
    | String "." r => '(d, r') ← digits1 r; Some ("." +:+ d, r')
    | _ => Some (EmptyString, s2)
    end;
  '(exp, s4) ←
    match s3 with
    | String e r =>
        if Ascii.eqb e "e" || Ascii.eqb e "E" then
          let '(sg, r1) :=
            match r with
            | String "+" r' => ("+", r')
            | String "-" r' => ("-", r')
            | _ => (EmptyString, r)
            end in
          '(d, r') ← digits1 r1;
          Some (String e (sg +:+ d), r')
        else Some (EmptyString, s3)
    | _ => Some (EmptyString, s3)
    end;
  Some (sign +:+ int +:+ frac +:+ exp, s4).

Definition is_space (c : ascii) : bool :=
  let b := code c in (b =? 32) || (b =? 9) || (b =? 13) || (b =? 10).

Definition consumed (s rest : string) : nat :=
  (String.length s - String.length rest)%nat.

(** The tokens of a text; [skip] counts the bytes that belong to the
    token just emitted. *)
Fixpoint lex (s : string) (skip : nat) : option (list token) :=
  match s with
  | EmptyString => Some []
  | String c s' =>
      match skip with
      | S k => lex s' k
      | O =>
          if is_space c then lex s' 0
          else if Ascii.eqb c "[" then (TLBrack ::.) <$> lex s' 0
          else if Ascii.eqb c "]" then (TRBrack ::.) <$> lex s' 0
          else if Ascii.eqb c "{" then (TLBrace ::.) <$> lex s' 0
          else if Ascii.eqb c "}" then (TRBrace ::.) <$> lex s' 0
          else if Ascii.eqb c ":" then (TColon ::.) <$> lex s' 0
          else if Ascii.eqb c "," then (TComma ::.) <$> lex s' 0
          else if Ascii.eqb c dquote then
            '(t, r) ← lex_string s' 0;
            (TStr t ::.) <$> lex s' (consumed s' r)
          else if Ascii.eqb c "-" || is_digit c then
            '(lit, r) ← lex_number s;
            (TNum lit ::.) <$> lex s' (consumed s' r)
          else
            match s with
            | String "n" (String "u" (String "l" (String "l" _))) =>
                (TNull ::.) <$> lex s' 3
            | String "t" (String "r" (String "u" (String "e" _))) =>
                (TTrue ::.) <$> lex s' 3
            | String "f" (String "a" (String "l" (String "s" (String "e" _)))) =>
                (TFalse ::.) <$> lex s' 4
            | _ => None
            end
      end
  end.

Fixpoint parse_value (fuel : nat) (ts : list token) : option (value * list token) :=
  match fuel with
  | O => None
  | S f =>
      match ts with
      | TNull :: r => Some (Null, r)
      | TTrue :: r => Some (Bool true, r)
      | TFalse :: r => Some (Bool false, r)
      | TNum l :: r => Some (Number l, r)
      | TStr s :: r => Some (Str s, r)
      | TLBrack :: TRBrack :: r => Some (Array [], r)
      | TLBrack :: r =>
          '(x, r1) ← parse_value f r;
          '(xs, r2) ← parse_elements f r1;
          Some (Array (x :: xs), r2)
      | TLBrace :: TRBrace :: r => Some (Object [], r)
      | TLBrace :: TStr k :: TColon :: r =>
          '(x, r1) ← parse_value f r;
          '(ms, r2) ← parse_members f r1;
          Some (Object ((k, x) :: ms), r2)
      | _ => None
      end
  end
with parse_elements (fuel : nat) (ts : list token) : option (list value * list token) :=
  match fuel with
  | O => None
  | S f =>
      match ts with
      | TRBrack :: r => Some ([], r)
      | TComma :: r =>
          '(x, r1) ← parse_value f r;
          '(xs, r2) ← parse_elements f r1;
          Some (x :: xs, r2)
      | _ => None
      end
  end
with parse_members (fuel : nat) (ts : list token)
     : option (list (string * value) * list token) :=
  match fuel with
  | O => None
  | S f =>
      match ts with
      | TRBrace :: r => Some ([], r)
      | TComma :: TStr k :: TColon :: r =>
          '(x, r1) ← parse_value f r;
          '(ms, r2) ← parse_members f r1;
          Some ((k, x) :: ms, r2)
      | _ => None
      end
  end.

(** The value a text denotes; [None] for a text that is not JSON. *)
Definition parse (data : string) : option value :=
  ts ← lex data 0;
  '(v, rest) ← parse_value (S (length ts)) ts;
  match rest with
  | [] => Some v
  | _ => None
  end.

(** strconv.ParseInt(lit, 10, 64) on a number literal *)
Definition ParseInt64 (lit : string) : option Z :=
  let '(neg, d) :=
    match lit with String "-" r => (true, r) | _ => (false, lit) end in
  match d with
  | EmptyString => None
  | _ =>
      if string_forallb is_digit d then
        let v := digits_value 0 d in
        let z := if neg then - v else v in
        if (- 2 ^ 63 <=? z) && (z <? 2 ^ 63) then Some z else None
      else None
  end.

(** Field names are matched exactly or after case folding; folding
    takes the two non-ASCII letters that fold to ASCII with it. *)
Fixpoint fold_name (s : string) : string :=
  match s with
  | EmptyString => EmptyString
  | String c s' =>
      let b := code c in
      if is_lower c then String (byte_of (b - 32)) (fold_name s')
      else
        match s with
        | String "197" (String "191" r) => String "S" (fold_name r)
        | String "226" (String "132" (String "170" r)) => String "K" (fold_name r)
        | _ => String c (fold_name s')
        end
  end.

Definition key_is (k name : string) : bool :=
  String.eqb k name || String.eqb (fold_name k) (fold_name name).

Definition decode_string (cur : string) (v : value) : option string :=
  match v with
  | Str s => Some s
  | Null => Some cur
  | _ => None
  end.

Definition decode_int64 (cur : Z) (v : value) : option Z :=
  match v with
  | Number lit => ParseInt64 lit
  | Null => Some cur
  | _ => None
  end.

(** An array is decoded element by element into the elements the slice
    already holds, and into zero values beyond them; [null] makes the
    slice nil. *)
Fixpoint decode_elements {A} (dec : A → value → option A) (zero : A)
    (cur : list A) (vs : list value) : option (list A) :=
  match vs with
  | [] => Some []
  | v :: vs' =>
      x ← dec (hd zero cur) v;
      xs ← decode_elements dec zero (tl cur) vs';
      Some (x :: xs)
  end.

Definition decode_slice {A} (dec : A → value → option A) (zero : A)
    (cur : slice A) (v : value) : option (slice A) :=
  match v with
  | Null => Some None
  | Array vs => Some <$> decode_elements dec zero (elems cur) vs
  | _ => None
  end.

Fixpoint decode_info_members (cur : downloadInfo) (ms : list (string * value))
  : option downloadInfo :=
  match ms with
  | [] => Some cur
  | (k, v) :: ms' =>
      if key_is k "link" then
        s ← decode_string (Link cur) v;
        decode_info_members (mkDownloadInfo s (Checksum cur)) ms'
      else if key_is k "sha256" then
        s ← decode_string (Checksum cur) v;
        decode_info_members (mkDownloadInfo (Link cur) s) ms'
      else decode_info_members cur ms'
  end.

Definition decode_downloadInfo (cur : downloadInfo) (v : value)
  : option downloadInfo :=
  match v with
  | Object ms => decode_info_members cur ms
  | Null => Some cur
  | _ => None
  end.

Definition zero_info : downloadInfo := mkDownloadInfo EmptyString EmptyString.
Definition zero_Entry : Entry := mkEntry EmptyString 0 None.

Fixpoint decode_entry_members (cur : Entry) (ms : list (string * value))
  : option Entry :=
  match ms with
  | [] => Some cur
  | (k, v) :: ms' =>
      if key_is k "version" then
        s ← decode_string (Version cur) v;
        decode_entry_members (mkEntry s (Date cur) (Links cur)) ms'
      else if key_is k "utc-unixnano" then
        d ← decode_int64 (Date cur) v;
        decode_entry_members (mkEntry (Version cur) d (Links cur)) ms'
      else if key_is k "links" then
        l ← decode_slice decode_downloadInfo zero_info (Links cur) v;
        decode_entry_members (mkEntry (Version cur) (Date cur) l) ms'
      else decode_entry_members cur ms'
  end.

Definition decode_Entry (cur : Entry) (v : value) : option Entry :=
  match v with
  | Object ms => decode_entry_members cur ms
  | Null => Some cur
  | _ => None
  end.

Inductive error : Type :=
| SyntaxError
| UnmarshalTypeError.

(** json.Unmarshal(data, &ents) for a nil [ents]: the text is checked to
    be JSON first, then decoded. *)
Definition Unmarshal (data : string) : error + slice Entry :=
  match parse data with
  | None => inl SyntaxError
  | Some v =>
      match decode_slice decode_Entry zero_Entry None v with
      | None => inl UnmarshalTypeError
      | Some ents => inr ents
      end
  end.

End json.

(** ** crypto/sha256

    SHA-256 as FIPS 180-4 defines it, on byte strings; words are 32-bit
    numbers kept in [Z]. *)
Module sha256.

Definition w32 (x : Z) : Z := x mod 2 ^ 32.

Definition add32 (x y : Z) : Z := w32 (x + y).

Definition rotr (n x : Z) : Z :=
  Z.lor (Z.shiftr x n) (w32 (Z.shiftl x (32 - n))).

Definition Ch (x y z : Z) : Z := Z.lxor (Z.land x y) (Z.ldiff z x).

Definition Maj (x y z : Z) : Z :=
  Z.lxor (Z.lxor (Z.land x y) (Z.land x z)) (Z.land y z).

Definition bsig0 (x : Z) : Z := Z.lxor (Z.lxor (rotr 2 x) (rotr 13 x)) (rotr 22 x).
Definition bsig1 (x : Z) : Z := Z.lxor (Z.lxor (rotr 6 x) (rotr 11 x)) (rotr 25 x).
Definition ssig0 (x : Z) : Z := Z.lxor (Z.lxor (rotr 7 x) (rotr 18 x)) (Z.shiftr x 3).
Definition ssig1 (x : Z) : Z := Z.lxor (Z.lxor (rotr 17 x) (rotr 19 x)) (Z.shiftr x 10).

(** The round constants: the first 32 bits of the fractional parts of
    the cube roots of the first 64 primes. *)
Definition K : list Z :=
  [1116352408; 1899447441; 3049323471; 3921009573; 961987163;
   1508970993; 2453635748; 2870763221; 3624381080; 310598401;
   607225278; 1426881987; 1925078388; 2162078206; 2614888103;
   3248222580; 3835390401; 4022224774; 264347078; 604807628;
   770255983; 1249150122; 1555081692; 1996064986; 2554220882;
   2821834349; 2952996808; 3210313671; 3336571891; 3584528711;
   113926993; 338241895; 666307205; 773529912; 1294757372;
   1396182291; 1695183700; 1986661051; 2177026350; 2456956037;
   2730485921; 2820302411; 3259730800; 3345764771; 3516065817;
   3600352804; 4094571909; 275423344; 430227734; 506948616;
   659060556; 883997877; 958139571; 1322822218; 1537002063;
   1747873779; 1955562222; 2024104815; 2227730452; 2361852424;
   2428436474; 2756734187; 3204031479; 3329325298].

(** The initial hash value: the same of the square roots of the first
    eight primes. *)
Definition init : list Z :=
  [1779033703; 3144134277; 1013904242; 2773480762;
   1359893119; 2600822924; 528734635; 1541459225].

(** The message followed by the byte 0x80, zero bytes up to 56 modulo
    64, and the length in bits as eight bytes, most significant first. *)
Definition pad (msg : list Z) : list Z :=
  let n := Z.of_nat (length msg) in
  let zeros := Z.to_nat ((55 - n) mod 64) in
  let bits := 8 * n in
  msg ++ [128] ++ replicate zeros 0
      ++ ((λ i, Z.shiftr bits (8 * (7 - Z.of_nat i)) mod 256) <$> seq 0 8).

(** Big-endian 32-bit words of a byte list. *)
Fixpoint words (bs : list Z) : list Z :=
  match bs with
  | a :: b :: c :: d :: rest =>
      (a * 16777216 + b * 65536 + c * 256 + d) :: words rest
  | _ => []
  end.

(** The message schedule, newest word first: [n] more words after the
    sixteen words of the block. *)
Fixpoint schedule (n : nat) (w : list Z) : list Z :=
  match n with
  | O => w
  | S n' =>
      let w2 := w !!! 1%nat in
      let w7 := w !!! 6%nat in
      let w15 := w !!! 14%nat in
      let w16 := w !!! 15%nat in
      schedule n' (add32 (add32 (ssig1 w2) w7) (add32 (ssig0 w15) w16) :: w)
  end.

Definition round (s : list Z) (kw : Z * Z) : list Z :=
  match s with
  | [a; b; c; d; e; f; g; h] =>
      let t1 := add32 (add32 (add32 h (bsig1 e)) (add32 (Ch e f g) kw.1)) kw.2 in
      let t2 := add32 (bsig0 a) (Maj a b c) in
      [add32 t1 t2; a; b; c; add32 d t1; e; f; g]
  | _ => s
  end.

Definition block (h : list Z) (ws : list Z) : list Z :=
  let w := rev (schedule 48 (rev ws)) in
  zip_with add32 h (fold_left round (zip K w) h).

Fixpoint blocks (n : nat) (h : list Z) (ws : list Z) : list Z :=
  match n with
  | O => h
  | S n' => blocks n' (block h (take 16 ws)) (drop 16 ws)
  end.

Definition bytes_of_string (s : string) : list Z :=
  code <$> list_ascii_of_string s.

Definition word_bytes (w : Z) : list ascii :=
  [byte_of (w / 16777216); byte_of (w / 65536 mod 256);
   byte_of (w / 256 mod 256); byte_of (w mod 256)].

(** The 32-byte digest. *)
Definition Sum256 (s : string) : string :=
  let ws := words (pad (bytes_of_string s)) in
  let h := blocks (length ws / 16) init ws in
  string_of_list_ascii (h ≫= word_bytes).

End sha256.

(** ** strings and path/filepath *)

Fixpoint has_sep (s : string) : bool :=
  match s with
  | EmptyString => false
  | String c s' => Ascii.eqb c "/" || has_sep s'
  end.

(** filepath.Ext: the suffix that starts at the last dot of the last
    element of the path, empty when that element has no dot. *)
Fixpoint Ext (path : string) : string :=
  match path with
  | EmptyString => EmptyString
  | String c r =>
      match Ext r with
      | EmptyString =>
          if Ascii.eqb c "." && negb (has_sep r) then path else EmptyString
      | e => e
      end
  end.

Fixpoint HasSuffix (s suffix : string) : bool :=
  String.eqb s suffix
  || match s with
     | EmptyString => false
     | String _ s' => HasSuffix s' suffix
     end.

(** strings.TrimSuffix *)
Definition TrimSuffix (s suffix : string) : string :=
  if HasSuffix s suffix
  then String.substring 0 (String.length s - String.length suffix) s
  else s.

(** strings.TrimRight(s, cutset) for a one-byte cutset *)
Fixpoint TrimRight (s : string) (cut : ascii) : string :=
  match s with
  | EmptyString => EmptyString
  | String c s' =>
      match TrimRight s' cut with
      | EmptyString => if Ascii.eqb c cut then EmptyString else String c EmptyString
      | t => String c t
      end
  end.

Definition to_lower (c : ascii) : ascii :=
  if is_upper c then byte_of (code c + 32) else c.

Fixpoint lower (s : string) : string :=
  match s with
  | EmptyString => EmptyString
  | String c s' => String (to_lower c) (lower s')
  end.

(** strings.EqualFold, by ASCII case folding. The program compares with
    [.zip] only, none of whose letters folds to a letter outside ASCII, so
    that this is what Go computes there. *)
Definition EqualFold (s t : string) : bool := String.eqb (lower s) (lower t).

Fixpoint join_with (sep : string) (l : list string) : string :=
  match l with
  | [] => EmptyString
  | [x] => x
  | x :: xs => x +:+ sep +:+ join_with sep xs
  end.

(** filepath.Clean on slash-separated paths *)
Definition Clean (path : string) : string :=
  match path with
  | EmptyString => "."
  | String c _ =>
      let rooted := Ascii.eqb c "/" in
      let stack :=
        fold_left (λ st comp,
            if String.eqb comp EmptyString || String.eqb comp "." then st
            else if String.eqb comp ".." then
              match st with
              | top :: st' => if String.eqb top ".." then comp :: st else st'
              | [] => if rooted then [] else [comp]
              end
            else comp :: st)
          (split_on "/" path) [] in
      let body := join_with "/" (rev stack) in
      if rooted then "/" +:+ body
      else if String.eqb body EmptyString then "." else body
  end.

(** filepath.Join: leading empty elements are dropped, the rest joined by
    slashes and cleaned; no element at all gives the empty string. *)
Fixpoint Join (elem : list string) : string :=
  match elem with
  | [] => EmptyString
  | EmptyString :: rest => Join rest
  | _ => Clean (join_with "/" elem)
  end.

Definition hex_digit (d : Z) : ascii :=
  if d <? 10 then byte_of (48 + d) else byte_of (87 + d).

(** hex.EncodeToString: two lowercase hexadecimal digits a byte. *)
Fixpoint EncodeToString (s : string) : string :=
  match s with
  | EmptyString => EmptyString
  | String c s' =>
      String (hex_digit (code c / 16))
        (String (hex_digit (code c mod 16)) (EncodeToString s'))
  end.

(** ** The operating system

    The files and directories the program works on, kept by path. A
    directory carries the listing [os.ReadDir] returns for it. [denied]
    holds the paths at which the system refuses to create or write (a
    missing parent directory, permissions); [umask] is the creation mask of
    the process. *)

Record File : Type := mkFile {
  data : string;
  mode : Z
}.

Record DirEntry : Type := mkDirEntry {
  Name : string;
  IsDir : bool
}.

Inductive Node : Type :=
| NFile (f : File)
| NDir (perm : Z) (listing : list DirEntry).

Record FS : Type := mkFS {
  nodes : gmap string Node;
  umask : Z;
  denied : gset string
}.

Definition with_nodes (fs : FS) (m : gmap string Node) : FS :=
  mkFS m (umask fs) (denied fs).

Inductive error : Type :=
| ENOENT
| EISDIR
| ENOTDIR
| EACCES
| ErrJSON (e : json.error)
| ErrNoZipFiles (srcDir : string)
| ErrInvalidSemVer
| ErrExit
| ErrScriptMissing (script : string) (e : error)
| ErrBuildFailed (e : error)
| ErrScpFailed (local : string) (e : error)
| ErrSymlink (f : string) (e : error).

(** os.IsNotExist *)
Definition IsNotExist (e : error) : bool :=
  match e with
  | ENOENT => true
  | _ => false
  end.

(** os.ReadFile *)
Definition ReadFile (path : string) (fs : FS) : error + string :=
  match nodes fs !! path with
  | None => inl ENOENT
  | Some (NDir _ _) => inl EISDIR
  | Some (NFile f) => inr (data f)
  end.

(** os.OpenFile(path, O_CREATE|O_WRONLY|O_TRUNC, perm): an existing file
    is emptied and keeps its mode; a new one gets the requested mode less
    the bits of the umask. *)
Definition OpenFile_create_trunc (path : string) (perm : Z) (fs : FS) : error + FS :=
  if decide (path ∈ denied fs) then inl EACCES
  else
    match nodes fs !! path with
    | Some (NDir _ _) => inl EISDIR
    | Some (NFile f) =>
        inr (with_nodes fs (<[path := NFile (mkFile EmptyString (mode f))]> (nodes fs)))
    | None =>
        inr (with_nodes fs
               (<[path := NFile (mkFile EmptyString (Z.ldiff perm (umask fs)))]> (nodes fs)))
    end.

(** Writing to the file opened at [path]. *)
Definition write_data (path : string) (d : string) (fs : FS) : FS :=
  with_nodes fs
    (alter (λ n, match n with
                 | NFile f => NFile (mkFile (data f +:+ d) (mode f))
                 | _ => n
                 end) path (nodes fs)).

(** os.WriteFile. Once the file is open the write is taken to go through:
    a disk that is full or an I/O error after the file was emptied is
    outside this model, which knows the failures of opening only. *)
Definition WriteFile (path : string) (d : string) (perm : Z) (fs : FS) : error + FS :=
  match OpenFile_create_trunc path perm fs with
  | inl e => inl e
  | inr fs' => inr (write_data path d fs')
  end.

(** os.ReadDir *)
Definition ReadDir (path : string) (fs : FS) : error + list DirEntry :=
  match nodes fs !! path with
  | None => inl ENOENT
  | Some (NFile _) => inl ENOTDIR
  | Some (NDir _ l) => inr l
  end.

(** os.MkdirAll *)
Definition MkdirAll (path : string) (perm : Z) (fs : FS) : error + FS :=
  match nodes fs !! path with
  | Some (NDir _ _) => inr fs
  | Some (NFile _) => inl ENOTDIR
  | None =>
      if decide (path ∈ denied fs) then inl EACCES
      else inr (with_nodes fs (<[path := NDir (Z.ldiff perm (umask fs)) []]> (nodes fs)))
  end.

(** os.Stat, as far as the program uses it: does the path exist. *)
Definition Stat_ok (path : string) (fs : FS) : bool :=
  bool_decide (is_Some (nodes fs !! path)).

(** The process and what surrounds it: the file system, the clock, the
    commands run so far (oldest first) and what running a command does to
    the file system and whether it ends well. *)
Record World : Type := mkWorld {
  fs : FS;
  now : Z;
  trace : list (list string);
  run : list string → FS → FS * bool
}.

Definition with_fs (w : World) (f : FS) : World :=
  mkWorld f (now w) (trace w) (run w).

(** exec.Command(name, args...).Run() *)
Definition Run (argv : list string) (w : World) : World * option error :=
  let '(f, ok) := run w argv (fs w) in
  (mkWorld f (now w) (trace w ++ [argv]) (run w),
   if ok then None else Some ErrExit).

(** ** The program *)

Definition dlDir : string := "downloads".

(** Functions on the file system return the new file system next to their
    result; functions that run commands do the same with the world. *)
Definition lift_fs {A} (f : FS → FS * A) (w : World) : World * A :=
  let '(f', a) := f (fs w) in (with_fs w f', a).

(** func writeEntries(path string, ents []Entry) error *)
Definition writeEntries (path : string) (ents : slice Entry) (f : FS)
  : FS * option error :=
  let out := json.MarshalIndent ents in
  match WriteFile path out 420 f with
  | inl e => (f, Some e)
  | inr f' => (f', None)
  end.

(** func readEntries(path string) ([]Entry, error) *)
Definition readEntries (path : string) (f : FS) : FS * (error + slice Entry) :=
  match ReadFile path f with
  | inl err =>
      if IsNotExist err then
        match writeEntries path (Some []) f with
        | (f', Some err) => (f', inl err)
        | (f', None) => (f', inr (Some []))
        end
      else (f, inl err)
  | inr data =>
      match json.Unmarshal data with
      | inl err => (f, inl (ErrJSON err))
      | inr ents => (f, inr ents)
      end
  end.

(** func copyFile(src, dst string) error: the source is opened and
    stat-ed, the destination created or emptied with the mode of the
    source, and only then the bytes are read and written. Of the failures
    of the system the model knows a missing source, a destination that
    cannot be opened, and a source that is a directory; a source that
    cannot be read or a write that breaks off is outside it. *)
Definition copyFile (src dst : string) (f : FS) : FS * option error :=
  match nodes f !! src with
  | None => (f, Some ENOENT)
  | Some n =>
      let m := match n with NFile sf => mode sf | NDir p _ => p end in
      match OpenFile_create_trunc dst m f with
      | inl e => (f, Some e)
      | inr f1 =>
          match nodes f1 !! src with
          | Some (NFile sf) => (write_data dst (data sf) f1, None)
          | _ => (f1, Some EISDIR)
          end
      end
  end.

(** The loop of [collectAndRenameZips] over the directory entries. *)
Fixpoint stage_entries (srcDir versionDir ver : string) (entries : list DirEntry)
    (out : slice string) (f : FS) : FS * (error + slice string) :=
  match entries with
  | [] => (f, inr out)
  | de :: rest =>
      if IsDir de then stage_entries srcDir versionDir ver rest out f
      else if EqualFold (Ext (Name de)) ".zip" then
        let base := TrimSuffix (Name de) (Ext (Name de)) in
        let newName := base +:+ "-" +:+ ver +:+ ".zip" in
        match copyFile (Join [srcDir; Name de]) (Join [versionDir; newName]) f with
        | (f', Some err) => (f', inl err)
        | (f', None) =>
            stage_entries srcDir versionDir ver rest (append1 out newName) f'
        end
      else stage_entries srcDir versionDir ver rest out f
  end.

(** func collectAndRenameZips(srcDir, versionDir, ver string) ([]string, error) *)
Definition collectAndRenameZips (srcDir versionDir ver : string) (f : FS)
  : FS * (error + slice string) :=
  match ReadDir srcDir f with
  | inl err => (f, inl err)
  | inr entries =>
      match stage_entries srcDir versionDir ver entries None f with
      | (f', inl err) => (f', inl err)
      | (f', inr out) =>
          if Nat.eqb (length (elems out)) 0
          then (f', inl (ErrNoZipFiles srcDir))
          else (f', inr out)
      end
  end.

(** func parseHostPort(hp string) (host, port string) *)
Definition parseHostPort (hp : string) : string * string :=
  match split_on ":" hp with
  | [h; p] => (h, p)
  | _ => (hp, EmptyString)
  end.

(** func ensureRemoteDir(hostPort, user, remotePath string) error *)
Definition ensureRemoteDir (hostPort user remotePath : string) (w : World)
  : World * option error :=
  let '(host, port) := parseHostPort hostPort in
  let args := if String.eqb port EmptyString then [] else ["-p"; port] in
  let args := args ++ [user +:+ "@" +:+ host; "mkdir -p " +:+ remotePath] in
  Run ("ssh" :: args) w.

(** func uploadWithScp(hostPort, user, remoteDir string, locals ...string) error *)
Fixpoint scp_each (host port user remoteDir : string) (locals : list string)
    (w : World) : World * option error :=
  match locals with
  | [] => (w, None)
  | local :: rest =>
      let args := if String.eqb port EmptyString then [] else ["-P"; port] in
      let args := args ++ [local; user +:+ "@" +:+ host +:+ ":" +:+ remoteDir] in
      match Run ("scp" :: args) w with
      | (w', Some err) => (w', Some (ErrScpFailed local err))
      | (w', None) => scp_each host port user remoteDir rest w'
      end
  end.

Definition uploadWithScp (hostPort user remoteDir : string) (locals : list string)
    (w : World) : World * option error :=
  let '(host, port) := parseHostPort hostPort in
  scp_each host port user remoteDir locals w.

(** func RunBuildAll(version string) error *)
Definition RunBuildAll (version : string) (w : World) : World * option error :=
  let script := "../RelayClient/build/build-all.sh" in
  if negb (Stat_ok script (fs w)) then (w, Some (ErrScriptMissing script ENOENT))
  else
    match Run ["bash"; script; version] w with
    | (w', Some err) => (w', Some (ErrBuildFailed err))
    | (w', None) => (w', None)
    end.

(** The two ways of choosing the new version in [main]. *)
Definition explicitVersion (manualVer : string) : error + string :=
  match semver.NewVersion manualVer with
  | None => inl ErrInvalidSemVer
  | Some v => inr (semver.String_ v)
  end.

Definition highestVersion (entries : slice Entry) : semver.Version :=
  fold_left (λ highest e,
      match semver.NewVersion (Version e) with
      | Some v => if semver.GreaterThan v highest then v else highest
      | None => highest
      end)
    (elems entries) (semver.MustParse "0.0.0").

Definition automaticVersion (entries : slice Entry) : string :=
  semver.String_ (semver.IncPatch (highestVersion entries)).

Definition pickVersion (manualVer : string) (entries : slice Entry) : error + string :=
  if negb (String.eqb manualVer EmptyString) then explicitVersion manualVer
  else inr (automaticVersion entries).

Record Flags : Type := mkFlags {
  dryRun : bool;
  srcDir : string;
  manualVer : string;
  hostPort : string;
  user : string;
  remoteDir : string;
  jsonName : string
}.

(** A step of [main]: [None] when the process has left with status 1. *)
Definition Proc (A : Type) : Type := World → World * option A.

Definition pret {A} (a : A) : Proc A := λ w, (w, Some a).

Definition pbind {A B} (m : Proc A) (k : A → Proc B) : Proc B :=
  λ w, match m w with
       | (w', Some a) => k a w'
       | (w', None) => (w', None)
       end.

(** [if err != nil { ...; os.Exit(1) }] *)
Definition orExit {A} (m : World → World * (error + A)) : Proc A :=
  λ w, match m w with
       | (w', inr a) => (w', Some a)
       | (w', inl _) => (w', None)
       end.

Definition okOrExit (m : World → World * option error) : Proc unit :=
  λ w, match m w with
       | (w', None) => (w', Some tt)
       | (w', Some _) => (w', None)
       end.

Definition pure_step {A} (r : error + A) (w : World) : World * (error + A) := (w, r).

Definition fs_step (m : FS → error + FS) (f : FS) : FS * option error :=
  match m f with
  | inl e => (f, Some e)
  | inr f' => (f', None)
  end.

Section Program.

(** strconv.Quote, the [%q] of fmt. *)
Variable Quote : string → string.

(** func computeChecksum(path string) (string, error) *)
Definition computeChecksum (path : string) (f : FS) : error + string :=
  match ReadFile path f with
  | inl err => inl err
  | inr d => inr (EncodeToString (sha256.Sum256 d))
  end.

(** func updateLatestFileSymlinks(hostPort, user, remoteBase, newVersion string, files []string) error *)
Fixpoint symlink_each (host port user remoteBase newVersion : string)
    (files : list string) (w : World) : World * option error :=
  match files with
  | [] => (w, None)
  | f :: rest =>
      let generic := TrimSuffix f ("-" +:+ newVersion +:+ ".zip") +:+ "-latest.zip" in
      let target := Join [remoteBase; newVersion; f] in
      let link := Join [remoteBase; generic] in
      let args := if String.eqb port EmptyString then [] else ["-p"; port] in
      let args := args ++ [user +:+ "@" +:+ host;
                           "ln -sfn " +:+ Quote target +:+ " " +:+ Quote link] in
      match Run ("ssh" :: args) w with
      | (w', Some err) => (w', Some (ErrSymlink f err))
      | (w', None) => symlink_each host port user remoteBase newVersion rest w'
      end
  end.

Definition updateLatestFileSymlinks (hostPort user remoteBase newVersion : string)
    (files : list string) (w : World) : World * option error :=
  let '(host, port) := parseHostPort hostPort in
  symlink_each host port user remoteBase newVersion files w.

(** The loop of [main] that builds the links of the new entry. *)
Fixpoint checksum_each (versionDir : string) (files : list string)
    (links : slice downloadInfo) (f : FS) : error + slice downloadInfo :=
  match files with
  | [] => inr links
  | file :: rest =>
      let fullPath := Join [versionDir; file] in
      match computeChecksum fullPath f with
      | inl err => inl err
      | inr sum =>
          checksum_each versionDir rest
            (append1 links (mkDownloadInfo fullPath sum)) f
      end
  end.

(** The remote part of [main], from the creation of the remote folder. *)
Definition publish (fl : Flags) (newVersion versionDir : string)
    (files : slice string) : Proc unit :=
  let remoteVersionDir :=
    TrimRight (remoteDir fl) "/" +:+ "/" +:+ dlDir +:+ "/" +:+ newVersion in
  pbind (okOrExit (ensureRemoteDir (hostPort fl) (user fl) remoteVersionDir)) (λ _,
  let localZips := (λ f, Join [versionDir; f]) <$> elems files in
  if negb (dryRun fl) then
    pbind (okOrExit (uploadWithScp (hostPort fl) (user fl) remoteVersionDir localZips)) (λ _,
    pbind (okOrExit (uploadWithScp (hostPort fl) (user fl) (remoteDir fl) [jsonName fl])) (λ _,
    okOrExit (updateLatestFileSymlinks (hostPort fl) (user fl)
                (remoteDir fl +:+ "/" +:+ dlDir) newVersion (elems files))))
  else pret tt).

(** func main(), after the flags are parsed. *)
Definition main_steps (fl : Flags) : Proc unit :=
  pbind (okOrExit (lift_fs (fs_step (MkdirAll dlDir 493)))) (λ _,
  pbind (orExit (lift_fs (readEntries (jsonName fl)))) (λ entries,
  pbind (orExit (pure_step (pickVersion (manualVer fl) entries))) (λ newVersion,
  pbind (okOrExit (RunBuildAll newVersion)) (λ _,
  let versionDir := Join [dlDir; newVersion] in
  pbind (okOrExit (lift_fs (fs_step (MkdirAll versionDir 493)))) (λ _,
  pbind (orExit (lift_fs (collectAndRenameZips (srcDir fl) versionDir newVersion))) (λ files,
  pbind (orExit (λ w, (w, checksum_each versionDir (elems files) None (fs w)))) (λ links,
  λ w,
    let entries' :=
      upsertEntry entries (mkEntry newVersion (now w) links) in
    pbind (okOrExit (lift_fs (writeEntries (jsonName fl) entries'))) (λ _,
    publish fl newVersion versionDir files) w))))))).

(** The exit status of the process. *)
Definition main (fl : Flags) (w : World) : World * Z :=
  match main_steps fl w with
  | (w', Some _) => (w', 0)
  | (w', None) => (w', 1)
  end.

End Program.

(** ** Notions used to state the properties *)

(** No entry of the sequence carries the version of [n]. *)
Definition fresh_in (n : Entry) (l : list Entry) : Prop :=
  Forall (λ e, Version e ≠ Version n) l.

(** The directory entries staging picks: not a directory, and an
    extension that is [.zip] up to case. *)
Definition selected (de : DirEntry) : bool :=
  negb (IsDir de) && EqualFold (Ext (Name de)) ".zip".

(** The name staging gives to the copy of a selected entry. *)
Definition staged_name (ver : string) (de : DirEntry) : string :=
  TrimSuffix (Name de) (Ext (Name de)) +:+ "-" +:+ ver +:+ ".zip".

(** The mode a file has after it was opened with
    O_CREATE|O_TRUNC and [perm]. *)
Definition created_mode (path : string) (perm : Z) (f : FS) : Z :=
  match nodes f !! path with
  | Some (NFile df) => mode df
  | _ => Z.ldiff perm (umask f)
  end.

(** The copies staging makes: source path and destination path of every
    selected entry, in listing order. *)
Definition copy_jobs (srcDir versionDir ver : string) (listing : list DirEntry)
  : list (string * string) :=
  (λ de, (Join [srcDir; Name de], Join [versionDir; staged_name ver de]))
    <$> filter (λ de, selected de = true) listing.

(** The name the specification gives to a staged file: the base name,
    the version, and the extension the file came with. *)
Definition spec_staged_name (ver : string) (name : string) : string :=
  TrimSuffix name (Ext name) +:+ "-" +:+ ver +:+ Ext name.

(** The version the specification describes for automatic mode: the
    greatest of the versions that parse, 0.0.0 when none does, with the
    patch number one higher and without pre-release and metadata. *)
Definition spec_highest (entries : slice Entry) : semver.Version :=
  match omap (λ e, semver.NewVersion (Version e)) (elems entries) with
  | [] => semver.mkVersion 0 0 0 EmptyString EmptyString "0.0.0"
  | v :: vs =>
      fold_left (λ m x, if semver.GreaterThan x m then x else m) vs v
  end.

Definition spec_automaticVersion (entries : slice Entry) : string :=
  let m := spec_highest entries in
  semver.String_
    (semver.mkVersion (semver.major m) (semver.minor m) (semver.patch m + 1)
       EmptyString EmptyString EmptyString).

(** A prerelease part as the parser lets it through: when it is all
    digits, it has no leading zero. *)
Definition canonical (p : string) : Prop :=
  string_forallb is_digit p = true →
  ¬ (1 < String.length p)%nat ∨ ∀ r, p ≠ String "0" r.

(** The three kinds of parts: the empty part, numbers, and text. *)
Definition part_class (s : string) : Z :=
  match s with
  | EmptyString => 0
  | _ => match ParseUint64 s with Some _ => 1 | None => 2 end
  end.

(** The order [comparePrePart] decides: the empty part first, then the
    numbers by value, then text in byte order. *)
Definition part_lt (s o : string) : Prop :=
  part_class s < part_class o
  ∨ (part_class s = part_class o
     ∧ ((part_class s = 1 ∧ digits_value 0 s < digits_value 0 o)
        ∨ (part_class s = 2 ∧ String.compare s o = Lt))).

(** The tokens of a printed value. *)
Definition tokens_seq {A} (tk : A → list json.token)
    (opening closing : json.token) (l : list A) : list json.token :=
  match l with
  | [] => [opening; closing]
  | x :: xs =>
      opening :: tk x
      ++ fold_right (λ y acc, json.TComma :: tk y ++ acc) [closing] xs
  end.

Fixpoint tokens (v : json.value) : list json.token :=
  match v with
  | json.Null => [json.TNull]
  | json.Bool true => [json.TTrue]
  | json.Bool false => [json.TFalse]
  | json.Number lit => [json.TNum lit]
  | json.Str s => [json.TStr s]
  | json.Array vs => tokens_seq tokens json.TLBrack json.TRBrack vs
  | json.Object ms =>
      tokens_seq (λ m, json.TStr m.1 :: json.TColon :: tokens m.2)
        json.TLBrace json.TRBrace ms
  end.

(** Tokens a value can begin with. *)
Definition value_start (t : json.token) : Prop :=
  match t with
  | json.TRBrack | json.TRBrace | json.TColon | json.TComma => False
  | _ => True
  end.

(** The rest of [s] behind the byte [c], when [s] starts with it. *)
Definition after (c : ascii) (s : string) : option string :=
  match s with
  | String x r => if Ascii.eqb x c then Some r else None
  | EmptyString => None
  end.

(** Text the encoder writes back unchanged: here, ASCII. *)
Definition text (s : string) : Prop :=
  string_forallb (λ c, code c <? 128) s = true.

(** What may follow a number literal without becoming part of it. *)
Definition ends_number (rest : string) : Prop :=
  match rest with
  | EmptyString => True
  | String c _ =>
      is_digit c = false ∧ c ≠ "."%char ∧ c ≠ "e"%char ∧ c ≠ "E"%char
  end.

(** The values the encoder produces for manifests: text strings and
    64-bit integers. *)
Fixpoint wf_value (v : json.value) : Prop :=
  match v with
  | json.Null | json.Bool _ => True
  | json.Number lit => ∃ z, lit = json.format_int z ∧ - 2 ^ 63 <= z < 2 ^ 63
  | json.Str s => text s
  | json.Array vs => fold_right (λ x acc, wf_value x ∧ acc) True vs
  | json.Object ms => fold_right (λ m acc, (text m.1 ∧ wf_value m.2) ∧ acc) True ms
  end.

(** Manifests whose strings are text and whose dates are 64-bit. *)
Definition valid_info (i : downloadInfo) : Prop :=
  text (Link i) ∧ text (Checksum i).

Definition valid_entry (e : Entry) : Prop :=
  text (Version e) ∧ - 2 ^ 63 <= Date e < 2 ^ 63
  ∧ Forall valid_info (elems (Links e)).

Definition valid_entries (ents : slice Entry) : Prop :=
  Forall valid_entry (elems ents).

(** The last stage of [Compare], on the two pre-release strings: a
    version without pre-release is the greater one. *)
Definition preCompare (ps po : string) : Z :=
  if String.eqb ps EmptyString && String.eqb po EmptyString then 0
  else if String.eqb ps EmptyString then 1
  else if String.eqb po EmptyString then -1
  else semver.comparePrerelease ps po.

(** One round of the loop of automatic mode. *)
Definition keep_highest (highest : semver.Version) (e : Entry) : semver.Version :=
  match semver.NewVersion (Version e) with
  | Some v => if semver.GreaterThan v highest then v else highest
  | None => highest
  end.

(** A version whose prerelease parts are canonical and whose numbers are
    64-bit. *)
Definition wf_version (v : semver.Version) : Prop :=
  Forall canonical (split_on "." (semver.pre v))
  ∧ 0 <= semver.major v < 2 ^ 64
  ∧ 0 <= semver.minor v < 2 ^ 64
  ∧ 0 <= semver.patch v < 2 ^ 64.

(** The command [ensureRemoteDir] runs. *)
Definition mkdir_command (fl : Flags) (newVersion : string) : list string :=
  let '(host, port) := parseHostPort (hostPort fl) in
  "ssh" :: (if String.eqb port EmptyString then [] else ["-p"; port])
        ++ [user fl +:+ "@" +:+ host;
            "mkdir -p " +:+ TrimRight (remoteDir fl) "/" +:+ "/" +:+ dlDir
                        +:+ "/" +:+ newVersion].

(** The command [RunBuildAll] runs. *)
Definition build_command (newVersion : string) : list string :=
  ["bash"; "../RelayClient/build/build-all.sh"; newVersion].

(** The commands that reach the remote host. *)
Definition is_remote (argv : list string) : bool :=
  match argv with
  | cmd :: _ => String.eqb cmd "ssh" || String.eqb cmd "scp"
  | [] => false
  end.

(** The command [uploadWithScp] runs for one local file. *)
Definition scp_command (hostPort user remoteDir local : string) : list string :=
  let '(host, port) := parseHostPort hostPort in
  "scp" :: (if String.eqb port EmptyString then [] else ["-P"; port])
        ++ [local; user +:+ "@" +:+ host +:+ ":" +:+ remoteDir].

(** The name of the alias of a file, and the command
    [updateLatestFileSymlinks] runs for the file. *)
Definition alias_name (newVersion file : string) : string :=
  TrimSuffix file ("-" +:+ newVersion +:+ ".zip") +:+ "-latest.zip".

Definition ln_command (Quote : string → string)
    (hostPort user remoteBase newVersion file : string) : list string :=
  let '(host, port) := parseHostPort hostPort in
  "ssh" :: (if String.eqb port EmptyString then [] else ["-p"; port])
        ++ [user +:+ "@" +:+ host;
            "ln -sfn " +:+ Quote (Join [remoteBase; newVersion; file]) +:+ " "
            +:+ Quote (Join [remoteBase; alias_name newVersion file])].

(** Whether a command ends well when it is run in the world [w]. *)
Definition ends_well (argv : list string) (w : World) : bool :=
  (run w argv (fs w)).2.

(** The world after the commands were run one after the other. *)
Definition run_list (cmds : list (list string)) (w : World) : World :=
  fold_left (λ w' argv, (Run argv w').1) cmds w.

(** Every command of the list ends well when they are run one after the
    other, each in the world the ones before it left. *)
Fixpoint all_end_well (cmds : list (list string)) (w : World) : bool :=
  match cmds with
  | [] => true
  | argv :: rest => ends_well argv w && all_end_well rest (Run argv w).1
  end.

(** Running [cmds] from [w] up to the first command that ends badly leaves
    [w']: the commands run are a front part of the list; with [ok] they are
    the whole list and all ended well, without it the last one run ended
    badly and those before it ended well. *)
Definition stops_at_first_failure (cmds : list (list string)) (w w' : World)
    (ok : bool) : Prop :=
  ∃ ran rest,
    cmds = ran ++ rest
    ∧ w' = run_list ran w
    ∧ if ok then rest = [] ∧ all_end_well ran w = true
      else ∃ before argv,
             ran = before ++ [argv]
             ∧ all_end_well before w = true
             ∧ ends_well argv (run_list before w) = false.

(** The version [main] picks: the downloads directory was created, the
    manifest loaded, and [v] is what [pickVersion] makes of the flag and
    the entries. *)
Definition picked_version (fl : Flags) (w : World) (v : string) : Prop :=
  ∃ f1 f2 entries,
    MkdirAll dlDir 493 (fs w) = inr f1
    ∧ readEntries (jsonName fl) f1 = (f2, inr entries)
    ∧ pickVersion (manualVer fl) entries = inr v.

(** The local part of [main] has gone through, step by step: the
    downloads directory was created, [entries] loaded from the manifest,
    the version [v] picked, the build run without an error, the directory
    of the version created, [files] staged into it, [links] built from
    their checksums, and the manifest saved with the new entry; [w8] is
    the world this leaves, in which the remote part starts. *)
Definition local_steps (fl : Flags) (w : World) (entries : slice Entry)
    (v : string) (files : slice string) (links : slice downloadInfo)
    (w8 : World) : Prop :=
  ∃ f1 f2 w4 f5 f6 f8,
    MkdirAll dlDir 493 (fs w) = inr f1
    ∧ readEntries (jsonName fl) f1 = (f2, inr entries)
    ∧ pickVersion (manualVer fl) entries = inr v
    ∧ RunBuildAll v (with_fs w f2) = (w4, None)
    ∧ MkdirAll (Join [dlDir; v]) 493 (fs w4) = inr f5
    ∧ collectAndRenameZips (srcDir fl) (Join [dlDir; v]) v f5 = (f6, inr files)
    ∧ checksum_each (Join [dlDir; v]) (elems files) None f6 = inr links
    ∧ writeEntries (jsonName fl)
        (upsertEntry entries (mkEntry v (now w) links)) f6 = (f8, None)
    ∧ w8 = with_fs w4 f8.

(** The commands of the remote part of [main], in the order of the
    source: the creation of the remote directory of the version and,
    unless the run is dry, one transfer for every staged file, the
    transfer of the manifest, and one alias command for every staged
    file. *)
Definition remote_commands (Quote : string → string) (fl : Flags)
    (v : string) (files : list string) : list (list string) :=
  mkdir_command fl v
  :: (if dryRun fl then []
      else (scp_command (hostPort fl) (user fl)
              (TrimRight (remoteDir fl) "/" +:+ "/" +:+ dlDir +:+ "/" +:+ v)
              <$> ((λ f, Join [Join [dlDir; v]; f]) <$> files))
           ++ [scp_command (hostPort fl) (user fl) (remoteDir fl) (jsonName fl)]
           ++ (ln_command Quote (hostPort fl) (user fl)
                 (remoteDir fl +:+ "/" +:+ dlDir) v <$> files)).

(** No command changes the local files. *)
Definition keeps_files (w : World) : Prop :=
  ∀ argv f, (run w argv f).1 = f.

(** The listing [os.ReadDir] gives for a path; empty for what is not a
    directory. *)
Definition listing_at (f : FS) (path : string) : list DirEntry :=
  match nodes f !! path with
  | Some (NDir _ l) => l
  | _ => []
  end.

(** A string without a plus sign. *)
Definition no_plus (s : string) : bool :=
  string_forallb (λ c, negb (Ascii.eqb c "+")) s.

(** The flags with the dry-run flag set to [b]. *)
Definition set_dry (b : bool) (fl : Flags) : Flags :=
  mkFlags b (srcDir fl) (manualVer fl) (hostPort fl) (user fl) (remoteDir fl)
          (jsonName fl).

(** How often the byte [c] occurs in [s]. *)
Fixpoint count_byte (c : ascii) (s : string) : nat :=
  match s with
  | EmptyString => 0
  | String x s' => (if Ascii.eqb x c then 1 else 0) + count_byte c s'
  end.

(** The commands that reach the remote host leave the local files alone. *)
Definition remote_keeps_files (w : World) : Prop :=
  ∀ argv f, is_remote argv = true → (run w argv f).1 = f.

(** strconv.Quote on printable ASCII text without quotes or backslashes:
    the text between double quotes. *)
Definition quote_plain (s : string) : string :=
  String dquote (s +:+ String dquote EmptyString).

(** The bytes of the file at a path (none when there is no file). *)
Definition content (f : FS) (path : string) : string :=
  match nodes f !! path with
  | Some (NFile x) => data x
  | _ => EmptyString
  end.

Definition is_lower_hex (c : ascii) : bool :=
  is_digit c || ((97 <=? code c) && (code c <=? 102)).

(** ** Sample data *)

(** A source directory without archives: a folder that happens to be
    called like one, and a text file. *)
Definition fs_no_archives : FS :=
  mkFS (<["src" := NDir 493 [mkDirEntry "old.zip" true; mkDirEntry "notes.txt" false]]>
          (<["src/notes.txt" := NFile (mkFile "hello" 420)]> ∅))
       18 ∅.

(** A source directory with one archive whose extension is in capitals. *)
Definition fs_capitals : FS :=
  mkFS (<["src" := NDir 493 [mkDirEntry "A.ZIP" false]]>
          (<["src/A.ZIP" := NFile (mkFile "PK-A" 420)]> ∅))
       18 ∅.

(** A source directory with two archives whose names differ in the case
    of the extension only. *)
Definition fs_twins : FS :=
  mkFS (<["src" := NDir 493 [mkDirEntry "a.ZIP" false; mkDirEntry "a.zip" false]]>
          (<["src/a.ZIP" := NFile (mkFile "PK-X" 420)]>
             (<["src/a.zip" := NFile (mkFile "PK-Y" 420)]> ∅)))
       18 ∅.

(** Manifests: three releases; one whose newest version is a
    pre-release; one whose newest version has the largest patch number 64
    bits hold. *)
Definition manifest_three : slice Entry :=
  Some [mkEntry "0.9.0" 1 None; mkEntry "1.10.2" 2 None; mkEntry "not a version" 3 None;
        mkEntry "1.9.7" 4 None].

Definition manifest_beta : slice Entry :=
  Some [mkEntry "1.2.2" 1 None; mkEntry "1.2.3-beta" 2 None].

Definition manifest_full : slice Entry :=
  Some [mkEntry "0.0.18446744073709551615" 1 None].

(** A build tree with the build script and one archive, and no manifest
    yet. *)
Definition fs_release : FS :=
  mkFS (<["../RelayClient/build/build-all.sh" := NFile (mkFile "#!/bin/bash" 493)]>
          (<["../RelayClient" := NDir 493 [mkDirEntry "build" true;
                                            mkDirEntry "client.zip" false]]>
             (<["../RelayClient/client.zip" := NFile (mkFile "PK-client" 420)]> ∅)))
       18 ∅.

(** A world in which every command ends well and leaves the files alone. *)
Definition world_release : World :=
  mkWorld fs_release 1700000000000000000 [] (λ _ f, (f, true)).

(** The same world, except that every command with the argument [bad]
    fails. *)
Definition world_refusing (bad : string) : World :=
  mkWorld fs_release 1700000000000000000 []
    (λ argv f, (f, negb (existsb (String.eqb bad) argv))).

Definition flags_dry : Flags :=
  mkFlags true "../RelayClient" EmptyString "host.ext:2222" "user"
          "/home/user/www/public_html" "relayClient.json".

Definition flags_live : Flags :=
  mkFlags false "../RelayClient" EmptyString "host.ext" "user"
          "/home/user/www/public_html" "relayClient.json".

Definition flags_bad_version : Flags :=
  mkFlags false "../RelayClient" "1.2.x" "host.ext" "user"
          "/home/user/www/public_html" "relayClient.json".

(** A source directory with two archives and other entries. *)
Definition fs_two : FS :=
  mkFS (<["src" := NDir 493 [mkDirEntry "build" true; mkDirEntry "client.zip" false;
                              mkDirEntry "notes.txt" false; mkDirEntry "server.Zip" false]]>
          (<["src/client.zip" := NFile (mkFile "PK-client" 420)]>
             (<["src/server.Zip" := NFile (mkFile "PK-server" 384)]> ∅)))
       18 ∅.


(** A world without the build script. *)
Definition world_without_script : World :=
  mkWorld fs_two 1700000000000000000 [] (λ _ f, (f, true)).

(** A manifest of two releases, one with links, and a file system whose
    manifest is cut off. *)
Definition manifest_saved : slice Entry :=
  Some [mkEntry "0.0.1" 1700000000000000000
          (Some [mkDownloadInfo "downloads/0.0.1/client-0.0.1.zip" "00ff"]);
        mkEntry "0.0.2" (-5) (Some []);
        mkEntry "<b>&" 0 None].

Definition fs_corrupt : FS :=
  mkFS (<["relayClient.json" := NFile (mkFile "[{" 420)]> ∅) 18 ∅.

(** A source directory with three archives, where the system refuses to
    create the copy of the second. *)
Definition fs_blocked : FS :=
  mkFS (<["src" := NDir 493 [mkDirEntry "client.zip" false;
                              mkDirEntry "server.zip" false;
                              mkDirEntry "tools.zip" false]]>
          (<["src/client.zip" := NFile (mkFile "PK-client" 420)]>
             (<["src/server.zip" := NFile (mkFile "PK-server" 420)]>
                (<["src/tools.zip" := NFile (mkFile "PK-tools" 420)]> ∅))))
       18 {["out/server-1.0.0.zip"]}.

Definition entry_a : Entry := mkEntry "0.0.1" 10 (Some [mkDownloadInfo "a" "00"]).
Definition entry_b : Entry := mkEntry "0.0.2" 20 (Some [mkDownloadInfo "b" "11"]).
Definition entry_b' : Entry := mkEntry "0.0.2" 30 None.
Definition entry_c : Entry := mkEntry "0.1.0" 40 (Some []).


(** ** Strings *)

Section Strings.

Implicit Types (s t u : string) (c : ascii).

Lemma append_nil_r s : s +:+ EmptyString = s.
Proof. induction s; simpl; congruence. Qed.

Lemma append_assoc s t u : (s +:+ t) +:+ u = s +:+ t +:+ u.
Proof. induction s; simpl; congruence. Qed.

Lemma length_append s t :
  String.length (s +:+ t) = (String.length s + String.length t)%nat.
Proof. induction s; simpl; congruence. Qed.

Lemma substring_append_l s t :
  String.substring 0 (String.length s) (s +:+ t) = s.
Proof. induction s; simpl; [by destruct t|congruence]. Qed.

Lemma HasSuffix_split s t :
  HasSuffix s t = true → ∃ p, s = p +:+ t.
Proof.
  induction s as [|c s IH]; cbn [HasSuffix].
  - rewrite orb_false_r. intros ->%String.eqb_eq. by exists EmptyString.
  - intros [->%String.eqb_eq|H]%orb_true_iff.
    + by exists EmptyString.
    + destruct (IH H) as [p ->]. by exists (String c p).
Qed.

Lemma HasSuffix_append p t : HasSuffix (p +:+ t) t = true.
Proof.
  induction p as [|c p IH].
  - destruct t; cbn [HasSuffix String.append]; by rewrite String.eqb_refl.
  - change (String c p +:+ t) with (String c (p +:+ t)).
    cbn [HasSuffix]. by rewrite IH, orb_true_r.
Qed.

Lemma TrimSuffix_append p t : TrimSuffix (p +:+ t) t = p.
Proof.
  unfold TrimSuffix. rewrite HasSuffix_append, length_append.
  replace (String.length p + String.length t - String.length t)%nat
    with (String.length p) by lia.
  apply substring_append_l.
Qed.

(** The extension is a suffix of the name. *)
Lemma Ext_suffix s : HasSuffix s (Ext s) = true.
Proof.
  induction s as [|c s IH]; [done|].
  cbn [Ext]. destruct (Ext s) as [|e es] eqn:He.
  - destruct (Ascii.eqb c "." && negb (has_sep s)); cbn [HasSuffix].
    + by rewrite String.eqb_refl.
    + by rewrite IH, orb_true_r.
  - cbn [HasSuffix]. by rewrite IH, orb_true_r.
Qed.

Lemma name_base_ext s : s = TrimSuffix s (Ext s) +:+ Ext s.
Proof.
  destruct (HasSuffix_split _ _ (Ext_suffix s)) as [p Hp].
  rewrite Hp at 2. by rewrite TrimSuffix_append.
Qed.

End Strings.

(** ** Decimal digits *)

Section Digits.

Implicit Types (s t : string) (c : ascii).

Lemma code_range c : 0 <= code c < 256.
Proof. unfold code. pose proof (N_ascii_bounded c). lia. Qed.

Lemma code_inj c1 c2 : code c1 = code c2 → c1 = c2.
Proof.
  unfold code. intros H.
  rewrite <- (ascii_N_embedding c1), <- (ascii_N_embedding c2).
  f_equal. lia.
Qed.

Lemma is_digit_range c : is_digit c = true ↔ 48 <= code c <= 57.
Proof. unfold is_digit. rewrite andb_true_iff, !Z.leb_le. done. Qed.

Lemma byte_of_code c : byte_of (code c) = c.
Proof.
  unfold byte_of, code. rewrite N2Z.id. apply ascii_N_embedding.
Qed.

Lemma code_byte_of z : 0 <= z < 256 → code (byte_of z) = z.
Proof.
  intros H. unfold byte_of, code. rewrite N_ascii_embedding by lia. lia.
Qed.

Lemma digits_value_acc s acc :
  digits_value acc s
  = acc * 10 ^ Z.of_nat (String.length s) + digits_value 0 s.
Proof.
  revert acc. induction s as [|c s IH]; intros acc.
  - simpl. lia.
  - cbn [digits_value String.length]. rewrite IH, (IH (10 * 0 + _)).
    rewrite Nat2Z.inj_succ, Z.pow_succ_r by lia. lia.
Qed.

Lemma digits_value_cons c s :
  digits_value 0 (String c s)
  = (code c - 48) * 10 ^ Z.of_nat (String.length s) + digits_value 0 s.
Proof.
  cbn [digits_value]. rewrite digits_value_acc. lia.
Qed.

Lemma digits_value_bound s :
  string_forallb is_digit s = true →
  0 <= digits_value 0 s < 10 ^ Z.of_nat (String.length s).
Proof.
  induction s as [|c s IH]; [simpl; lia|].
  cbn [string_forallb]. intros [Hc Hs]%andb_true_iff.
  apply is_digit_range in Hc. specialize (IH Hs).
  rewrite digits_value_cons. cbn [String.length].
  rewrite Nat2Z.inj_succ, Z.pow_succ_r by lia. nia.
Qed.

(** Digit strings of one length with one value are equal. *)
Lemma digits_same_length_inj s t :
  string_forallb is_digit s = true → string_forallb is_digit t = true →
  String.length s = String.length t →
  digits_value 0 s = digits_value 0 t → s = t.
Proof.
  revert t. induction s as [|c s IH]; intros [|c' t]; try done.
  cbn [string_forallb String.length].
  intros [Hc Hs]%andb_true_iff [Hc' Ht]%andb_true_iff [= Hlen].
  rewrite !digits_value_cons, Hlen. intros Hv.
  pose proof (digits_value_bound s Hs) as Bs.
  pose proof (digits_value_bound t Ht) as Bt. rewrite Hlen in Bs.
  apply is_digit_range in Hc, Hc'.
  assert (code c = code c') as Hcc by nia.
  rewrite Hcc in Hv. f_equal; [by apply code_inj|].
  apply IH; [done..|lia].
Qed.

(** A digit string that does not start with a zero has at least the
    value of a one followed by zeros. *)
Lemma digits_value_lower c s :
  is_digit c = true → c ≠ "0"%char → string_forallb is_digit s = true →
  10 ^ Z.of_nat (String.length s) <= digits_value 0 (String c s).
Proof.
  intros Hc Hne Hs. apply is_digit_range in Hc.
  assert (code c ≠ 48) by (intros H; apply Hne, code_inj; by rewrite H).
  rewrite digits_value_cons. pose proof (digits_value_bound s Hs). nia.
Qed.

Local Lemma canonical_shorter s t :
  string_forallb is_digit s = true → string_forallb is_digit t = true →
  canonical t → (String.length s < String.length t)%nat → s ≠ EmptyString →
  digits_value 0 s < digits_value 0 t.
Proof.
  intros Hs Ht Hcan Hlen Hne.
  destruct t as [|c t]; [simpl in Hlen; lia|].
  pose proof Ht as Ht'. cbn [string_forallb] in Ht'.
  apply andb_true_iff in Ht' as [Hc Ht'].
  destruct s as [|c0 s]; [done|].
  cbn [String.length] in Hlen.
  destruct (Hcan Ht) as [Hshort|Hnz].
  { cbn [String.length] in Hshort. lia. }
  assert (c ≠ "0"%char) by (intros ->; by eapply Hnz).
  pose proof (digits_value_lower c t Hc H Ht').
  pose proof (digits_value_bound _ Hs) as Bs. cbn [String.length] in Bs.
  assert (10 ^ Z.of_nat (S (String.length s)) <= 10 ^ Z.of_nat (String.length t)).
  { apply Z.pow_le_mono_r; lia. }
  lia.
Qed.

(** Canonical digit strings are determined by their value. *)
Lemma canonical_digits_inj s t :
  string_forallb is_digit s = true → string_forallb is_digit t = true →
  canonical s → canonical t → s ≠ EmptyString → t ≠ EmptyString →
  digits_value 0 s = digits_value 0 t → s = t.
Proof.
  intros Hs Ht Cs Ct Ns Nt Hv.
  destruct (Nat.lt_trichotomy (String.length s) (String.length t))
    as [Hlt|[Heq|Hgt]].
  - pose proof (canonical_shorter s t Hs Ht Ct Hlt Ns). lia.
  - by apply digits_same_length_inj.
  - pose proof (canonical_shorter t s Ht Hs Cs Hgt Nt). lia.
Qed.

Lemma ParseUint64_Some s n :
  ParseUint64 s = Some n →
  s ≠ EmptyString ∧ string_forallb is_digit s = true
  ∧ n = digits_value 0 s ∧ 0 <= n < 2 ^ 64.
Proof.
  unfold ParseUint64. destruct s as [|c s]; [done|].
  destruct (string_forallb is_digit (String c s)) eqn:Hd; [|done].
  destruct (Z.ltb_spec (digits_value 0 (String c s)) (2 ^ 64)); [|done].
  intros [= <-]. pose proof (digits_value_bound _ Hd).
  cbn [digits_value] in *.
  split; [done|]. split; [done|]. split; [done|]. lia.
Qed.

Lemma ParseUint64_digits s :
  s ≠ EmptyString → string_forallb is_digit s = true →
  digits_value 0 s < 2 ^ 64 →
  ParseUint64 s = Some (digits_value 0 s).
Proof.
  intros Hne Hd Hv. unfold ParseUint64. destruct s; [done|].
  rewrite Hd. by destruct (Z.ltb_spec (digits_value 0 (String a s)) (2 ^ 64)); [|lia].
Qed.

Lemma ParseUint64_None s :
  ParseUint64 s = None → s ≠ EmptyString →
  string_forallb is_digit s = false ∨ 2 ^ 64 <= digits_value 0 s.
Proof.
  unfold ParseUint64. destruct s as [|c s]; [done|].
  destruct (string_forallb is_digit (String c s)); [|by left].
  destruct (Z.ltb_spec (digits_value 0 (String c s)) (2 ^ 64)); [done|].
  by right.
Qed.

End Digits.

(** ** Printing numbers *)

Section Decimal.

Implicit Types (s acc : string) (n : Z) (c : ascii).

Lemma string_forallb_app (p : ascii → bool) s t :
  string_forallb p (s +:+ t) = string_forallb p s && string_forallb p t.
Proof.
  induction s as [|c s IH]; [done|].
  change (String c s +:+ t) with (String c (s +:+ t)).
  cbn [string_forallb]. by rewrite IH, andb_assoc.
Qed.

Lemma digits_value_app a s t :
  digits_value a (s +:+ t) = digits_value (digits_value a s) t.
Proof.
  revert a. induction s as [|c s IH]; intros a; [done|].
  change (String c s +:+ t) with (String c (s +:+ t)).
  cbn [digits_value]. apply IH.
Qed.

Lemma digit_char_digit d :
  0 <= d < 10 → is_digit (digit_char d) = true ∧ code (digit_char d) - 48 = d.
Proof.
  intros H. unfold digit_char. change (ascii_of_N (Z.to_N (48 + d))) with (byte_of (48 + d)).
  rewrite is_digit_range, code_byte_of by lia. lia.
Qed.

(** What [dec_go] puts in front of the accumulator: the digits of [n],
    without a leading zero unless [n] is zero. *)
Lemma dec_go_spec fuel n acc :
  0 <= n < 10 ^ Z.of_nat fuel → (0 < fuel)%nat →
  ∃ c t,
    dec_go fuel n acc = String c t +:+ acc
    ∧ string_forallb is_digit (String c t) = true
    ∧ digits_value 0 (String c t) = n
    ∧ (n = 0 → String c t = "0")
    ∧ (0 < n → c ≠ "0"%char).
Proof.
  revert n acc. induction fuel as [|fuel IH]; intros n acc Hn Hf; [lia|].
  cbn [dec_go]. destruct (Z.ltb_spec n 10) as [Hlt|Hge].
  - assert (n mod 10 = n) as -> by (apply Z.mod_small; lia).
    destruct (digit_char_digit n) as [Hd Hv]; [lia|].
    exists (digit_char n), EmptyString. split_and!.
    + done.
    + cbn [string_forallb]. by rewrite Hd.
    + cbn [digits_value]. lia.
    + by intros ->.
    + intros Hpos Heq. rewrite Heq in Hv. vm_compute in Hv. lia.
  - assert (0 < fuel)%nat as Hf'.
    { destruct fuel; [|lia]. simpl in Hn. lia. }
    destruct (IH (n / 10) (String (digit_char (n mod 10)) acc))
      as (c & t & -> & Hd & Hv & _ & Hnz); [|done|].
    { rewrite Nat2Z.inj_succ, Z.pow_succ_r in Hn by lia.
      split; [apply Z.div_pos; lia|apply Z.div_lt_upper_bound; lia]. }
    destruct (digit_char_digit (n mod 10)) as [Hd' Hv'].
    { apply Z.mod_pos_bound. lia. }
    exists c, (t +:+ String (digit_char (n mod 10)) EmptyString). split_and!.
    + change (String c (t +:+ String (digit_char (n mod 10)) EmptyString))
        with (String c t +:+ String (digit_char (n mod 10)) EmptyString).
      by rewrite append_assoc.
    + change (String c (t +:+ String (digit_char (n mod 10)) EmptyString))
        with (String c t +:+ String (digit_char (n mod 10)) EmptyString).
      rewrite string_forallb_app, Hd. cbn [string_forallb]. by rewrite Hd'.
    + change (String c (t +:+ String (digit_char (n mod 10)) EmptyString))
        with (String c t +:+ String (digit_char (n mod 10)) EmptyString).
      rewrite digits_value_app, Hv. cbn [digits_value].
      rewrite Hv'. pose proof (Z.div_mod n 10). lia.
    + lia.
    + intros _. apply Hnz. apply Z.div_str_pos. lia.
Qed.

Lemma dec_spec n :
  0 <= n < 10 ^ 20 →
  ∃ c t,
    dec n = String c t
    ∧ string_forallb is_digit (String c t) = true
    ∧ digits_value 0 (String c t) = n
    ∧ (n = 0 → String c t = "0")
    ∧ (0 < n → c ≠ "0"%char).
Proof.
  intros Hn. unfold dec.
  destruct (dec_go_spec 20 n EmptyString) as (c & t & -> & H); [done|lia|].
  exists c, t. by rewrite append_nil_r.
Qed.

(** Matching on a leading byte is a test for that byte. *)
Lemma leading_minus {A} s (f : string → A) (g : A) :
  match s with String "-" r => f r | _ => g end
  = match after "-" s with Some r => f r | None => g end.
Proof.
  destruct s as [|c r]; [done|].
  destruct c as [[] [] [] [] [] [] [] []]; reflexivity.
Qed.

Lemma leading_zero {A} s (f : string → A) (g : A) :
  match s with String "0" r => f r | _ => g end
  = match after "0" s with Some r => f r | None => g end.
Proof.
  destruct s as [|c r]; [done|].
  destruct c as [[] [] [] [] [] [] [] []]; reflexivity.
Qed.

Lemma leading_dot {A} s (f : string → A) (g : A) :
  match s with String "." r => f r | _ => g end
  = match after "." s with Some r => f r | None => g end.
Proof.
  destruct s as [|c r]; [done|].
  destruct c as [[] [] [] [] [] [] [] []]; reflexivity.
Qed.

Lemma digit_not_minus c : is_digit c = true → Ascii.eqb c "-" = false.
Proof.
  intros H%is_digit_range. apply Ascii.eqb_neq. intros ->.
  vm_compute in H. destruct H as [H _]. by apply H.
Qed.

(** Printing and reading back a 64-bit integer. *)
Lemma ParseInt64_format_int z :
  - 2 ^ 63 <= z < 2 ^ 63 → json.ParseInt64 (json.format_int z) = Some z.
Proof.
  intros Hz. unfold json.format_int, json.ParseInt64.
  rewrite leading_minus.
  destruct (Z.ltb_spec z 0) as [Hneg|Hpos].
  - destruct (dec_spec (- z)) as (c & t & -> & Hd & Hv & _); [lia|].
    cbn [String.append after]. simpl (Ascii.eqb "-" "-").
    cbv iota. rewrite Hd, Hv.
    destruct (Z.leb_spec (- 2 ^ 63) (- - z)); [|lia].
    destruct (Z.ltb_spec (- - z) (2 ^ 63)); [|lia].
    simpl. f_equal. lia.
  - destruct (dec_spec z) as (c & t & -> & Hd & Hv & _); [lia|].
    pose proof Hd as Hc. cbn [string_forallb] in Hc.
    apply andb_true_iff in Hc as [Hc _].
    cbn [after]. rewrite (digit_not_minus c Hc). cbv iota.
    rewrite Hd, Hv.
    destruct (Z.leb_spec (- 2 ^ 63) z); [|lia].
    destruct (Z.ltb_spec z (2 ^ 63)); [|lia]. done.
Qed.

End Decimal.

(** ** The order of versions *)

Section PartOrder.

Import semver.

Implicit Types (s o p : string).

Lemma ascii_compare_lt_trans (a b c : ascii) :
  Ascii.compare a b = Lt → Ascii.compare b c = Lt → Ascii.compare a c = Lt.
Proof.
  unfold Ascii.compare. rewrite !N.compare_lt_iff. lia.
Qed.

Lemma string_compare_lt_trans s o p :
  String.compare s o = Lt → String.compare o p = Lt → String.compare s p = Lt.
Proof.
  revert o p. induction s as [|a s IH]; intros [|b o] [|c p]; try done.
  cbn [String.compare].
  destruct (Ascii.compare a b) eqn:Hab; try done;
    destruct (Ascii.compare b c) eqn:Hbc; try done.
  - apply Ascii.compare_eq_iff in Hab as ->, Hbc as ->.
    rewrite (proj2 (N.compare_eq_iff _ _) eq_refl : Ascii.compare c c = Eq).
    apply IH.
  - apply Ascii.compare_eq_iff in Hab as ->. by rewrite Hbc.
  - apply Ascii.compare_eq_iff in Hbc as ->. by rewrite Hab.
  - by rewrite (ascii_compare_lt_trans _ _ _ Hab Hbc).
Qed.

Lemma string_compare_refl s : String.compare s s = Eq.
Proof.
  induction s as [|a s IH]; [done|]. cbn [String.compare].
  by rewrite (proj2 (N.compare_eq_iff _ _) eq_refl : Ascii.compare a a = Eq).
Qed.

Lemma string_compare_gt_lt s o :
  String.compare s o = Gt ↔ String.compare o s = Lt.
Proof.
  rewrite (String.compare_antisym o s).
  destruct (String.compare s o); simpl; split; congruence.
Qed.

Lemma part_lt_irrefl s : ¬ part_lt s s.
Proof.
  intros [H|[_ [[_ H]|[_ H]]]]; [lia..|].
  by rewrite string_compare_refl in H.
Qed.

Lemma part_lt_trans s o p : part_lt s o → part_lt o p → part_lt s p.
Proof.
  unfold part_lt.
  intros [H1|[E1 [[C1 V1]|[C1 L1]]]] [H2|[E2 [[C2 V2]|[C2 L2]]]];
    try (left; lia); right; (split; [lia|]).
  - left. split; [done|lia].
  - right. split; [done|]. by eapply string_compare_lt_trans.
Qed.

Lemma part_lt_asym s o : part_lt s o → ¬ part_lt o s.
Proof.
  intros H1 H2. eapply part_lt_irrefl, part_lt_trans; eauto.
Qed.

Lemma part_class_nonempty s :
  s ≠ EmptyString →
  (part_class s = 1 ∧ ∃ n, ParseUint64 s = Some n)
  ∨ (part_class s = 2 ∧ ParseUint64 s = None).
Proof.
  intros Hne. unfold part_class. destruct s; [done|].
  destruct (ParseUint64 _); eauto.
Qed.

(** [comparePrePart] decides the order of parts. *)
Lemma comparePrePart_spec s o :
  canonical s → canonical o →
  (s = o ∧ comparePrePart s o = 0)
  ∨ (part_lt s o ∧ comparePrePart s o = -1)
  ∨ (part_lt o s ∧ comparePrePart s o = 1).
Proof.
  intros Cs Co. unfold comparePrePart.
  destruct (String.eqb_spec s o) as [->|Hne]; [by left|]. right.
  destruct (String.eqb_spec s EmptyString) as [->|Hs].
  { destruct (String.eqb_spec o EmptyString) as [->|Ho]; [done|].
    left. split; [|done]. left.
    destruct (part_class_nonempty o Ho) as [[-> _]|[-> _]]; simpl; lia. }
  destruct (String.eqb_spec o EmptyString) as [->|Ho].
  { right. simpl. split; [|done]. left.
    destruct (part_class_nonempty s Hs) as [[-> _]|[-> _]]; simpl; lia. }
  destruct (part_class_nonempty s Hs) as [[Ks [si Hsi]]|[Ks Hsi]];
    destruct (part_class_nonempty o Ho) as [[Ko [oi Hoi]]|[Ko Hoi]];
    rewrite Hsi, Hoi.
  - apply ParseUint64_Some in Hsi as (_ & Ds & -> & _).
    apply ParseUint64_Some in Hoi as (_ & Do & -> & _).
    assert (digits_value 0 s ≠ digits_value 0 o).
    { intros Hv. apply Hne. by apply canonical_digits_inj. }
    destruct (Z.ltb_spec (digits_value 0 o) (digits_value 0 s)).
    + right. split; [|done]. right. split; [lia|]. left. split; [done|lia].
    + left. split; [|done]. right. split; [lia|]. left. split; [done|lia].
  - left. split; [|done]. left. lia.
  - right. split; [|done]. left. lia.
  - unfold string_gtb. destruct (String.compare s o) eqn:Hc.
    + by apply String.compare_eq_iff in Hc.
    + left. split; [|done]. right. split; [lia|]. by right.
    + right. split; [|done]. right. split; [lia|]. right.
      split; [done|]. by apply string_compare_gt_lt.
Qed.

Lemma comparePrePart_refl s : comparePrePart s s = 0.
Proof. unfold comparePrePart. by rewrite String.eqb_refl. Qed.

Lemma comparePrePart_sign s o :
  canonical s → canonical o → comparePrePart s o = - comparePrePart o s.
Proof.
  intros Cs Co.
  destruct (comparePrePart_spec s o Cs Co) as [[E1 H1]|[[L1 H1]|[L1 H1]]];
    destruct (comparePrePart_spec o s Co Cs) as [[E2 H2]|[[L2 H2]|[L2 H2]]];
    rewrite H1, H2; try done; exfalso; subst;
    first [by eapply part_lt_irrefl | by eapply part_lt_asym].
Qed.

Lemma comparePrePart_le_trans s o p :
  canonical s → canonical o → canonical p →
  comparePrePart s o <= 0 → comparePrePart o p <= 0 → comparePrePart s p <= 0.
Proof.
  intros Cs Co Cp.
  destruct (comparePrePart_spec s o Cs Co) as [[E1 H1]|[[L1 H1]|[L1 H1]]];
    rewrite H1; [by subst| |lia].
  destruct (comparePrePart_spec o p Co Cp) as [[E2 H2]|[[L2 H2]|[L2 H2]]];
    rewrite H2; [| |lia]; intros _ _.
  - subst. lia.
  - pose proof (part_lt_trans _ _ _ L1 L2) as L3.
    destruct (comparePrePart_spec s p Cs Cp) as [[E3 H3]|[[L H3]|[L H3]]];
      rewrite H3; [lia..|]. by apply part_lt_asym in L.
Qed.

Lemma comparePrePart_zero s o : comparePrePart s o = 0 → s = o.
Proof.
  unfold comparePrePart.
  destruct (String.eqb_spec s o); [done|].
  repeat case_match; done.
Qed.

Lemma canonical_empty : canonical EmptyString.
Proof. intros _. left. simpl. lia. Qed.

Lemma canonical_hd (l : list string) :
  Forall canonical l → canonical (hd EmptyString l).
Proof. destruct 1; [apply canonical_empty|done]. Qed.

Lemma canonical_tl (l : list string) :
  Forall canonical l → Forall canonical (tl l).
Proof. by destruct 1. Qed.

Lemma compareParts_sign n (x y : list string) :
  Forall canonical x → Forall canonical y →
  compareParts n x y = - compareParts n y x.
Proof.
  revert x y. induction n as [|n IH]; intros x y Hx Hy; [done|].
  cbn [compareParts].
  rewrite (comparePrePart_sign (hd _ x) (hd _ y))
    by (by apply canonical_hd).
  destruct (Z.eqb_spec (comparePrePart (hd EmptyString y) (hd EmptyString x)) 0)
    as [->|Hne].
  - simpl. apply IH; by apply canonical_tl.
  - destruct (Z.eqb_spec (- comparePrePart (hd EmptyString y) (hd EmptyString x)) 0);
      [lia|done].
Qed.

Lemma compareParts_le_trans n (x y z : list string) :
  Forall canonical x → Forall canonical y → Forall canonical z →
  compareParts n x y <= 0 → compareParts n y z <= 0 → compareParts n x z <= 0.
Proof.
  revert x y z. induction n as [|n IH]; intros x y z Hx Hy Hz; [done|].
  cbn [compareParts].
  pose proof (canonical_hd _ Hx) as Cx. pose proof (canonical_hd _ Hy) as Cy.
  pose proof (canonical_hd _ Hz) as Cz.
  destruct (Z.eqb_spec (comparePrePart (hd EmptyString x) (hd EmptyString y)) 0)
    as [Exy|Nxy];
    destruct (Z.eqb_spec (comparePrePart (hd EmptyString y) (hd EmptyString z)) 0)
    as [Eyz|Nyz]; simpl.
  - apply comparePrePart_zero in Exy, Eyz. rewrite Exy, Eyz.
    rewrite comparePrePart_refl. simpl.
    apply IH; by apply canonical_tl.
  - apply comparePrePart_zero in Exy. rewrite Exy. intros _ H.
    destruct (Z.eqb_spec (comparePrePart (hd EmptyString y) (hd EmptyString z)) 0);
      [done|]. done.
  - apply comparePrePart_zero in Eyz. rewrite <- Eyz. intros H _.
    destruct (Z.eqb_spec (comparePrePart (hd EmptyString x) (hd EmptyString y)) 0);
      [done|]. done.
  - intros H1 H2.
    pose proof (comparePrePart_le_trans _ _ _ Cx Cy Cz H1 H2) as H3.
    destruct (Z.eqb_spec (comparePrePart (hd EmptyString x) (hd EmptyString z)) 0)
      as [Exz|]; [|done]. simpl.
    apply comparePrePart_zero in Exz.
    rewrite Exz in H1.
    rewrite (comparePrePart_sign _ _ Cz Cy) in H1. lia.
Qed.

(** More rounds than parts change nothing. *)
Lemma compareParts_more n (x y : list string) :
  (length x ≤ n)%nat → (length y ≤ n)%nat →
  compareParts (S n) x y = compareParts n x y.
Proof.
  revert x y. induction n as [|n IH]; intros x y Hx Hy.
  - destruct x, y; simpl in *; first [lia|done].
  - change (compareParts (S (S n)) x y)
      with (let d := comparePrePart (hd EmptyString x) (hd EmptyString y) in
            if negb (d =? 0) then d else compareParts (S n) (tl x) (tl y)).
    cbn zeta. rewrite IH; [done|destruct x|destruct y]; simpl in *; lia.
Qed.

Lemma compareParts_fuel n m (x y : list string) :
  (length x ≤ n)%nat → (length y ≤ n)%nat → (n ≤ m)%nat →
  compareParts m x y = compareParts n x y.
Proof.
  intros Hx Hy. induction 1 as [|m Hm IH]; [done|].
  rewrite compareParts_more by lia. done.
Qed.

End PartOrder.

Section VersionOrder.

Implicit Types (v o h x : semver.Version).

Lemma compareSegment_cases a b :
  (a < b ∧ semver.compareSegment a b = -1)
  ∨ (a = b ∧ semver.compareSegment a b = 0)
  ∨ (b < a ∧ semver.compareSegment a b = 1).
Proof.
  unfold semver.compareSegment.
  destruct (Z.ltb_spec a b); [by left|].
  destruct (Z.ltb_spec b a); [by right; right|].
  right; left. split; [lia|done].
Qed.

(** [semver.Compare] goes through semver.major, semver.minor and semver.patch number and leaves
    the decision to the semver.pre-releases when these agree. *)
Lemma Compare_cases v o :
  ((semver.major v, semver.minor v, semver.patch v) = (semver.major o, semver.minor o, semver.patch o)
   ∧ semver.Compare v o = preCompare (semver.pre v) (semver.pre o))
  ∨ ((semver.major v < semver.major o
      ∨ (semver.major v = semver.major o
         ∧ (semver.minor v < semver.minor o ∨ (semver.minor v = semver.minor o ∧ semver.patch v < semver.patch o))))
     ∧ semver.Compare v o = -1)
  ∨ ((semver.major o < semver.major v
      ∨ (semver.major v = semver.major o
         ∧ (semver.minor o < semver.minor v ∨ (semver.minor v = semver.minor o ∧ semver.patch o < semver.patch v))))
     ∧ semver.Compare v o = 1).
Proof.
  unfold semver.Compare, preCompare.
  destruct (compareSegment_cases (semver.major v) (semver.major o))
    as [[H ->]|[[H ->]|[H ->]]]; simpl; [right; left; split; [lia|done]| |
                                         right; right; split; [lia|done]].
  destruct (compareSegment_cases (semver.minor v) (semver.minor o))
    as [[H1 ->]|[[H1 ->]|[H1 ->]]]; simpl; [right; left; split; [lia|done]| |
                                            right; right; split; [lia|done]].
  destruct (compareSegment_cases (semver.patch v) (semver.patch o))
    as [[H2 ->]|[[H2 ->]|[H2 ->]]]; simpl; [right; left; split; [lia|done]| |
                                            right; right; split; [lia|done]].
  left. split; [congruence|done].
Qed.

Lemma compareParts_refl n (l : list string) : semver.compareParts n l l = 0.
Proof.
  revert l. induction n as [|n IH]; intros l; [done|].
  cbn [semver.compareParts]. rewrite comparePrePart_refl. simpl. apply IH.
Qed.

Lemma preCompare_refl p : preCompare p p = 0.
Proof.
  unfold preCompare, semver.comparePrerelease.
  destruct (String.eqb p EmptyString); [done|]. simpl.
  apply compareParts_refl.
Qed.

Lemma preCompare_sign p q :
  Forall canonical (split_on "." p) → Forall canonical (split_on "." q) →
  preCompare p q = - preCompare q p.
Proof.
  intros Hp Hq. unfold preCompare, semver.comparePrerelease.
  destruct (String.eqb p EmptyString), (String.eqb q EmptyString); try done.
  simpl. rewrite Nat.max_comm. by apply compareParts_sign.
Qed.

Lemma preCompare_le_trans p q r :
  Forall canonical (split_on "." p) → Forall canonical (split_on "." q) →
  Forall canonical (split_on "." r) →
  preCompare p q <= 0 → preCompare q r <= 0 → preCompare p r <= 0.
Proof.
  intros Hp Hq Hr. unfold preCompare, semver.comparePrerelease.
  destruct (String.eqb p EmptyString), (String.eqb q EmptyString),
    (String.eqb r EmptyString); simpl; try lia.
  set (P := split_on "." p). set (Q := split_on "." q). set (R := split_on "." r).
  set (N := (length P `max` length Q `max` length R)%nat).
  rewrite <- (compareParts_fuel _ N P Q), <- (compareParts_fuel _ N Q R),
    <- (compareParts_fuel _ N P R) by lia.
  by apply compareParts_le_trans.
Qed.

Lemma Compare_refl v : semver.Compare v v = 0.
Proof.
  destruct (Compare_cases v v) as [[_ ->]|[[H _]|[H _]]]; [|lia..].
  apply preCompare_refl.
Qed.

Lemma Compare_sign v o :
  wf_version v → wf_version o → semver.Compare v o = - semver.Compare o v.
Proof.
  intros [Hv _] [Ho _].
  destruct (Compare_cases v o) as [[E ->]|[[H ->]|[H ->]]];
    destruct (Compare_cases o v) as [[E' ->]|[[H' ->]|[H' ->]]];
    simplify_eq; try lia.
  by apply preCompare_sign.
Qed.

Lemma Compare_le_trans x h v :
  wf_version x → wf_version h → wf_version v →
  semver.Compare x h <= 0 → semver.Compare h v <= 0 → semver.Compare x v <= 0.
Proof.
  intros [Hx _] [Hh _] [Hv _].
  destruct (Compare_cases x h) as [[E1 ->]|[[H1 ->]|[H1 ->]]]; [| |lia];
    (destruct (Compare_cases h v) as [[E2 ->]|[[H2 ->]|[H2 ->]]]; [| |lia]);
    (destruct (Compare_cases x v) as [[E3 ->]|[[H3 ->]|[H3 ->]]]);
    simplify_eq; try lia.
  by apply preCompare_le_trans.
Qed.

Lemma validPart_canonical e : semver.validPart e = true → canonical e.
Proof.
  unfold semver.validPart, canonical, semver.containsOnly. intros H Hd. rewrite Hd in H.
  apply negb_true_iff, andb_false_iff in H as [H|H].
  - left. apply Z.ltb_ge in H. lia.
  - right. intros r ->. done.
Qed.

Lemma validatePrerelease_canonical p :
  semver.validatePrerelease p = true → Forall canonical (split_on "." p).
Proof.
  unfold semver.validatePrerelease. rewrite forallb_forall, Forall_forall.
  intros H e He. apply validPart_canonical, H. by apply list_elem_of_In.
Qed.

(** What the parser returns is well formed. *)
Lemma NewVersion_wf s v : semver.NewVersion s = Some v → wf_version v.
Proof.
  unfold semver.NewVersion.
  destruct (semver.submatch s) as [[[[[ma mi] pa] p] m]|]; [|done]. simpl.
  destruct (ParseUint64 ma) as [a|] eqn:Ha; [|done]. simpl.
  assert (∀ t, (if String.eqb t EmptyString then Some 0 else ParseUint64 t) = None
               ∨ ∃ n, (if String.eqb t EmptyString then Some 0 else ParseUint64 t)
                      = Some n ∧ 0 <= n < 2 ^ 64) as Hnum.
  { intros t. destruct (String.eqb t EmptyString).
    - right. exists 0. split; [done|lia].
    - destruct (ParseUint64 t) as [n|] eqn:Hn; [|by left].
      right. exists n. split; [done|]. by apply ParseUint64_Some in Hn as (_ & _ & _ & ?). }
  destruct (Hnum mi) as [->|(b & -> & Hb)]; [done|]. simpl.
  destruct (Hnum pa) as [->|(c & -> & Hc)]; [done|]. simpl.
  apply ParseUint64_Some in Ha as (_ & _ & _ & Ha).
  destruct (String.eqb_spec p EmptyString) as [->|Hp]; simpl.
  - destruct (negb (String.eqb m EmptyString) && negb (semver.validateMetadata m));
      [done|]. intros [= <-]. split; [|done]. simpl.
    constructor; [apply canonical_empty|constructor].
  - destruct (semver.validatePrerelease p) eqn:Hv; [|done]. simpl.
    destruct (negb (String.eqb m EmptyString) && negb (semver.validateMetadata m));
      [done|]. intros [= <-]. split; [|done]. simpl.
    by apply validatePrerelease_canonical.
Qed.

Lemma zero_version_wf : wf_version (semver.MustParse "0.0.0").
Proof.
  apply (NewVersion_wf "0.0.0"). reflexivity.
Qed.

(** The loop of automatic mode ends on a version none of the parsed
    versions, nor the start value, exceeds; it is the start value or one
    of the parsed versions. *)
Lemma keep_highest_fold (l : list Entry) h0 :
  wf_version h0 →
  let r := fold_left keep_highest l h0 in
  wf_version r
  ∧ semver.Compare h0 r <= 0
  ∧ (∀ e v, e ∈ l → semver.NewVersion (Version e) = Some v → semver.Compare v r <= 0)
  ∧ (r = h0 ∨ ∃ e, e ∈ l ∧ semver.NewVersion (Version e) = Some r).
Proof.
  revert h0. induction l as [|e l IH]; intros h0 Hwf; simpl.
  - split_and!; [done|by rewrite Compare_refl| |by left].
    intros e v []%elem_of_nil.
  - assert (wf_version (keep_highest h0 e)
            ∧ semver.Compare h0 (keep_highest h0 e) <= 0
            ∧ (∀ v, semver.NewVersion (Version e) = Some v →
                    semver.Compare v (keep_highest h0 e) <= 0)
            ∧ (keep_highest h0 e = h0
               ∨ semver.NewVersion (Version e) = Some (keep_highest h0 e)))
      as (Hwf1 & Hle1 & Hnew & Hor).
    { unfold keep_highest, semver.GreaterThan.
      destruct (semver.NewVersion (Version e)) as [v|] eqn:Hv.
      - pose proof (NewVersion_wf _ _ Hv) as Hwfv.
        destruct (Z.ltb_spec 0 (semver.Compare v h0)) as [Hgt|Hle].
        + split_and!; [done| | |by right].
          * rewrite Compare_sign by done. lia.
          * intros ? [= <-]. by rewrite Compare_refl.
        + split_and!; [done|by rewrite Compare_refl| |by left].
          by intros ? [= <-].
      - split_and!; [done|by rewrite Compare_refl|done|by left]. }
    destruct (IH _ Hwf1) as (Hwfr & Hle & Hall & Hfrom).
    split_and!; [done| | |].
    + by apply (Compare_le_trans h0 (keep_highest h0 e)).
    + intros e' v [->|Hin]%elem_of_cons Hv; [|by eauto].
      apply (Compare_le_trans v (keep_highest h0 e)); try done.
      * by eapply NewVersion_wf.
      * by apply Hnew.
    + destruct Hfrom as [->|(e' & Hin & He')].
      * destruct Hor as [->|Hor]; [by left|].
        right. exists e. split; [by left|done].
      * right. exists e'. split; [by right|done].
Qed.

(** The version after the highest one beats everything the highest one
    is not beaten by, unless its semver.patch number wraps around. *)
Lemma IncPatch_exceeds h x :
  0 <= semver.patch h →
  semver.pre h ≠ EmptyString ∨ semver.patch h < 2 ^ 64 - 1 →
  semver.Compare x h <= 0 → 0 < semver.Compare (semver.IncPatch h) x.
Proof.
  intros Hp Hno Hle.
  assert (semver.major (semver.IncPatch h) = semver.major h ∧ semver.minor (semver.IncPatch h) = semver.minor h
          ∧ semver.pre (semver.IncPatch h) = EmptyString
          ∧ ((semver.pre h = EmptyString ∧ semver.patch (semver.IncPatch h) = semver.patch h + 1)
             ∨ (semver.pre h ≠ EmptyString ∧ semver.patch (semver.IncPatch h) = semver.patch h)))
    as (Hma & Hmi & Hpre & Hpa).
  { unfold semver.IncPatch. destruct (String.eqb_spec (semver.pre h) EmptyString) as [E|E];
      simpl; split_and!; try done.
    - left. split; [done|]. destruct Hno as [?|?]; [done|].
      apply Z.mod_small. lia.
    - by right. }
  destruct (Compare_cases x h) as [[E Hc]|[[H Hc]|[H Hc]]]; rewrite Hc in Hle;
    [| |lia];
    destruct (Compare_cases (semver.IncPatch h) x) as [[E' ->]|[[H' ->]|[H' ->]]];
    simplify_eq; try lia.
  - (* equal numbers: the pre-releases decide *)
    destruct Hpa as [[Hpe Hpa]|[Hpe Hpa]]; [lia|].
    rewrite Hpre. unfold preCompare in *.
    destruct (String.eqb_spec (semver.pre h) EmptyString); [done|].
    destruct (String.eqb_spec (semver.pre x) EmptyString); simpl in *; [lia|done].
Qed.

End VersionOrder.

(** C1, as the code has it: automatic mode parses the version of every
    entry, passes over those that do not parse, and keeps the greatest,
    starting from 0.0.0; no parsed version and not 0.0.0 exceeds the one it
    keeps. The new version is the kept one without pre-release and
    metadata; its patch number is one higher when the kept version has no
    pre-release and unchanged when it has one. Unless the patch number is
    the largest a 64-bit number holds, the new version is strictly greater
    than every version of the manifest that parses. *)
Theorem automatic_version_exceeds_manifest (entries : slice Entry) :
  let h := highestVersion entries in
  let n := semver.IncPatch h in
  automaticVersion entries = semver.String_ n
  ∧ (h = semver.MustParse "0.0.0"
     ∨ ∃ e, e ∈ elems entries ∧ semver.NewVersion (Version e) = Some h)
  ∧ semver.Compare (semver.MustParse "0.0.0") h <= 0
  ∧ (∀ e v, e ∈ elems entries → semver.NewVersion (Version e) = Some v →
            semver.GreaterThan v h = false)
  ∧ semver.major n = semver.major h ∧ semver.minor n = semver.minor h
  ∧ semver.pre n = EmptyString ∧ semver.metadata n = EmptyString
  ∧ semver.patch n
    = (if String.eqb (semver.pre h) EmptyString
       then (semver.patch h + 1) mod 2 ^ 64 else semver.patch h)
  ∧ (semver.pre h ≠ EmptyString ∨ semver.patch h < 2 ^ 64 - 1 →
     ∀ e v, e ∈ elems entries → semver.NewVersion (Version e) = Some v →
            semver.GreaterThan n v = true).
Proof.
  intros h n.
  destruct (keep_highest_fold (elems entries) _ zero_version_wf)
    as (Hwf & Hzero & Hall & Hfrom).
  change (fold_left keep_highest (elems entries) (semver.MustParse "0.0.0"))
    with h in *.
  split_and!; try done.
  - intros e v Hin Hv. unfold semver.GreaterThan.
    apply Z.ltb_ge. by eapply Hall.
  - subst n. unfold semver.IncPatch. by destruct (String.eqb _ _).
  - subst n. unfold semver.IncPatch. by destruct (String.eqb _ _).
  - subst n. unfold semver.IncPatch. by destruct (String.eqb _ _).
  - subst n. unfold semver.IncPatch. by destruct (String.eqb _ _).
  - subst n. unfold semver.IncPatch. by destruct (String.eqb _ _).
  - intros Hno e v Hin Hv. unfold semver.GreaterThan. apply Z.ltb_lt.
    apply IncPatch_exceeds; [|done|by eapply Hall].
    destruct Hwf as (_ & _ & _ & ?). lia.
Qed.

Lemma automatic_version_exceeds_manifest_witness :
  automaticVersion manifest_three = "1.10.3"
  ∧ ∀ e v, e ∈ elems manifest_three → semver.NewVersion (Version e) = Some v →
           semver.GreaterThan (semver.IncPatch (highestVersion manifest_three)) v
           = true.
Proof.
  pose proof (automatic_version_exceeds_manifest manifest_three) as H.
  cbv zeta in H.
  destruct H as (H1 & _ & _ & _ & _ & _ & _ & _ & _ & H2).
  split.
  - rewrite H1. vm_compute. reflexivity.
  - apply H2. right. vm_compute. reflexivity.
Defined.

(** C1, as the specification words it, fails on a manifest whose
    greatest version is a pre-release: after 1.2.3-beta the code picks
    1.2.3, not 1.2.4. *)
Lemma automatic_version_after_prerelease :
  automaticVersion manifest_beta = "1.2.3"
  ∧ spec_automaticVersion manifest_beta = "1.2.4"
  ∧ automaticVersion manifest_beta ≠ spec_automaticVersion manifest_beta.
Proof.
  split_and!; [by vm_compute..|]. vm_compute. discriminate.
Qed.

(** The patch number wraps around at 64 bits: after
    0.0.18446744073709551615 the code picks 0.0.0, which is not greater. *)
Example automatic_version_wraps :
  automaticVersion manifest_full = "0.0.0"
  ∧ ∃ v, semver.NewVersion "0.0.18446744073709551615" = Some v
         ∧ semver.GreaterThan (semver.IncPatch (highestVersion manifest_full)) v
           = false.
Proof.
  split; [by vm_compute|]. eexists. split; [by vm_compute|by vm_compute].
Qed.

(** ** Explicit versions *)

Section Explicit.

Implicit Types (a b s rest : string) (c : ascii).

Local Arguments ParseUint64 : simpl never.

Lemma strip_v_digit c s :
  is_digit c = true → semver.strip_v (String c s) = String c s.
Proof.
  intros H.
  destruct c as [[] [] [] [] [] [] [] []]; try reflexivity.
  vm_compute in H. discriminate.
Qed.

Lemma span_digits_app a rest :
  string_forallb is_digit a = true →
  match rest with
  | String c _ => is_digit c = false
  | EmptyString => True
  end →
  semver.span_digits (a +:+ rest) = (a, rest).
Proof.
  intros Ha Hr. induction a as [|c a IH].
  - destruct rest as [|c r]; [done|]. simpl. by rewrite Hr.
  - cbn [string_forallb] in Ha. apply andb_true_iff in Ha as [Hc Ha].
    change (String c a +:+ rest) with (String c (a +:+ rest)).
    cbn [semver.span_digits]. by rewrite Hc, IH.
Qed.

Lemma dot_number_digits b rest :
  b ≠ EmptyString → string_forallb is_digit b = true →
  match rest with
  | String c _ => is_digit c = false
  | EmptyString => True
  end →
  semver.dot_number (String "." (b +:+ rest)) = Some (b, rest).
Proof.
  intros Nb Db Hr. unfold semver.dot_number.
  rewrite span_digits_app by done. by destruct b.
Qed.

(** The parser on a major and a minor number without a patch number. *)
Lemma NewVersion_major_minor a b :
  a ≠ EmptyString → b ≠ EmptyString →
  string_forallb is_digit a = true → string_forallb is_digit b = true →
  digits_value 0 a < 2 ^ 64 → digits_value 0 b < 2 ^ 64 →
  semver.NewVersion (a +:+ "." +:+ b)
  = Some (semver.mkVersion (digits_value 0 a) (digits_value 0 b) 0
            EmptyString EmptyString (a +:+ "." +:+ b)).
Proof.
  intros Na Nb Da Db Va Vb. unfold semver.NewVersion, semver.submatch.
  destruct a as [|c a]; [done|].
  pose proof Da as Hc. cbn [string_forallb] in Hc.
  apply andb_true_iff in Hc as [Hc _].
  change (String c a +:+ "." +:+ b) with (String c (a +:+ "." +:+ b)).
  rewrite strip_v_digit by done.
  change (String c (a +:+ "." +:+ b)) with (String c a +:+ "." +:+ b).
  rewrite span_digits_app by done.
  rewrite <- (append_nil_r b) at 1.
  change ("." +:+ b +:+ EmptyString) with (String "." (b +:+ EmptyString)).
  rewrite dot_number_digits by done. simpl.
  rewrite (ParseUint64_digits (String c a)) by done. simpl.
  destruct (String.eqb_spec b EmptyString) as [|_]; [done|].
  rewrite (ParseUint64_digits b) by done. simpl.
  reflexivity.
Qed.

(** The parser on a major number alone. *)
Lemma NewVersion_major a :
  a ≠ EmptyString → string_forallb is_digit a = true →
  digits_value 0 a < 2 ^ 64 →
  semver.NewVersion a
  = Some (semver.mkVersion (digits_value 0 a) 0 0 EmptyString EmptyString a).
Proof.
  intros Na Da Va. unfold semver.NewVersion, semver.submatch.
  destruct a as [|c a]; [done|].
  pose proof Da as Hc. cbn [string_forallb] in Hc.
  apply andb_true_iff in Hc as [Hc _].
  rewrite strip_v_digit by done.
  rewrite <- (append_nil_r (String c a)) at 1.
  rewrite span_digits_app by done.
  cbn [semver.dot_number semver.suffix mbind option_bind].
  rewrite (ParseUint64_digits (String c a)) by done.
  reflexivity.
Qed.

End Explicit.

(** C3 on the code: explicit mode does not hold the version to the form
    a.b.c the flag documents. A major number alone, and a major and a
    minor number, are taken as versions and completed with zeros, for any
    64-bit numbers and whatever the manifest holds; neither gives the
    invalid-version error. Leading zeros of the numbers are dropped on the
    way. *)
Theorem explicit_version_accepts_missing_components
    (a b : string) (entries : slice Entry) :
  a ≠ EmptyString → b ≠ EmptyString →
  string_forallb is_digit a = true → string_forallb is_digit b = true →
  digits_value 0 a < 2 ^ 64 → digits_value 0 b < 2 ^ 64 →
  pickVersion a entries = inr (dec (digits_value 0 a) +:+ ".0.0")
  ∧ pickVersion (a +:+ "." +:+ b) entries
    = inr (dec (digits_value 0 a) +:+ "." +:+ dec (digits_value 0 b) +:+ ".0")
  ∧ explicitVersion a ≠ inl ErrInvalidSemVer
  ∧ explicitVersion (a +:+ "." +:+ b) ≠ inl ErrInvalidSemVer.
Proof.
  intros Na Nb Da Db Va Vb.
  assert (explicitVersion a = inr (dec (digits_value 0 a) +:+ ".0.0")) as E1.
  { unfold explicitVersion. by rewrite NewVersion_major. }
  assert (explicitVersion (a +:+ "." +:+ b)
          = inr (dec (digits_value 0 a) +:+ "." +:+ dec (digits_value 0 b) +:+ ".0"))
    as E2.
  { unfold explicitVersion. by rewrite NewVersion_major_minor. }
  assert (∀ s, s ≠ EmptyString → pickVersion s entries = explicitVersion s) as Hpick.
  { intros s Hs. unfold pickVersion.
    by rewrite (proj2 (String.eqb_neq _ _) Hs). }
  split_and!.
  - by rewrite Hpick.
  - rewrite Hpick; [done|]. by destruct a.
  - by rewrite E1.
  - by rewrite E2.
Qed.

Lemma explicit_version_accepts_missing_components_witness :
  pickVersion "7" manifest_three = inr "7.0.0"
  ∧ pickVersion "1.2" manifest_three = inr "1.2.0"
  ∧ explicitVersion "1.2" ≠ inl ErrInvalidSemVer.
Proof.
  destruct (explicit_version_accepts_missing_components "7" "2" manifest_three)
    as (H7 & _); try first [reflexivity | discriminate].
  destruct (explicit_version_accepts_missing_components "1" "2" manifest_three)
    as (_ & H12 & _ & N12); try first [reflexivity | discriminate].
  split; [exact H7|]. split; [exact H12|exact N12].
Defined.
(* ===================================================================== *)
(** * Properties *)
(* ===================================================================== *)

(** ** Manifest store: upsert *)

Section Upsert.

Implicit Types (l : list Entry) (e n : Entry).

Lemma list_find_fresh n l :
  fresh_in n l → list_find (λ e, Version e = Version n) l = None.
Proof.
  intros H. apply list_find_None. exact H.
Qed.

Lemma list_find_first n l1 x l2 :
  fresh_in n l1 → Version x = Version n →
  list_find (λ e, Version e = Version n) (l1 ++ x :: l2)
  = Some (length l1, x).
Proof.
  intros Hf Hx. apply list_find_Some. split_and!.
  - rewrite lookup_app_r by lia. by rewrite Nat.sub_diag.
  - done.
  - intros j y Hj Hlt. rewrite lookup_app_l in Hj by lia.
    eapply Forall_lookup_1 in Hf; eauto.
Qed.

Lemma upsert_append entries n :
  fresh_in n (elems entries) →
  upsertEntry entries n = Some (elems entries ++ [n]).
Proof.
  intros H. unfold upsertEntry. by rewrite list_find_fresh.
Qed.

Lemma upsert_replace entries n l1 x l2 :
  elems entries = l1 ++ x :: l2 →
  fresh_in n l1 → Version x = Version n →
  upsertEntry entries n = Some (l1 ++ n :: l2).
Proof.
  intros He Hf Hx. unfold upsertEntry. rewrite He.
  rewrite list_find_first by done.
  f_equal. rewrite insert_app_r_alt by lia.
  by rewrite Nat.sub_diag.
Qed.

(** Every sequence either has no entry of the version, or splits at the
    first one. *)
Lemma first_occurrence n l :
  fresh_in n l ∨
  ∃ l1 x l2, l = l1 ++ x :: l2 ∧ fresh_in n l1 ∧ Version x = Version n.
Proof.
  induction l as [|e l IH].
  - left. constructor.
  - destruct (decide (Version e = Version n)) as [Heq|Hne].
    + right. exists [], e, l. split_and!; [done|constructor|done].
    + destruct IH as [IH|(l1 & x & l2 & -> & Hf & Hx)].
      * left. by constructor.
      * right. exists (e :: l1), x, l2. split_and!; [done| |done].
        by constructor.
Qed.

End Upsert.

(** C4: upsert replaces the first entry of the new entry's version where
    it stands, leaving every other entry alone, or appends the new entry
    when no entry has that version; applying the same entry a second time
    changes nothing. *)
Theorem upsert_in_place_or_append_idempotent (entries : slice Entry) (n : Entry) :
  (∀ l1 x l2,
      elems entries = l1 ++ x :: l2 → fresh_in n l1 → Version x = Version n →
      upsertEntry entries n = Some (l1 ++ n :: l2))
  ∧ (fresh_in n (elems entries) →
      upsertEntry entries n = Some (elems entries ++ [n]))
  ∧ upsertEntry (upsertEntry entries n) n = upsertEntry entries n.
Proof.
  split_and!.
  - intros l1 x l2. apply upsert_replace.
  - apply upsert_append.
  - destruct (first_occurrence n (elems entries))
      as [Hf|(l1 & x & l2 & He & Hf & Hx)].
    + rewrite (upsert_append _ _ Hf).
      eapply upsert_replace; [reflexivity|exact Hf|reflexivity].
    + rewrite (upsert_replace _ _ _ _ _ He Hf Hx).
      eapply upsert_replace; [reflexivity|exact Hf|reflexivity].
Qed.

Lemma upsert_in_place_or_append_idempotent_witness :
  upsertEntry (Some [entry_a; entry_b; entry_c]) entry_b'
  = Some ([entry_a] ++ entry_b' :: [entry_c])
  ∧ upsertEntry (Some [entry_a; entry_b]) entry_c
    = Some ([entry_a; entry_b] ++ [entry_c]).
Proof.
  split.
  - apply (proj1 (upsert_in_place_or_append_idempotent
                    (Some [entry_a; entry_b; entry_c]) entry_b')
             [entry_a] entry_b [entry_c]).
    + reflexivity.
    + repeat constructor. discriminate.
    + reflexivity.
  - apply (proj1 (proj2 (upsert_in_place_or_append_idempotent
                           (Some [entry_a; entry_b]) entry_c))).
    repeat constructor; discriminate.
Defined.

(** C10: upsert keeps versions unique: from a sequence in which no two
    entries share a version it returns such a sequence again; on a
    sequence that already holds several entries of the new entry's version
    only the first of them is overwritten and the later ones stay as they
    are. *)
Theorem upsert_preserves_unique_versions (entries : slice Entry) (n : Entry) :
  (NoDup (Version <$> elems entries) →
   NoDup (Version <$> elems (upsertEntry entries n)))
  ∧ (∀ l1 x l2,
        elems entries = l1 ++ x :: l2 → fresh_in n l1 → Version x = Version n →
        elems (upsertEntry entries n) = l1 ++ n :: l2
        ∧ drop (S (length l1)) (elems (upsertEntry entries n)) = l2).
Proof.
  split.
  - intros Hnd.
    destruct (first_occurrence n (elems entries))
      as [Hf|(l1 & x & l2 & He & Hf & Hx)].
    + rewrite (upsert_append _ _ Hf). simpl.
      rewrite fmap_app. apply NoDup_app. split_and!; [done| |].
      * intros v Hv [<-|[]]%list_elem_of_In.
        apply list_elem_of_fmap in Hv as (e & He & Hin).
        eapply Forall_forall in Hf; [|exact Hin]. by apply Hf.
      * simpl. apply NoDup_singleton.
    + rewrite (upsert_replace _ _ _ _ _ He Hf Hx). simpl.
      rewrite He in Hnd. rewrite fmap_app, fmap_cons in *.
      by rewrite <- Hx.
  - intros l1 x l2 He Hf Hx.
    rewrite (upsert_replace _ _ _ _ _ He Hf Hx). simpl. split; [done|].
    change (S (length l1)) with (1 + length l1)%nat.
    rewrite Nat.add_comm, <- drop_drop, drop_app_length. reflexivity.
Qed.

Lemma upsert_preserves_unique_versions_witness :
  NoDup (Version <$> elems (upsertEntry (Some [entry_a; entry_b]) entry_b'))
  ∧ elems (upsertEntry (Some [entry_a; entry_b; entry_c; entry_b]) entry_b')
    = [entry_a] ++ entry_b' :: [entry_c; entry_b].
Proof.
  split.
  - apply (proj1 (upsert_preserves_unique_versions
                    (Some [entry_a; entry_b]) entry_b')).
    apply (bool_decide_unpack _). vm_compute. exact I.
  - apply (proj2 (upsert_preserves_unique_versions
                    (Some [entry_a; entry_b; entry_c; entry_b]) entry_b')
             [entry_a] entry_b [entry_c; entry_b]).
    + reflexivity.
    + repeat constructor. discriminate.
    + reflexivity.
Defined.

(** ** Artifact stager *)

Section Staging.

Implicit Types (f : FS) (de : DirEntry) (listing : list DirEntry).

Lemma OpenFile_create_trunc_ok path perm f f' :
  OpenFile_create_trunc path perm f = inr f' →
  (path ∉ denied f)
  ∧ f' = with_nodes f
           (<[path := NFile (mkFile EmptyString (created_mode path perm f))]>
              (nodes f)).
Proof.
  unfold OpenFile_create_trunc, created_mode.
  destruct (decide (path ∈ denied f)); [done|].
  destruct (nodes f !! path) as [[df|p l]|]; intros [= <-]; done.
Qed.

(** A copy that succeeds leaves the bytes of the source at the
    destination and touches nothing else. *)
Lemma copyFile_ok src dst f f' :
  copyFile src dst f = (f', None) → src ≠ dst →
  ∃ sf, nodes f !! src = Some (NFile sf)
        ∧ f' = with_nodes f
                 (<[dst := NFile (mkFile (data sf) (created_mode dst (mode sf) f))]>
                    (nodes f)).
Proof.
  unfold copyFile. intros H Hne.
  destruct (nodes f !! src) as [n|] eqn:Hsrc; [|done].
  destruct (OpenFile_create_trunc dst _ f) as [e|f1] eqn:Hopen; [done|].
  apply OpenFile_create_trunc_ok in Hopen as [_ ->]. simpl in H.
  rewrite lookup_insert_ne in H by done. rewrite Hsrc in H.
  destruct n as [sf|p l]; [|done].
  exists sf. split; [done|]. simplify_eq.
  unfold write_data, with_nodes. simpl. by rewrite alter_insert_eq.
Qed.

(** After a successful copy every path that held a file still does, and
    so does the destination. *)
Lemma copyFile_file_at src dst f f' p :
  copyFile src dst f = (f', None) →
  p = dst ∨ (∃ x, nodes f !! p = Some (NFile x)) →
  ∃ x, nodes f' !! p = Some (NFile x).
Proof.
  unfold copyFile. intros H Hp.
  destruct (nodes f !! src) as [n|] eqn:Hsrc; [|done].
  destruct (OpenFile_create_trunc dst _ f) as [e|f1] eqn:Hopen; [done|].
  apply OpenFile_create_trunc_ok in Hopen as [_ ->]. simpl in H.
  destruct (<[dst:=_]> (nodes f) !! src) as [[sf|]|]; try done.
  simplify_eq.
  unfold write_data, with_nodes. simpl. rewrite alter_insert_eq.
  destruct (decide (p = dst)) as [->|Hne].
  - rewrite lookup_insert_eq. eauto.
  - rewrite lookup_insert_ne by done. by destruct Hp.
Qed.

Lemma selected_true de :
  selected de = true ↔ IsDir de = false ∧ EqualFold (Ext (Name de)) ".zip" = true.
Proof.
  unfold selected. rewrite andb_true_iff, negb_true_iff. done.
Qed.

(** An entry that is not selected is passed over. *)
Lemma stage_entries_skip srcDir versionDir ver de rest out f :
  selected de = false →
  stage_entries srcDir versionDir ver (de :: rest) out f
  = stage_entries srcDir versionDir ver rest out f.
Proof.
  unfold selected. simpl. destruct (IsDir de); [done|]. simpl.
  by intros ->.
Qed.

Lemma stage_entries_pick srcDir versionDir ver de rest out f :
  selected de = true →
  stage_entries srcDir versionDir ver (de :: rest) out f
  = match copyFile (Join [srcDir; Name de])
            (Join [versionDir; staged_name ver de]) f with
    | (f', Some err) => (f', inl err)
    | (f', None) =>
        stage_entries srcDir versionDir ver rest
          (append1 out (staged_name ver de)) f'
    end.
Proof.
  intros [Hd He]%selected_true. cbn [stage_entries].
  by rewrite Hd, He.
Qed.

(** The names returned: those of the selected entries, in listing
    order, each renamed. *)
Lemma stage_entries_names srcDir versionDir ver listing out f f' out' :
  stage_entries srcDir versionDir ver listing out f = (f', inr out') →
  elems out' = elems out
               ++ (staged_name ver <$> filter (λ de, selected de = true) listing).
Proof.
  revert out f. induction listing as [|de rest IH]; intros out f H.
  - injection H as _ <-. by rewrite app_nil_r.
  - destruct (selected de) eqn:Hs.
    + rewrite stage_entries_pick in H by done.
      destruct (copyFile _ _ f) as [f1 [err|]]; [done|].
      apply IH in H. rewrite H, filter_cons_True by done.
      simpl. by rewrite <- app_assoc.
    + rewrite stage_entries_skip in H by done.
      rewrite filter_cons_False by (by rewrite Hs). eauto.
Qed.

(** Every staged path holds a file afterwards. *)
Lemma stage_entries_files srcDir versionDir ver listing out f f' out' :
  stage_entries srcDir versionDir ver listing out f = (f', inr out') →
  (∀ p, (∃ x, nodes f !! p = Some (NFile x)) → ∃ x, nodes f' !! p = Some (NFile x))
  ∧ ∀ de, de ∈ listing → selected de = true →
      ∃ x, nodes f' !! Join [versionDir; staged_name ver de] = Some (NFile x).
Proof.
  revert out f. induction listing as [|de rest IH]; intros out f H.
  - injection H as <- _. split; [done|]. intros de []%elem_of_nil.
  - destruct (selected de) eqn:Hs.
    + rewrite stage_entries_pick in H by done.
      destruct (copyFile _ _ f) as [f1 [err|]] eqn:Hc; [done|].
      destruct (IH _ _ H) as [Hkeep Hnew]. split.
      * intros p Hp. apply Hkeep. eapply copyFile_file_at; eauto.
      * intros de' [->|Hin]%elem_of_cons Hs'; [|by eauto].
        apply Hkeep. eapply copyFile_file_at; eauto.
    + rewrite stage_entries_skip in H by done.
      destruct (IH _ _ H) as [Hkeep Hnew]. split; [done|].
      intros de' [->|Hin]%elem_of_cons Hs'; [congruence|by eauto].
Qed.

(** When no two copies share a destination and no destination is the
    source of a copy, every destination ends up with the bytes its
    source had before staging, and every other path is as before. *)
Lemma stage_entries_contents srcDir versionDir ver listing out f f' out' :
  stage_entries srcDir versionDir ver listing out f = (f', inr out') →
  let J := copy_jobs srcDir versionDir ver listing in
  NoDup J.*2 → (∀ s d, s ∈ J.*1 → d ∈ J.*2 → s ≠ d) →
  umask f' = umask f ∧ denied f' = denied f
  ∧ (∀ p, p ∉ J.*2 → nodes f' !! p = nodes f !! p)
  ∧ (∀ s d, (s, d) ∈ J →
       ∃ sf, nodes f !! s = Some (NFile sf)
             ∧ nodes f' !! d
               = Some (NFile (mkFile (data sf) (created_mode d (mode sf) f)))).
Proof.
  revert out f. induction listing as [|de rest IH]; intros out f H J Hnd Hdis.
  - injection H as <- _. split_and!; [done..|]. intros s d []%elem_of_nil.
  - subst J. unfold copy_jobs in *. destruct (selected de) eqn:Hs.
    + rewrite stage_entries_pick in H by done.
      rewrite filter_cons_True in * by done. rewrite fmap_cons in *.
      set (src := Join [srcDir; Name de]) in *.
      set (dst := Join [versionDir; staged_name ver de]) in *.
      destruct (copyFile src dst f) as [f1 [err|]] eqn:Hc; [done|].
      rewrite !fmap_cons in Hnd, Hdis. simpl in Hnd, Hdis.
      apply NoDup_cons in Hnd as [Hfresh Hnd].
      assert (src ≠ dst) as Hne by (apply Hdis; apply elem_of_cons; by left).
      destruct (copyFile_ok _ _ _ _ Hc Hne) as (sf & Hsrc & ->).
      destruct (IH _ _ H Hnd) as (Hu & Hd & Hother & Hjobs).
      { intros s d Hs' Hd'. apply Hdis; apply elem_of_cons; by right. }
      simpl in Hu, Hd. split_and!; [done..| |].
      * intros p Hp. rewrite !fmap_cons in Hp. simpl in Hp.
        apply not_elem_of_cons in Hp as [Hp1 Hp2].
        rewrite Hother by done. simpl. by rewrite lookup_insert_ne.
      * intros s d [Heq|Hin]%elem_of_cons.
        -- injection Heq as -> ->. exists sf. split; [done|].
           rewrite Hother by done. simpl. by rewrite lookup_insert_eq.
        -- assert (d ≠ dst) as Hd1.
           { intros ->. apply Hfresh.
             apply list_elem_of_fmap. by exists (s, dst). }
           assert (s ≠ dst) as Hs1.
           { apply Hdis; [right|left].
             apply list_elem_of_fmap. by exists (s, d). }
           destruct (Hjobs _ _ Hin) as (sf' & Hs' & Hd').
           simpl in Hs'. rewrite lookup_insert_ne in Hs' by done.
           exists sf'. split; [done|]. rewrite Hd'.
           unfold created_mode. simpl. by rewrite lookup_insert_ne.
    + rewrite stage_entries_skip in H by done.
      rewrite filter_cons_False in * by (by rewrite Hs). by eapply IH.
Qed.

End Staging.

Section Stager.

Implicit Types (f : FS) (de : DirEntry) (listing : list DirEntry).

Lemma stage_entries_none srcDir versionDir ver listing out f :
  Forall (λ de, selected de = false) listing →
  stage_entries srcDir versionDir ver listing out f = (f, inr out).
Proof.
  induction 1 as [|de rest Hde _ IH]; [done|].
  by rewrite stage_entries_skip.
Qed.

Lemma collect_ok srcDir versionDir ver f f' out :
  collectAndRenameZips srcDir versionDir ver f = (f', inr out) →
  ∃ p listing,
    nodes f !! srcDir = Some (NDir p listing)
    ∧ stage_entries srcDir versionDir ver listing None f = (f', inr out)
    ∧ elems out ≠ [].
Proof.
  unfold collectAndRenameZips, ReadDir. intros H.
  destruct (nodes f !! srcDir) as [[x|p listing]|]; try done.
  exists p, listing. split; [done|].
  destruct (stage_entries _ _ _ listing None f) as [f1 [err|out1]]; [done|].
  destruct (Nat.eqb_spec (length (elems out1)) 0) as [|Hlen]; [done|].
  simplify_eq. split; [done|]. by destruct (elems out).
Qed.

End Stager.

(** C8: a source directory without a matching file makes staging fail
    with the no-archives error, the file system left as it was; and
    staging never returns an empty list of staged files. *)
Theorem staging_without_archives_fails (srcDir versionDir ver : string) (f : FS) :
  (∀ p listing,
      nodes f !! srcDir = Some (NDir p listing) →
      Forall (λ de, selected de = false) listing →
      collectAndRenameZips srcDir versionDir ver f
      = (f, inl (ErrNoZipFiles srcDir)))
  ∧ (∀ f' out,
        collectAndRenameZips srcDir versionDir ver f = (f', inr out) →
        elems out ≠ []).
Proof.
  split.
  - intros p listing Hdir Hnone.
    unfold collectAndRenameZips, ReadDir. rewrite Hdir.
    by rewrite stage_entries_none.
  - intros f' out H. by destruct (collect_ok _ _ _ _ _ _ H) as (? & ? & ? & ? & ?).
Qed.

Lemma staging_without_archives_fails_witness :
  collectAndRenameZips "src" "downloads/0.0.1" "0.0.1" fs_no_archives
  = (fs_no_archives, inl (ErrNoZipFiles "src")).
Proof.
  apply (proj1 (staging_without_archives_fails "src" "downloads/0.0.1" "0.0.1"
                  fs_no_archives)
           493 [mkDirEntry "old.zip" true; mkDirEntry "notes.txt" false]).
  - reflexivity.
  - repeat constructor.
Defined.

(** C7, as the code has it: staging picks exactly the entries that are
    not directories and whose extension is [.zip] up to case, in listing
    order; the copy of a picked file [base ++ ext] is called
    [base-version.zip], with the extension in lowercase whatever the case
    of [ext]; every such copy exists afterwards, and where the copies do
    not overwrite one another or a source, each holds the bytes of its
    source, with the mode of the source less the umask when it is new. *)
Theorem staging_picks_archives_and_renames
    (srcDir versionDir ver : string) (f f' : FS) (out : slice string) :
  collectAndRenameZips srcDir versionDir ver f = (f', inr out) →
  ∃ p listing,
    nodes f !! srcDir = Some (NDir p listing)
    ∧ elems out = staged_name ver <$> filter (λ de, selected de = true) listing
    ∧ (∀ de, de ∈ listing → selected de = true →
         IsDir de = false
         ∧ ∃ base ext,
             Name de = base +:+ ext ∧ ext = Ext (Name de)
             ∧ EqualFold ext ".zip" = true
             ∧ staged_name ver de = base +:+ "-" +:+ ver +:+ ".zip"
             ∧ ∃ x, nodes f' !! Join [versionDir; staged_name ver de]
                    = Some (NFile x))
    ∧ (let J := copy_jobs srcDir versionDir ver listing in
       NoDup J.*2 → (∀ s d, s ∈ J.*1 → d ∈ J.*2 → s ≠ d) →
       ∀ s d, (s, d) ∈ J →
         ∃ sf, nodes f !! s = Some (NFile sf)
               ∧ nodes f' !! d
                 = Some (NFile (mkFile (data sf) (created_mode d (mode sf) f)))
               ∧ (nodes f !! d = None →
                  created_mode d (mode sf) f = Z.ldiff (mode sf) (umask f))).
Proof.
  intros H. destruct (collect_ok _ _ _ _ _ _ H) as (p & listing & Hdir & Hst & _).
  exists p, listing. split_and!; [done| | |].
  - by rewrite (stage_entries_names _ _ _ _ _ _ _ _ Hst).
  - intros de Hin Hsel. pose proof Hsel as [Hd He]%selected_true.
    split; [done|].
    exists (TrimSuffix (Name de) (Ext (Name de))), (Ext (Name de)).
    split_and!; [apply name_base_ext|done..|].
    by eapply (proj2 (stage_entries_files _ _ _ _ _ _ _ _ Hst)).
  - intros J Hnd Hdis s d Hin.
    destruct (stage_entries_contents _ _ _ _ _ _ _ _ Hst Hnd Hdis)
      as (_ & _ & _ & Hjobs).
    destruct (Hjobs _ _ Hin) as (sf & Hs & Hd). exists sf.
    split_and!; [done..|]. intros Hnone. unfold created_mode. by rewrite Hnone.
Qed.

Lemma staging_picks_archives_and_renames_witness :
  ∃ p listing,
    nodes fs_two !! "src" = Some (NDir p listing)
    ∧ elems (Some ["client-1.2.3.zip"; "server-1.2.3.zip"])
      = staged_name "1.2.3" <$> filter (λ de, selected de = true) listing.
Proof.
  destruct (staging_picks_archives_and_renames "src" "downloads/1.2.3" "1.2.3"
              fs_two
              (collectAndRenameZips "src" "downloads/1.2.3" "1.2.3" fs_two).1
              (Some ["client-1.2.3.zip"; "server-1.2.3.zip"]))
    as (p & listing & H1 & H2 & _).
  - vm_compute. reflexivity.
  - exists p, listing. split; assumption.
Defined.

(** C7, as the specification words it, fails on a file whose extension
    is not in lowercase: [A.ZIP] is staged as [A-1.0.0.zip], not as
    [A-1.0.0.ZIP]. *)
Lemma staging_does_not_keep_extension_case :
  (collectAndRenameZips "src" "downloads/1.0.0" "1.0.0" fs_capitals).2
  = inr (Some ["A-1.0.0.zip"])
  ∧ spec_staged_name "1.0.0" "A.ZIP" = "A-1.0.0.ZIP"
  ∧ (collectAndRenameZips "src" "downloads/1.0.0" "1.0.0" fs_capitals).2
    ≠ inr (Some [spec_staged_name "1.0.0" "A.ZIP"]).
Proof.
  split_and!; [by vm_compute..|]. vm_compute. discriminate.
Qed.

(** ** Copies and what a failed staging leaves behind *)

Section Copies.

Implicit Types (f : FS) (de : DirEntry) (listing : list DirEntry).

(** A copy changes no path but its destination, however it ends. *)
Lemma copyFile_frame src dst f q :
  q ≠ dst →
  nodes (copyFile src dst f).1 !! q = nodes f !! q
  ∧ umask (copyFile src dst f).1 = umask f
  ∧ denied (copyFile src dst f).1 = denied f.
Proof.
  intros Hq. unfold copyFile.
  destruct (nodes f !! src) as [n|]; [|done].
  destruct (OpenFile_create_trunc dst _ f) as [e|f1] eqn:Hopen; [done|].
  apply OpenFile_create_trunc_ok in Hopen as [_ ->].
  destruct (nodes (with_nodes f _) !! src) as [[sf|p l]|]; simpl;
    rewrite ?lookup_alter_ne by done; by rewrite lookup_insert_ne.
Qed.

Lemma stage_entries_frame srcDir versionDir ver listing out f q :
  q ∉ (copy_jobs srcDir versionDir ver listing).*2 →
  nodes (stage_entries srcDir versionDir ver listing out f).1 !! q = nodes f !! q.
Proof.
  revert out f. induction listing as [|de rest IH]; intros out f Hq; [done|].
  unfold copy_jobs in *. destruct (selected de) eqn:Hs.
  - rewrite stage_entries_pick by done.
    rewrite filter_cons_True, !fmap_cons in Hq by done.
    apply not_elem_of_cons in Hq as [Hq1 Hq2]. cbn [snd] in Hq1.
    pose proof (copyFile_frame (Join [srcDir; Name de])
                  (Join [versionDir; staged_name ver de]) f q Hq1) as (Hc & _).
    destruct (copyFile _ _ f) as [f1 [err|]]; [done|].
    rewrite IH by done. done.
  - rewrite stage_entries_skip by done.
    rewrite filter_cons_False in Hq by (by rewrite Hs). by apply IH.
Qed.

(** A staging loop that fails has staged the entries in front of one
    selected entry, and failed in the copy of that one. *)
Lemma stage_entries_fails srcDir versionDir ver listing out f f' err :
  stage_entries srcDir versionDir ver listing out f = (f', inl err) →
  ∃ l1 de l2 f1 out1,
    listing = l1 ++ de :: l2
    ∧ selected de = true
    ∧ stage_entries srcDir versionDir ver l1 out f = (f1, inr out1)
    ∧ copyFile (Join [srcDir; Name de])
        (Join [versionDir; staged_name ver de]) f1 = (f', Some err).
Proof.
  revert out f. induction listing as [|de rest IH]; intros out f H; [done|].
  destruct (selected de) eqn:Hs.
  - rewrite stage_entries_pick in H by done.
    destruct (copyFile _ _ f) as [f1 [e|]] eqn:Hc.
    + simplify_eq. exists [], de, rest, f, out. done.
    + destruct (IH _ _ H) as (l1 & de' & l2 & f2 & out2 & -> & Hs' & Hst & Hcp).
      exists (de :: l1), de', l2, f2, out2. split_and!; [done..| |done].
      rewrite stage_entries_pick by done. by rewrite Hc.
  - rewrite stage_entries_skip in H by done.
    destruct (IH _ _ H) as (l1 & de' & l2 & f2 & out2 & -> & Hs' & Hst & Hcp).
    exists (de :: l1), de', l2, f2, out2. split_and!; [done..| |done].
    by rewrite stage_entries_skip.
Qed.

End Copies.

(** X8: A copy that goes through, of a source to another path: the source is
    a file, the destination holds its bytes afterwards, with the mode it
    had when it was there already and the mode of the source less the
    umask when it was created, and every other path, the source among
    them, is as before. *)
Theorem copy_carries_bytes_and_mode (src dst : string) (f f' : FS) :
  copyFile src dst f = (f', None) → src ≠ dst →
  ∃ sf,
    nodes f !! src = Some (NFile sf)
    ∧ nodes f' !! dst
      = Some (NFile (mkFile (data sf)
                       (match nodes f !! dst with
                        | Some (NFile df) => mode df
                        | _ => Z.ldiff (mode sf) (umask f)
                        end)))
    ∧ (∀ q, q ≠ dst → nodes f' !! q = nodes f !! q).
Proof.
  intros H Hne. destruct (copyFile_ok _ _ _ _ H Hne) as (sf & Hsrc & ->).
  exists sf. split; [done|]. simpl. split.
  - by rewrite lookup_insert_eq.
  - intros q Hq. by rewrite lookup_insert_ne.
Qed.

Lemma copy_carries_bytes_and_mode_witness :
  nodes (copyFile "src/server.Zip" "out/server-1.0.0.zip" fs_two).1
    !! "out/server-1.0.0.zip"
  = Some (NFile (mkFile "PK-server" 384)).
Proof.
  destruct (copy_carries_bytes_and_mode "src/server.Zip" "out/server-1.0.0.zip"
              fs_two (copyFile "src/server.Zip" "out/server-1.0.0.zip" fs_two).1)
    as (sf & Hs & Hd & _).
  - vm_compute. reflexivity.
  - discriminate.
  - rewrite Hd. vm_compute in Hs. injection Hs as <-. reflexivity.
Defined.

(** X9: A copy whose source is a directory fails after the destination was
    opened, and leaves it behind empty: a destination file that was there
    has lost its content, one that was not is there now without a byte,
    and the copy returns the error of reading a directory; every other
    path is as before. Nothing is cleaned up after a copy that fails. A
    copy without a source, or with a destination that cannot be opened,
    fails before anything is changed. *)
Theorem copy_of_directory_leaves_empty_destination
    (src dst : string) (f : FS) :
  (∀ p l, nodes f !! src = Some (NDir p l) → src ≠ dst → dst ∉ denied f →
          (∀ p' l', nodes f !! dst ≠ Some (NDir p' l')) →
          ∃ f', copyFile src dst f = (f', Some EISDIR)
                ∧ nodes f' !! dst
                  = Some (NFile (mkFile EmptyString (created_mode dst p f)))
                ∧ ∀ q, q ≠ dst → nodes f' !! q = nodes f !! q)
  ∧ (nodes f !! src = None → copyFile src dst f = (f, Some ENOENT))
  ∧ (is_Some (nodes f !! src) → dst ∈ denied f →
     copyFile src dst f = (f, Some EACCES))
  ∧ (∀ p' l', is_Some (nodes f !! src) → dst ∉ denied f →
              nodes f !! dst = Some (NDir p' l') →
              copyFile src dst f = (f, Some EISDIR)).
Proof.
  unfold copyFile, OpenFile_create_trunc. split_and!.
  - intros p l Hsrc Hne Hd Hdst. rewrite Hsrc.
    destruct (decide (dst ∈ denied f)); [done|].
    assert (∃ m, match nodes f !! dst with
                 | Some (NDir _ _) => inl EISDIR
                 | Some (NFile x) =>
                     inr (with_nodes f
                            (<[dst := NFile (mkFile EmptyString (mode x))]> (nodes f)))
                 | None =>
                     inr (with_nodes f
                            (<[dst := NFile (mkFile EmptyString
                                               (Z.ldiff p (umask f)))]> (nodes f)))
                 end
                 = inr (with_nodes f
                          (<[dst := NFile (mkFile EmptyString m)]> (nodes f)))
                ∧ m = created_mode dst p f) as (m & -> & ->).
    { unfold created_mode.
      destruct (nodes f !! dst) as [[x|p' l']|] eqn:E; [eauto| |eauto].
      by destruct (Hdst p' l'). }
    simpl. rewrite lookup_insert_ne by done. rewrite Hsrc.
    eexists. split; [reflexivity|]. simpl. split.
    + by rewrite lookup_insert_eq.
    + intros q Hq. by rewrite lookup_insert_ne.
  - by intros ->.
  - intros [n ->] Hd. by destruct (decide (dst ∈ denied f)).
  - intros p' l' [n ->] Hd Hdst. destruct (decide (dst ∈ denied f)); [done|].
    by rewrite Hdst.
Qed.

Lemma copy_of_directory_leaves_empty_destination_witness :
  nodes (copyFile "src" "src/client.zip" fs_two).1 !! "src/client.zip"
  = Some (NFile (mkFile EmptyString 420))
  ∧ content fs_two "src/client.zip" = "PK-client".
Proof.
  split; [|reflexivity].
  destruct (proj1 (copy_of_directory_leaves_empty_destination "src"
                     "src/client.zip" fs_two)
              493 [mkDirEntry "build" true; mkDirEntry "client.zip" false;
                   mkDirEntry "notes.txt" false; mkDirEntry "server.Zip" false])
    as (f' & H1 & H2 & _).
  - reflexivity.
  - discriminate.
  - apply not_elem_of_empty.
  - intros p' l'. vm_compute. discriminate.
  - rewrite H1. exact H2.
Defined.

(** X10: A file copied onto itself is emptied, and the copy reports no error:
    the destination is truncated before a byte of the source is read. *)
Theorem copy_onto_itself_empties_file (p : string) (x : File) (f : FS) :
  nodes f !! p = Some (NFile x) → p ∉ denied f →
  ∃ f',
    copyFile p p f = (f', None)
    ∧ nodes f' !! p = Some (NFile (mkFile EmptyString (mode x)))
    ∧ ∀ q, q ≠ p → nodes f' !! q = nodes f !! q.
Proof.
  intros Hp Hd. unfold copyFile, OpenFile_create_trunc. rewrite Hp.
  destruct (decide (p ∈ denied f)); [done|]. simpl.
  rewrite lookup_insert_eq. eexists. split; [reflexivity|].
  unfold write_data. simpl. rewrite alter_insert_eq. split.
  - by rewrite lookup_insert_eq.
  - intros q Hq. by rewrite lookup_insert_ne.
Qed.

Lemma copy_onto_itself_empties_file_witness :
  ∃ f', copyFile "src/client.zip" "src/client.zip" fs_two = (f', None)
        ∧ content f' "src/client.zip" = EmptyString.
Proof.
  destruct (copy_onto_itself_empties_file "src/client.zip"
              (mkFile "PK-client" 420) fs_two) as (f' & H1 & H2 & _).
  - reflexivity.
  - apply not_elem_of_empty.
  - exists f'. split; [exact H1|]. unfold content. by rewrite H2.
Defined.

(** X11: Staging changes no path but the destinations of its copies, whether
    it succeeds or fails; a source directory that cannot be listed makes
    it fail with nothing changed. *)
Theorem staging_touches_destinations_only
    (srcDir versionDir ver : string) (f : FS) :
  match nodes f !! srcDir with
  | Some (NDir _ listing) =>
      ∀ q, q ∉ (copy_jobs srcDir versionDir ver listing).*2 →
           nodes (collectAndRenameZips srcDir versionDir ver f).1 !! q
           = nodes f !! q
  | Some (NFile _) =>
      collectAndRenameZips srcDir versionDir ver f = (f, inl ENOTDIR)
  | None => collectAndRenameZips srcDir versionDir ver f = (f, inl ENOENT)
  end.
Proof.
  unfold collectAndRenameZips, ReadDir.
  destruct (nodes f !! srcDir) as [[x|p listing]|]; [done| |done].
  intros q Hq.
  pose proof (stage_entries_frame srcDir versionDir ver listing None f q Hq) as H.
  destruct (stage_entries _ _ _ listing None f) as [f1 [err|out]]; [done|].
  by destruct (Nat.eqb _ 0).
Qed.

(** X12: Staging stops at the first copy that fails and undoes nothing. A
    staging that fails for another reason than a source directory it
    cannot list or the lack of archives has copied the selected entries in
    front of one selected entry, failed in the copy of that one with the
    error it returns, and not looked at the entries behind it: the file
    system is the one that failed copy left. *)
Theorem staging_stops_at_first_failed_copy
    (srcDir versionDir ver : string) (p : Z) (listing : list DirEntry)
    (f f' : FS) (err : error) :
  nodes f !! srcDir = Some (NDir p listing) →
  collectAndRenameZips srcDir versionDir ver f = (f', inl err) →
  (f' = f ∧ err = ErrNoZipFiles srcDir
   ∧ Forall (λ de, selected de = false) listing)
  ∨ (∃ l1 de l2 f1 out1,
       listing = l1 ++ de :: l2
       ∧ selected de = true
       ∧ stage_entries srcDir versionDir ver l1 None f = (f1, inr out1)
       ∧ copyFile (Join [srcDir; Name de])
           (Join [versionDir; staged_name ver de]) f1 = (f', Some err)).
Proof.
  intros Hdir. unfold collectAndRenameZips, ReadDir. rewrite Hdir.
  destruct (stage_entries _ _ _ listing None f) as [f1 [e|out]] eqn:Hst.
  - intros [= <- <-]. right. by eapply stage_entries_fails.
  - destruct (Nat.eqb_spec (length (elems out)) 0) as [Hlen|]; [|done].
    intros [= <- <-]. left.
    pose proof (stage_entries_names _ _ _ _ _ _ _ _ Hst) as Hn.
    rewrite Hn in Hlen. cbn [elems app] in Hlen. rewrite length_fmap in Hlen.
    assert (Forall (λ de, selected de = false) listing) as Hall.
    { apply Forall_forall. intros de Hin.
      destruct (selected de) eqn:Hs; [|done]. exfalso.
      assert (de ∈ filter (λ de, selected de = true) listing) as Hf
        by (by apply list_elem_of_filter).
      destruct (filter _ listing); [by apply elem_of_nil in Hf|done]. }
    split_and!; [|done..].
    rewrite stage_entries_none in Hst by done. congruence.
Qed.

Lemma staging_stops_at_first_failed_copy_witness :
  ∃ f', collectAndRenameZips "src" "out" "1.0.0" fs_blocked
        = (f', inl EACCES)
        ∧ content f' "out/client-1.0.0.zip" = "PK-client"
        ∧ nodes f' !! "out/tools-1.0.0.zip" = None.
Proof.
  destruct (staging_stops_at_first_failed_copy "src" "out" "1.0.0" 493
              [mkDirEntry "client.zip" false; mkDirEntry "server.zip" false;
               mkDirEntry "tools.zip" false]
              fs_blocked
              (collectAndRenameZips "src" "out" "1.0.0" fs_blocked).1 EACCES)
    as [(_ & Herr & _)|_].
  - reflexivity.
  - vm_compute. reflexivity.
  - discriminate Herr.
  - eexists. split; [vm_compute; reflexivity|]. split; vm_compute; reflexivity.
Defined.

(** ** Checksums *)

Section Checksums.

Implicit Types (f : FS) (links : slice downloadInfo).

Lemma computeChecksum_file path f x :
  nodes f !! path = Some (NFile x) →
  computeChecksum path f = inr (EncodeToString (sha256.Sum256 (data x))).
Proof.
  intros H. unfold computeChecksum, ReadFile. by rewrite H.
Qed.

(** The links built for a list of staged files that all exist: one a
    file, in order, each with the digest of the bytes now at its path. *)
Lemma checksum_each_files versionDir files links f :
  (∀ file, file ∈ files →
     ∃ x, nodes f !! Join [versionDir; file] = Some (NFile x)) →
  ∃ links',
    checksum_each versionDir files links f = inr links'
    ∧ elems links'
      = elems links
        ++ ((λ file, mkDownloadInfo (Join [versionDir; file])
                       (EncodeToString
                          (sha256.Sum256 (content f (Join [versionDir; file])))))
              <$> files).
Proof.
  revert links. induction files as [|file rest IH]; intros links Hall.
  - exists links. by rewrite app_nil_r.
  - destruct (Hall file) as [x Hx]; [by left|].
    cbn [checksum_each]. rewrite (computeChecksum_file _ _ _ Hx).
    destruct (IH (append1 links
                    (mkDownloadInfo (Join [versionDir; file])
                       (EncodeToString (sha256.Sum256 (data x))))))
      as (links' & -> & Hl).
    { intros file' Hin. apply Hall. by right. }
    exists links'. split; [done|]. rewrite Hl.
    unfold append1, content. cbn [elems]. rewrite <- app_assoc, fmap_cons, Hx.
    reflexivity.
Qed.

(** Staging followed by the checksum loop of [main]: when the copies do
    not overwrite one another or a source, the loop succeeds and records
    for every picked source file, in listing order, the path of its copy
    and the hexadecimal SHA-256 digest of the bytes the source file had. *)
Lemma staged_checksums_are_source_digests
    srcDir versionDir ver f f' (files : slice string) :
  collectAndRenameZips srcDir versionDir ver f = (f', inr files) →
  ∃ p listing,
    nodes f !! srcDir = Some (NDir p listing)
    ∧ (let J := copy_jobs srcDir versionDir ver listing in
       NoDup J.*2 → (∀ s d, s ∈ J.*1 → d ∈ J.*2 → s ≠ d) →
       ∃ links,
         checksum_each versionDir (elems files) None f' = inr links
         ∧ elems links
           = (λ de, mkDownloadInfo (Join [versionDir; staged_name ver de])
                      (EncodeToString
                         (sha256.Sum256 (content f (Join [srcDir; Name de])))))
             <$> filter (λ de, selected de = true) listing).
Proof.
  intros H. destruct (collect_ok _ _ _ _ _ _ H) as (p & listing & Hdir & Hst & _).
  exists p, listing. split; [done|]. intros J Hnd Hdis.
  pose proof (stage_entries_names _ _ _ _ _ _ _ _ Hst) as Hnames.
  simpl in Hnames.
  destruct (stage_entries_contents _ _ _ _ _ _ _ _ Hst Hnd Hdis)
    as (_ & _ & _ & Hjobs).
  destruct (checksum_each_files versionDir (elems files) None f')
    as (links & Hl & Hel).
  { rewrite Hnames. intros file (de & -> & Hin)%list_elem_of_fmap.
    apply list_elem_of_filter in Hin as [Hsel Hin].
    by eapply (proj2 (stage_entries_files _ _ _ _ _ _ _ _ Hst)). }
  exists links. split; [done|]. rewrite Hel, Hnames. cbn [elems app].
  rewrite <- list_fmap_compose. apply Forall_fmap_ext_1, Forall_forall.
  intros de Hin. cbn [compose]. f_equal. f_equal. f_equal.
  destruct (Hjobs (Join [srcDir; Name de]) (Join [versionDir; staged_name ver de]))
    as (sf & Hs & Hd).
  { subst J. unfold copy_jobs. apply list_elem_of_fmap. by exists de. }
  unfold content. by rewrite Hs, Hd.
Qed.

(** C6 at two source files whose names differ in the case of the
    extension only: both are staged under one name, the second copy
    takes the place of the first, and both links carry the digest of the
    bytes of the second file; the artifact staged from [a.ZIP] is
    recorded with the digest of [a.zip]. *)
Theorem twin_archives_share_one_checksum :
  ∃ f',
    collectAndRenameZips "src" "downloads/1.0.0" "1.0.0" fs_twins
    = (f', inr (Some ["a-1.0.0.zip"; "a-1.0.0.zip"]))
    ∧ content fs_twins "src/a.ZIP" = "PK-X"
    ∧ content fs_twins "src/a.zip" = "PK-Y"
    ∧ checksum_each "downloads/1.0.0" ["a-1.0.0.zip"; "a-1.0.0.zip"] None f'
      = inr (Some [mkDownloadInfo "downloads/1.0.0/a-1.0.0.zip"
                     (EncodeToString (sha256.Sum256 "PK-Y"));
                   mkDownloadInfo "downloads/1.0.0/a-1.0.0.zip"
                     (EncodeToString (sha256.Sum256 "PK-Y"))])
    ∧ EncodeToString (sha256.Sum256 "PK-Y")
      ≠ EncodeToString (sha256.Sum256 "PK-X").
Proof.
  eexists. split_and!; [by vm_compute|done..| |].
  - vm_compute. reflexivity.
  - vm_compute. discriminate.
Qed.

End Checksums.

(** The digest is written in lowercase hexadecimal, two digits a byte. *)
Lemma EncodeToString_lowercase_hex (s : string) :
  string_forallb is_lower_hex (EncodeToString s) = true
  ∧ String.length (EncodeToString s) = (2 * String.length s)%nat.
Proof.
  induction s as [|c s [IH1 IH2]]; [done|]. cbn [EncodeToString]. split.
  - cbn [string_forallb]. rewrite IH1, !andb_true_r.
    assert (H : ∀ d, 0 <= d < 16 → is_lower_hex (hex_digit d) = true).
    { intros d Hd.
      assert (d = 0 ∨ d = 1 ∨ d = 2 ∨ d = 3 ∨ d = 4 ∨ d = 5 ∨ d = 6 ∨ d = 7
              ∨ d = 8 ∨ d = 9 ∨ d = 10 ∨ d = 11 ∨ d = 12 ∨ d = 13 ∨ d = 14
              ∨ d = 15) as Hcases by lia.
      repeat (destruct Hcases as [->|Hcases]; [reflexivity|]).
      by subst. }
    assert (0 <= code c < 256) as Hc.
    { unfold code. pose proof (N_ascii_bounded c). lia. }
    rewrite !H; [done|..].
    + apply Z.mod_pos_bound. lia.
    + split; [apply Z.div_pos; lia|apply Z.div_lt_upper_bound; lia].
  - simpl. rewrite IH2. lia.
Qed.

(** ** The size of a digest *)

Section Digest.

Implicit Types (h s ws : list Z) (f : FS).

Lemma round_length s kw :
  length s = 8%nat → length (sha256.round s kw) = 8%nat.
Proof.
  destruct s as [|a [|b [|c [|d [|e [|x [|g [|y [|z s]]]]]]]]]; done.
Qed.

Lemma rounds_length l s :
  length s = 8%nat → length (fold_left sha256.round l s) = 8%nat.
Proof.
  revert s. induction l as [|kw l IH]; intros s Hs; [done|].
  cbn [fold_left]. by apply IH, round_length.
Qed.

Lemma block_length h ws :
  length h = 8%nat → length (sha256.block h ws) = 8%nat.
Proof.
  intros Hh. unfold sha256.block.
  rewrite length_zip_with, rounds_length by done. lia.
Qed.

Lemma blocks_length n h ws :
  length h = 8%nat → length (sha256.blocks n h ws) = 8%nat.
Proof.
  revert h ws. induction n as [|n IH]; intros h ws Hh; [done|].
  cbn [sha256.blocks]. by apply IH, block_length.
Qed.

Lemma length_string_of_list (l : list ascii) :
  String.length (string_of_list_ascii l) = length l.
Proof. induction l as [|c l IH]; [done|]. simpl. by rewrite IH. Qed.

(** A digest has 32 bytes, whatever the message. *)
Lemma Sum256_length (msg : string) :
  String.length (sha256.Sum256 msg) = 32%nat.
Proof.
  unfold sha256.Sum256. rewrite length_string_of_list.
  pose proof (blocks_length
                (length (sha256.words (sha256.pad (sha256.bytes_of_string msg))) / 16)
                sha256.init
                (sha256.words (sha256.pad (sha256.bytes_of_string msg)))
                eq_refl) as H.
  destruct (sha256.blocks _ _ _)
    as [|a [|b [|c [|d [|e [|x [|g [|y [|z s]]]]]]]]]; done.
Qed.

End Digest.

(** X13: The checksum of a path. For a file it is the SHA-256 digest of its
    bytes written as 64 lowercase hexadecimal digits; for a path that is
    missing or a directory it is the error of reading it. *)
Theorem checksum_is_64_lowercase_hex_digits (path : string) (f : FS) :
  match nodes f !! path with
  | Some (NFile x) =>
      ∃ sum,
        computeChecksum path f = inr sum
        ∧ sum = EncodeToString (sha256.Sum256 (data x))
        ∧ String.length sum = 64%nat
        ∧ string_forallb is_lower_hex sum = true
  | Some (NDir _ _) => computeChecksum path f = inl EISDIR
  | None => computeChecksum path f = inl ENOENT
  end.
Proof.
  unfold computeChecksum, ReadFile.
  destruct (nodes f !! path) as [[x|p l]|]; [|done..].
  eexists. split; [reflexivity|]. split; [reflexivity|].
  destruct (EncodeToString_lowercase_hex (sha256.Sum256 (data x))) as [H1 H2].
  split; [|done]. by rewrite H2, Sum256_length.
Qed.

(** X14: Staging and the checksum loop of [main] together. When no two copies
    share a destination and no destination is a source, the loop succeeds
    on what staging returns and builds one link a selected archive, in
    listing order, with the path of the copy and the hexadecimal SHA-256
    digest of the bytes the source archive had before staging. *)
Theorem staged_links_carry_source_digests
    (srcDir versionDir ver : string) (p : Z) (listing : list DirEntry)
    (f f' : FS) (files : slice string) :
  nodes f !! srcDir = Some (NDir p listing) →
  NoDup (copy_jobs srcDir versionDir ver listing).*2 →
  (∀ s d, s ∈ (copy_jobs srcDir versionDir ver listing).*1 →
          d ∈ (copy_jobs srcDir versionDir ver listing).*2 → s ≠ d) →
  collectAndRenameZips srcDir versionDir ver f = (f', inr files) →
  ∃ links,
    checksum_each versionDir (elems files) None f' = inr links
    ∧ elems links
      = (λ de, mkDownloadInfo (Join [versionDir; staged_name ver de])
                 (EncodeToString
                    (sha256.Sum256 (content f (Join [srcDir; Name de])))))
        <$> filter (λ de, selected de = true) listing.
Proof.
  intros Hdir Hnd Hdis H.
  destruct (staged_checksums_are_source_digests _ _ _ _ _ _ H)
    as (p' & listing' & Hdir' & Hres).
  rewrite Hdir in Hdir'. injection Hdir' as <- <-. by apply Hres.
Qed.

Lemma staged_links_carry_source_digests_witness :
  ∃ links,
    checksum_each "out" ["client-1.0.0.zip"; "server-1.0.0.zip"] None
      (collectAndRenameZips "src" "out" "1.0.0" fs_two).1
    = inr links
    ∧ elems links
      = [mkDownloadInfo "out/client-1.0.0.zip"
           (EncodeToString (sha256.Sum256 "PK-client"));
         mkDownloadInfo "out/server-1.0.0.zip"
           (EncodeToString (sha256.Sum256 "PK-server"))].
Proof.
  destruct (staged_links_carry_source_digests "src" "out" "1.0.0" 493
              [mkDirEntry "build" true; mkDirEntry "client.zip" false;
               mkDirEntry "notes.txt" false; mkDirEntry "server.Zip" false]
              fs_two (collectAndRenameZips "src" "out" "1.0.0" fs_two).1
              (Some ["client-1.0.0.zip"; "server-1.0.0.zip"]))
    as (links & H1 & H2).
  - reflexivity.
  - apply (bool_decide_unpack _). vm_compute. exact I.
  - intros s d Hs Hd.
    change ((copy_jobs "src" "out" "1.0.0"
               [mkDirEntry "build" true; mkDirEntry "client.zip" false;
                mkDirEntry "notes.txt" false; mkDirEntry "server.Zip" false]).*1)
      with ["src/client.zip"; "src/server.Zip"] in Hs.
    change ((copy_jobs "src" "out" "1.0.0"
               [mkDirEntry "build" true; mkDirEntry "client.zip" false;
                mkDirEntry "notes.txt" false; mkDirEntry "server.Zip" false]).*2)
      with ["out/client-1.0.0.zip"; "out/server-1.0.0.zip"] in Hd.
    apply elem_of_cons in Hs as [->|Hs];
      [|apply elem_of_cons in Hs as [->|Hs]; [|by apply elem_of_nil in Hs]];
      (apply elem_of_cons in Hd as [->|Hd];
       [|apply elem_of_cons in Hd as [->|Hd]; [|by apply elem_of_nil in Hd]]);
      discriminate.
  - vm_compute. reflexivity.
  - exists links. split; [exact H1|]. rewrite H2. vm_compute. reflexivity.
Defined.

(** ** Reading back what the encoder wrote *)

Section Lexing.

Implicit Types (s rest tail : string) (c : ascii).

(** One ASCII byte, as the encoder writes it, is read back as itself. *)
Lemma lex_string_ascii c tail :
  (code c <? 128) = true →
  json.lex_string
    ((if json.htmlSafe c then String c EmptyString else json.escape c) +:+ tail) 0
  = json.lex_string tail 0 ≫= λ '(t, r), Some (String c t, r).
Proof.
  intros H.
  destruct c as [[] [] [] [] [] [] [] []];
    first [discriminate H | reflexivity].
Qed.

Lemma lex_string_encode s rest :
  text s →
  json.lex_string (json.encode_bytes s 0 true +:+ String dquote rest) 0
  = Some (s, rest).
Proof.
  unfold text. induction s as [|c s IH]; intros H; [done|].
  cbn [string_forallb] in H. apply andb_true_iff in H as [Hc Hs].
  cbn [json.encode_bytes]. rewrite Hc, append_assoc, lex_string_ascii by done.
  by rewrite IH.
Qed.


Lemma lex_skip a rest : json.lex (a +:+ rest) (String.length a) = json.lex rest 0.
Proof.
  induction a as [|c a IH]; [done|].
  change (String c a +:+ rest) with (String c (a +:+ rest)).
  cbn [String.length json.lex]. apply IH.
Qed.

Lemma consumed_append a rest :
  json.consumed (a +:+ rest) rest = String.length a.
Proof. unfold json.consumed. rewrite length_append. lia. Qed.

Lemma lex_indent d rest : json.lex (json.indent d +:+ rest) 0 = json.lex rest 0.
Proof. induction d as [|d IH]; [done|]. cbn [json.indent]. exact IH. Qed.

Lemma lex_nl d rest : json.lex (json.nl d +:+ rest) 0 = json.lex rest 0.
Proof. unfold json.nl. apply lex_indent. Qed.

(** A quoted string is read back as one string token. *)
Lemma lex_quote s rest ts :
  text s → json.lex rest 0 = Some ts →
  json.lex (json.quote s +:+ rest) 0 = Some (json.TStr s :: ts).
Proof.
  intros Hs Hr. unfold json.quote.
  change (String dquote (json.encode_bytes s 0 true +:+ String dquote EmptyString)
          +:+ rest)
    with (String dquote
            ((json.encode_bytes s 0 true +:+ String dquote EmptyString) +:+ rest)).
  cbn [json.lex]. change (json.is_space dquote) with false.
  change (Ascii.eqb dquote "[") with false. change (Ascii.eqb dquote "]") with false.
  change (Ascii.eqb dquote "{") with false. change (Ascii.eqb dquote "}") with false.
  change (Ascii.eqb dquote ":") with false. change (Ascii.eqb dquote ",") with false.
  change (Ascii.eqb dquote dquote) with true. cbv iota.
  rewrite append_assoc.
  change (String dquote EmptyString +:+ rest) with (String dquote rest).
  rewrite lex_string_encode by done. simpl.
  rewrite <- (append_assoc _ (String dquote EmptyString) rest).
  rewrite consumed_append, lex_skip, Hr. done.
Qed.


Lemma ends_number_head rest :
  ends_number rest →
  match rest with
  | String c _ => is_digit c = false
  | EmptyString => True
  end
  ∧ after "." rest = None
  ∧ match rest with
    | String e _ => Ascii.eqb e "e" || Ascii.eqb e "E" = false
    | EmptyString => True
    end.
Proof.
  destruct rest as [|c r]; [done|]. intros (Hd & Hdot & He & HE).
  split_and!; [done| |].
  - cbn [after]. by rewrite (proj2 (Ascii.eqb_neq _ _) Hdot).
  - by rewrite (proj2 (Ascii.eqb_neq _ _) He), (proj2 (Ascii.eqb_neq _ _) HE).
Qed.

(** The digits of a number, followed by something that ends a number,
    are read back as the integer part of a literal. *)
Lemma lex_number_digits c t rest :
  string_forallb is_digit (String c t) = true →
  (c = "0"%char → t = EmptyString) →
  ends_number rest →
  json.lex_number (String c t +:+ rest) = Some (String c t, rest)
  ∧ json.lex_number (String "-" (String c t) +:+ rest)
    = Some (String "-" (String c t), rest).
Proof.
  intros Hd Hz Hend.
  destruct (ends_number_head rest Hend) as (Hnd & Hdot & Hexp).
  pose proof Hd as Hc. cbn [string_forallb] in Hc.
  apply andb_true_iff in Hc as [Hc _].
  assert (match after "0" (String c t +:+ rest) with
          | Some r => Some ("0", r)
          | None => json.digits1 (String c t +:+ rest)
          end = Some (String c t, rest)) as Hint.
  { change (String c t +:+ rest) with (String c (t +:+ rest)) at 1.
    cbn [after]. destruct (Ascii.eqb_spec c "0") as [->|Hne].
    - by rewrite (Hz eq_refl).
    - unfold json.digits1. by rewrite span_digits_app. }
  assert (∀ sign,
            (let '(frac, s3) := (EmptyString, rest) in
             match s3 with
             | String e r =>
                 if Ascii.eqb e "e" || Ascii.eqb e "E"
                 then None else Some (sign +:+ String c t +:+ frac, s3)
             | EmptyString => Some (sign +:+ String c t +:+ frac, s3)
             end) = Some (sign +:+ String c t, rest)) as Htail.
  { intros sign. destruct rest as [|e r]; simpl; [by rewrite append_nil_r|].
    rewrite Hexp. by rewrite append_nil_r. }
  split.
  - unfold json.lex_number. rewrite leading_minus.
    change (String c t +:+ rest) with (String c (t +:+ rest)) at 1.
    cbn [after]. rewrite (digit_not_minus c Hc).
    change (String c (t +:+ rest)) with (String c t +:+ rest).
    cbv iota beta. rewrite leading_zero, Hint.
    cbn [mbind option_bind]. rewrite leading_dot, Hdot. simpl.
    destruct rest as [|e r]; simpl; [by rewrite append_nil_r|].
    rewrite Hexp. simpl. by rewrite append_nil_r.
  - unfold json.lex_number. rewrite leading_minus.
    change (String "-" (String c t) +:+ rest)
      with (String "-" (String c t +:+ rest)).
    cbn [after]. change (Ascii.eqb "-" "-") with true. cbv iota beta.
    rewrite leading_zero, Hint.
    cbn [mbind option_bind]. rewrite leading_dot, Hdot. simpl.
    destruct rest as [|e r]; simpl; [by rewrite append_nil_r|].
    rewrite Hexp. simpl. by rewrite append_nil_r.
Qed.

Lemma lex_number_start c s' :
  Ascii.eqb c "-" || is_digit c = true →
  json.lex (String c s') 0
  = json.lex_number (String c s')
    ≫= λ '(lit, r), (json.TNum lit ::.) <$> json.lex s' (json.consumed s' r).
Proof.
  intros H.
  destruct c as [[] [] [] [] [] [] [] []];
    first [discriminate H | reflexivity].
Qed.

(** A printed integer is read back as one number token. *)
Lemma lex_format_int z rest ts :
  - 2 ^ 63 <= z < 2 ^ 63 → ends_number rest → json.lex rest 0 = Some ts →
  json.lex (json.format_int z +:+ rest) 0
  = Some (json.TNum (json.format_int z) :: ts).
Proof.
  intros Hz Hend Hr. unfold json.format_int.
  destruct (Z.ltb_spec z 0) as [Hneg|Hpos].
  - destruct (dec_spec (- z)) as (c & t & -> & Hd & Hv & _ & Hnz); [lia|].
    destruct (lex_number_digits c t rest Hd) as [_ Hn]; [|done|].
    { intros ->. exfalso. apply Hnz; [lia|done]. }
    change ("-" +:+ String c t) with (String "-" (String c t)).
    change (String "-" (String c t) +:+ rest)
      with (String "-" (String c t +:+ rest)).
    rewrite lex_number_start by done.
    change (String "-" (String c t +:+ rest))
      with (String "-" (String c t) +:+ rest).
    rewrite Hn. cbn -[json.lex json.consumed String.append].
    rewrite consumed_append, lex_skip, Hr. done.
  - destruct (dec_spec z) as (c & t & -> & Hd & Hv & Hzero & Hnz); [lia|].
    destruct (lex_number_digits c t rest Hd) as [Hn _]; [|done|].
    { intros ->. destruct (Z.eq_dec z 0) as [->|Hne].
      - by injection (Hzero eq_refl).
      - exfalso. apply Hnz; [lia|done]. }
    pose proof Hd as Hc. cbn [string_forallb] in Hc.
    apply andb_true_iff in Hc as [Hc _].
    change (String c t +:+ rest) with (String c (t +:+ rest)).
    rewrite lex_number_start by (by rewrite Hc, orb_true_r).
    change (String c (t +:+ rest)) with (String c t +:+ rest).
    rewrite Hn. cbn -[json.lex json.consumed String.append].
    rewrite consumed_append, lex_skip, Hr. done.
Qed.

End Lexing.

Section ValueInduction.

Variable P : json.value → Prop.

Hypothesis HNull : P json.Null.
Hypothesis HBool : ∀ b, P (json.Bool b).
Hypothesis HNumber : ∀ lit, P (json.Number lit).
Hypothesis HStr : ∀ s, P (json.Str s).
Hypothesis HArray : ∀ vs, Forall P vs → P (json.Array vs).
Hypothesis HObject : ∀ ms, Forall (λ m, P m.2) ms → P (json.Object ms).

(** Induction on JSON values, with the property at hand for every
    element of an array and every member of an object. *)
Lemma value_ind' (v : json.value) : P v.
Proof.
  revert v. fix IH 1. intros [|b|lit|s|vs|ms].
  - exact HNull.
  - exact (HBool b).
  - exact (HNumber lit).
  - exact (HStr s).
  - apply HArray. induction vs as [|x xs IHxs].
    + exact (List.Forall_nil P).
    + exact (List.Forall_cons P x xs (IH x) IHxs).
  - apply HObject. induction ms as [|m ms' IHms].
    + exact (List.Forall_nil _).
    + exact (List.Forall_cons _ m ms' (IH m.2) IHms).
Qed.

End ValueInduction.

Section Printing.

Implicit Types (s rest : string) (v : json.value) (ts : list json.token).

Lemma ends_number_comma rest : ends_number ("," +:+ rest).
Proof. by split_and!. Qed.

Lemma ends_number_nl d rest : ends_number (json.nl d +:+ rest).
Proof. by split_and!. Qed.

(** The elements of a printed array or object, read back. *)
Lemma lex_print_seq {A} (pr : A → string) (tk : A → list json.token)
    (o c : ascii) (O C : json.token) d (l : list A) rest ts :
  (∀ R T, json.lex R 0 = Some T → json.lex (String o R) 0 = Some (O :: T)) →
  (∀ R T, json.lex R 0 = Some T → json.lex (String c R) 0 = Some (C :: T)) →
  Forall (λ x, ∀ R T, ends_number R → json.lex R 0 = Some T →
                      json.lex (pr x +:+ R) 0 = Some (tk x ++ T)) l →
  json.lex rest 0 = Some ts →
  json.lex (json.print_seq pr (String o EmptyString) (String c EmptyString) d l
            +:+ rest) 0
  = Some (tokens_seq tk O C l ++ ts).
Proof.
  intros Ho Hc Hall Hr. unfold json.print_seq, tokens_seq.
  destruct Hall as [|x xs Hx Hxs].
  - change ((String o EmptyString +:+ String c EmptyString) +:+ rest)
      with (String o (String c rest)).
    by apply Ho, Hc.
  - assert (∀ R T, json.lex R 0 = Some T →
              json.lex
                (fold_right (λ y acc, "," +:+ json.nl (S d) +:+ pr y +:+ acc)
                   (json.nl d +:+ String c EmptyString) xs +:+ R) 0
              = Some (fold_right (λ y acc, json.TComma :: tk y ++ acc) [C] xs ++ T)
            ∧ ends_number
                (fold_right (λ y acc, "," +:+ json.nl (S d) +:+ pr y +:+ acc)
                   (json.nl d +:+ String c EmptyString) xs +:+ R)) as Hrest.
    { intros R T HR. induction Hxs as [|y ys Hy Hys IH]; cbn [fold_right].
      - split; [|rewrite append_assoc; apply ends_number_nl].
        rewrite append_assoc, lex_nl.
        change (String c EmptyString +:+ R) with (String c R). by apply Hc.
      - destruct IH as [IH1 IH2].
        split; [|rewrite append_assoc; apply ends_number_comma].
        rewrite !append_assoc.
        change ("," +:+ json.nl (S d) +:+ pr y
                +:+ fold_right (λ y acc, "," +:+ json.nl (S d) +:+ pr y +:+ acc)
                      (json.nl d +:+ String c EmptyString) ys +:+ R)
          with (String ","
                  (json.nl (S d) +:+ pr y
                   +:+ fold_right (λ y acc, "," +:+ json.nl (S d) +:+ pr y +:+ acc)
                         (json.nl d +:+ String c EmptyString) ys +:+ R)).
        cbn [json.lex]. change (json.is_space ",") with false.
        change (Ascii.eqb "," "[") with false. change (Ascii.eqb "," "]") with false.
        change (Ascii.eqb "," "{") with false. change (Ascii.eqb "," "}") with false.
        change (Ascii.eqb "," ":") with false. change (Ascii.eqb "," ",") with true.
        cbv iota. rewrite lex_nl, (Hy _ _ IH2 IH1).
        cbn [fmap option_fmap option_map app]. by rewrite app_assoc. }
    destruct (Hrest rest ts Hr) as [H1 H2].
    rewrite !append_assoc.
    change (String o EmptyString +:+ json.nl (S d) +:+ pr x
            +:+ fold_right (λ y acc, "," +:+ json.nl (S d) +:+ pr y +:+ acc)
                  (json.nl d +:+ String c EmptyString) xs +:+ rest)
      with (String o
              (json.nl (S d) +:+ pr x
               +:+ fold_right (λ y acc, "," +:+ json.nl (S d) +:+ pr y +:+ acc)
                     (json.nl d +:+ String c EmptyString) xs +:+ rest)).
    rewrite <- app_comm_cons, <- app_assoc. apply Ho.
    rewrite lex_nl. by apply Hx.
Qed.

Lemma wf_value_Array vs :
  wf_value (json.Array vs) ↔ Forall wf_value vs.
Proof.
  cbn [wf_value]. induction vs as [|x xs IH]; cbn [fold_right].
  - split; [constructor|done].
  - rewrite Forall_cons, IH. done.
Qed.

Lemma wf_value_Object ms :
  wf_value (json.Object ms) ↔ Forall (λ m, text m.1 ∧ wf_value m.2) ms.
Proof.
  cbn [wf_value]. induction ms as [|x xs IH]; cbn [fold_right].
  - split; [constructor|done].
  - rewrite Forall_cons, IH. done.
Qed.

(** What the encoder prints is read back as the tokens of the value. *)
Lemma lex_print v :
  wf_value v →
  ∀ d rest ts, ends_number rest → json.lex rest 0 = Some ts →
    json.lex (json.print d v +:+ rest) 0 = Some (tokens v ++ ts).
Proof.
  induction v as [|b|lit|s|vs IH|ms IH] using value_ind';
    intros Hwf d rest ts Hend Hr.
  - cbn. by rewrite Hr.
  - destruct b; cbn; by rewrite Hr.
  - destruct Hwf as (z & -> & Hz). by apply lex_format_int.
  - by apply lex_quote.
  - apply wf_value_Array in Hwf. cbn [json.print tokens].
    apply (lex_print_seq _ _ "[" "]"); try done.
    + intros R T HR. cbn. by rewrite HR.
    + intros R T HR. cbn. by rewrite HR.
    + rewrite Forall_forall in *. intros x Hx R T HendR HR.
      apply IH; [done|by apply Hwf|done..].
  - apply wf_value_Object in Hwf. cbn [json.print tokens].
    apply (lex_print_seq _ _ "{" "}"); try done.
    + intros R T HR. cbn. by rewrite HR.
    + intros R T HR. cbn. by rewrite HR.
    + rewrite Forall_forall in *. intros m Hm R T HendR HR.
      destruct (Hwf m Hm) as [Hk Hv].
      rewrite !append_assoc.
      rewrite (lex_quote _ _ (json.TColon :: tokens m.2 ++ T)); [done|done|].
      change (": " +:+ json.print (S d) m.2 +:+ R)
        with (String ":" (String " " (json.print (S d) m.2 +:+ R))).
      cbn. by rewrite (IH m Hm Hv (S d) R T).
Qed.

End Printing.

Section Parsing.

Implicit Types (v : json.value) (ts rest : list json.token).

Lemma tokens_head v : ∃ t ts, tokens v = t :: ts ∧ value_start t.
Proof.
  destruct v as [|[]|lit|s|[|x xs]|[|m ms]]; cbn;
    do 2 eexists; (split; [reflexivity|exact I]).
Qed.

Lemma parse_value_array f t ts :
  value_start t →
  json.parse_value (S f) (json.TLBrack :: t :: ts)
  = json.parse_value f (t :: ts) ≫= λ '(x, r1),
      json.parse_elements f r1 ≫= λ '(xs, r2), Some (json.Array (x :: xs), r2).
Proof. by destruct t. Qed.

Lemma parse_elements_tokens xs f rest :
  Forall (λ v, ∀ fuel rest, (length (tokens v) ≤ fuel)%nat →
                 json.parse_value fuel (tokens v ++ rest) = Some (v, rest)) xs →
  (length (fold_right (λ y acc, json.TComma :: tokens y ++ acc) [json.TRBrack] xs)
   ≤ f)%nat →
  json.parse_elements f
    (fold_right (λ y acc, json.TComma :: tokens y ++ acc) [json.TRBrack] xs ++ rest)
  = Some (xs, rest).
Proof.
  intros Hall. revert f. induction Hall as [|y ys Hy _ IH]; intros f Hf;
    cbn [fold_right] in *.
  - destruct f; [simpl in Hf; lia|]. done.
  - cbn [length] in Hf. rewrite length_app in Hf.
    destruct f as [|f]; [lia|]. cbn [app json.parse_elements].
    rewrite <- app_assoc, Hy by lia. cbn. rewrite IH by lia. done.
Qed.

Lemma parse_members_tokens (ms : list (string * json.value)) f rest :
  Forall (λ m, ∀ fuel rest, (length (tokens m.2) ≤ fuel)%nat →
                 json.parse_value fuel (tokens m.2 ++ rest) = Some (m.2, rest)) ms →
  (length (fold_right
             (λ m acc, json.TComma :: (json.TStr m.1 :: json.TColon :: tokens m.2) ++ acc)
             [json.TRBrace] ms) ≤ f)%nat →
  json.parse_members f
    (fold_right
       (λ m acc, json.TComma :: (json.TStr m.1 :: json.TColon :: tokens m.2) ++ acc)
       [json.TRBrace] ms ++ rest)
  = Some (ms, rest).
Proof.
  intros Hall. revert f. induction Hall as [|[k y] ys Hy _ IH]; intros f Hf;
    cbn [fold_right] in *.
  - destruct f; [simpl in Hf; lia|]. done.
  - cbn [length fst snd] in Hf. rewrite length_app in Hf. cbn [length] in Hf.
    cbn [fst snd] in Hy.
    destruct f as [|f]; [lia|]. cbn [app json.parse_members fst snd].
    rewrite <- app_assoc, Hy by lia. cbn. rewrite IH by lia. done.
Qed.

(** The parser returns the value whose tokens it is given. *)
Lemma parse_value_tokens v :
  ∀ fuel rest, (length (tokens v) ≤ fuel)%nat →
    json.parse_value fuel (tokens v ++ rest) = Some (v, rest).
Proof.
  induction v as [|b|lit|s|vs IH|ms IH] using value_ind'; intros fuel rest Hf.
  - destruct fuel; [simpl in Hf; lia|]. done.
  - destruct fuel; [destruct b; simpl in Hf; lia|]. by destruct b.
  - destruct fuel; [simpl in Hf; lia|]. done.
  - destruct fuel; [simpl in Hf; lia|]. done.
  - cbn [tokens] in *. unfold tokens_seq in *.
    destruct IH as [|x xs Hx Hxs].
    + destruct fuel; [simpl in Hf; lia|]. done.
    + cbn [length] in Hf. rewrite length_app in Hf.
      destruct fuel as [|f]; [lia|]. cbn [app]. rewrite <- app_assoc.
      destruct (tokens_head x) as (t & ts & Ht & Hstart).
      pose proof (Hx f (fold_right (λ y acc, json.TComma :: tokens y ++ acc)
                          [json.TRBrack] xs ++ rest)) as Hpx.
      rewrite Ht in *. cbn [app] in *. rewrite parse_value_array by done.
      rewrite Hpx by lia. cbn.
      rewrite parse_elements_tokens by first [done|lia]. done.
  - cbn [tokens] in *. unfold tokens_seq in *.
    destruct IH as [|[k x] xs Hx Hxs].
    + destruct fuel; [simpl in Hf; lia|]. done.
    + cbn [length fst snd] in Hf. rewrite length_app in Hf. cbn [length] in Hf.
      destruct fuel as [|f]; [lia|]. cbn [app fst snd json.parse_value].
      rewrite <- app_assoc. cbn [fst snd] in Hx. rewrite Hx by lia. cbn.
      rewrite parse_members_tokens by first [done|lia]. done.
Qed.

(** Reading what was printed gives the value back. *)
Lemma parse_print v : wf_value v → json.parse (json.print 0 v) = Some v.
Proof.
  intros Hwf. unfold json.parse.
  rewrite <- (append_nil_r (json.print 0 v)).
  rewrite (lex_print v Hwf 0 EmptyString []) by done.
  cbn [mbind option_bind]. rewrite app_nil_r.
  rewrite <- (app_nil_r (tokens v)) at 2.
  rewrite parse_value_tokens by lia. done.
Qed.

End Parsing.

Section Decoding.

Lemma decode_elements_of {A} (rd : A → json.value → option A)
    (enc : A → json.value) (zero : A) (l cur : list A) :
  (∀ c x, x ∈ l → rd c (enc x) = Some x) →
  json.decode_elements rd zero cur (enc <$> l) = Some l.
Proof.
  revert cur. induction l as [|x l IH]; intros cur H; [done|].
  rewrite fmap_cons. cbn [json.decode_elements].
  rewrite H by (by left). cbn. rewrite IH; [done|].
  intros c y Hy. apply H. by right.
Qed.

Lemma decode_slice_of {A} (rd : A → json.value → option A)
    (enc : A → json.value) (zero : A) (s cur : slice A) :
  (∀ c x, x ∈ elems s → rd c (enc x) = Some x) →
  json.decode_slice rd zero cur (json.of_slice enc s) = Some s.
Proof.
  intros H. destruct s as [l|]; [|done]. cbn [json.of_slice json.decode_slice].
  by rewrite decode_elements_of.
Qed.

Lemma decode_downloadInfo_of cur i :
  json.decode_downloadInfo cur (json.of_downloadInfo i) = Some i.
Proof. by destruct i. Qed.

Lemma decode_Entry_of cur e :
  - 2 ^ 63 <= Date e < 2 ^ 63 →
  json.decode_Entry cur (json.of_Entry e) = Some e.
Proof.
  intros Hd. destruct e as [v d l]. cbn [Date] in Hd.
  unfold json.of_Entry, json.decode_Entry. cbn [Version Date Links].
  cbn [json.decode_entry_members].
  change (json.key_is "version" "version") with true. cbv iota.
  cbn [json.decode_string mbind option_bind Version Date Links].
  change (json.key_is "utc-unixnano" "version") with false.
  change (json.key_is "utc-unixnano" "utc-unixnano") with true. cbv iota.
  cbn [json.decode_int64]. rewrite ParseInt64_format_int by done.
  cbn [mbind option_bind Version Date Links].
  change (json.key_is "links" "version") with false.
  change (json.key_is "links" "utc-unixnano") with false.
  change (json.key_is "links" "links") with true. cbv iota.
  rewrite decode_slice_of; [done|].
  intros c x _. apply decode_downloadInfo_of.
Qed.

Lemma wf_value_of_slice {A} (enc : A → json.value) (s : slice A) :
  Forall (λ x, wf_value (enc x)) (elems s) → wf_value (json.of_slice enc s).
Proof.
  destruct s as [l|]; [|done]. cbn [elems json.of_slice]. intros H.
  apply wf_value_Array. by apply Forall_fmap.
Qed.

Lemma wf_value_of_Entry e : valid_entry e → wf_value (json.of_Entry e).
Proof.
  intros (Hv & Hd & Hl). unfold json.of_Entry. apply wf_value_Object.
  repeat constructor; try done.
  - cbn. eauto.
  - cbn [snd]. apply wf_value_of_slice.
    eapply Forall_impl; [exact Hl|]. intros i [Hi1 Hi2].
    unfold json.of_downloadInfo. apply wf_value_Object.
    by repeat constructor.
Qed.

(** Decoding what was encoded gives the manifest back. *)
Lemma Unmarshal_MarshalIndent ents :
  valid_entries ents → json.Unmarshal (json.MarshalIndent ents) = inr ents.
Proof.
  intros Hv. unfold json.Unmarshal, json.MarshalIndent.
  rewrite parse_print.
  - rewrite decode_slice_of; [done|].
    intros c e He. apply decode_Entry_of.
    unfold valid_entries in Hv. rewrite Forall_forall in Hv.
    by destruct (Hv e He) as (_ & ? & _).
  - apply wf_value_of_slice. eapply Forall_impl; [exact Hv|].
    apply wf_value_of_Entry.
Qed.

End Decoding.

(** ** Manifest store *)

Section Manifest.

Implicit Types (f : FS) (ents : slice Entry) (path : string).

Lemma WriteFile_inr path d perm f f' :
  WriteFile path d perm f = inr f' →
  path ∉ denied f
  ∧ f' = with_nodes f
           (<[path := NFile (mkFile d (created_mode path perm f))]> (nodes f)).
Proof.
  unfold WriteFile.
  destruct (OpenFile_create_trunc path perm f) as [e|f1] eqn:Hopen; [done|].
  apply OpenFile_create_trunc_ok in Hopen as [Hd ->]. intros [= <-].
  split; [done|]. unfold write_data, with_nodes. simpl.
  by rewrite alter_insert_eq.
Qed.

Lemma WriteFile_inl path d perm f e :
  WriteFile path d perm f = inl e →
  (path ∈ denied f ∧ e = EACCES)
  ∨ (∃ p l, nodes f !! path = Some (NDir p l) ∧ e = EISDIR).
Proof.
  unfold WriteFile, OpenFile_create_trunc.
  destruct (decide (path ∈ denied f)); [intros [= <-]; by left|].
  destruct (nodes f !! path) as [[df|p l]|]; try done.
  intros [= <-]. right. eauto.
Qed.

Lemma ReadFile_written path d m f :
  ReadFile path (with_nodes f (<[path := NFile (mkFile d m)]> (nodes f))) = inr d.
Proof. unfold ReadFile. simpl. by rewrite lookup_insert_eq. Qed.

Lemma writeEntries_ok path ents f f' :
  writeEntries path ents f = (f', None) →
  path ∉ denied f
  ∧ f' = with_nodes f
           (<[path := NFile (mkFile (json.MarshalIndent ents)
                               (created_mode path 420 f))]> (nodes f)).
Proof.
  unfold writeEntries.
  destruct (WriteFile path _ 420 f) as [e|f1] eqn:Hw; [done|].
  intros [= <-]. by apply WriteFile_inr.
Qed.

Lemma readEntries_file path d m f :
  nodes f !! path = Some (NFile (mkFile d m)) →
  readEntries path f
  = (f, match json.Unmarshal d with
        | inl err => inl (ErrJSON err)
        | inr ents => inr ents
        end).
Proof.
  intros H. unfold readEntries, ReadFile. rewrite H. simpl.
  by destruct (json.Unmarshal d).
Qed.

End Manifest.

(** X1: A save that goes through replaces the whole manifest: the content
    of the file afterwards is the encoding of the entries and nothing
    else, a file that was there keeps its mode and a new one gets 0644
    less the umask, and no other path changes. A save whose file cannot
    be opened, because the path is refused or is a directory, returns the
    error of opening it and changes nothing. *)
Theorem successful_save_replaces_whole_manifest
    (path : string) (ents : slice Entry) (f : FS) :
  (∀ f', writeEntries path ents f = (f', None) →
         path ∉ denied f
         ∧ nodes f' !! path
           = Some (NFile (mkFile (json.MarshalIndent ents)
                            (created_mode path 420 f)))
         ∧ (∀ q, q ≠ path → nodes f' !! q = nodes f !! q)
         ∧ umask f' = umask f ∧ denied f' = denied f)
  ∧ (path ∈ denied f → writeEntries path ents f = (f, Some EACCES))
  ∧ (∀ p l, path ∉ denied f → nodes f !! path = Some (NDir p l) →
            writeEntries path ents f = (f, Some EISDIR)).
Proof.
  split_and!.
  - intros f' H. apply writeEntries_ok in H as [Hd ->]. simpl.
    split_and!; [done| |  |done|done].
    + by rewrite lookup_insert_eq.
    + intros q Hq. by rewrite lookup_insert_ne.
  - intros Hd. unfold writeEntries, WriteFile, OpenFile_create_trunc.
    by destruct (decide (path ∈ denied f)).
  - intros p l Hd Hp. unfold writeEntries, WriteFile, OpenFile_create_trunc.
    destruct (decide (path ∈ denied f)); [done|]. by rewrite Hp.
Qed.

Lemma successful_save_replaces_whole_manifest_witness :
  content (writeEntries "relayClient.json" manifest_saved fs_corrupt).1
    "relayClient.json"
  = json.MarshalIndent manifest_saved
  ∧ content fs_corrupt "relayClient.json" = "[{".
Proof.
  split; [|reflexivity].
  destruct (proj1 (successful_save_replaces_whole_manifest "relayClient.json"
                     manifest_saved fs_corrupt)
              (writeEntries "relayClient.json" manifest_saved fs_corrupt).1)
    as (_ & H & _).
  - vm_compute. reflexivity.
  - unfold content. by rewrite H.
Defined.

(** X2: Loading what was saved gives the entries back, for manifests whose
    strings are ASCII text and whose dates fit 64 bits; loading does not
    change the file. A nil list of links comes back nil and an empty one
    empty. *)
Theorem load_after_save_returns_entries
    (path : string) (ents : slice Entry) (f f' : FS) :
  valid_entries ents →
  writeEntries path ents f = (f', None) →
  readEntries path f' = (f', inr ents).
Proof.
  intros Hv [_ ->]%writeEntries_ok.
  erewrite readEntries_file; [|simpl; apply lookup_insert_eq].
  by rewrite Unmarshal_MarshalIndent.
Qed.

Lemma load_after_save_returns_entries_witness :
  readEntries "relayClient.json"
    (writeEntries "relayClient.json" manifest_saved fs_release).1
  = ((writeEntries "relayClient.json" manifest_saved fs_release).1,
     inr manifest_saved).
Proof.
  apply (load_after_save_returns_entries "relayClient.json" manifest_saved fs_release
           (writeEntries "relayClient.json" manifest_saved fs_release).1).
  - unfold valid_entries, manifest_saved, elems.
    repeat (apply List.Forall_cons || apply List.Forall_nil);
      (split; [reflexivity|split; [cbn [Date]; lia|]]); cbn [Links elems];
      repeat (apply List.Forall_cons || apply List.Forall_nil); split; reflexivity.
  - vm_compute. reflexivity.
Defined.

(** X3: Loading a manifest that is not there. When the file can be created,
    loading writes the empty manifest, the two bytes of an empty array,
    changes no other path and returns an empty list that is not nil;
    loading once more finds that file and returns the same. When the file
    cannot be created, loading returns that error and changes nothing. *)
Theorem load_creates_missing_manifest (path : string) (f : FS) :
  nodes f !! path = None →
  if decide (path ∈ denied f) then readEntries path f = (f, inl EACCES)
  else
    ∃ f', readEntries path f = (f', inr (Some []))
          ∧ nodes f' !! path = Some (NFile (mkFile "[]" (Z.ldiff 420 (umask f))))
          ∧ (∀ q, q ≠ path → nodes f' !! q = nodes f !! q)
          ∧ readEntries path f' = (f', inr (Some [])).
Proof.
  intros Hno.
  assert (readEntries path f
          = match writeEntries path (Some []) f with
            | (f', Some err) => (f', inl err)
            | (f', None) => (f', inr (Some []))
            end) as ->.
  { unfold readEntries, ReadFile. by rewrite Hno. }
  unfold writeEntries, WriteFile, OpenFile_create_trunc. rewrite Hno.
  destruct (decide (path ∈ denied f)) as [Hd|Hd]; [done|].
  eexists. split; [reflexivity|]. unfold write_data, with_nodes. simpl.
  rewrite alter_insert_eq. split_and!.
  - by rewrite lookup_insert_eq.
  - intros q Hq. by rewrite lookup_insert_ne.
  - erewrite readEntries_file; [|simpl; apply lookup_insert_eq]. done.
Qed.

Lemma load_creates_missing_manifest_witness :
  ∃ f', readEntries "relayClient.json" fs_release = (f', inr (Some []))
        ∧ nodes f' !! "relayClient.json" = Some (NFile (mkFile "[]" 420)).
Proof.
  pose proof (load_creates_missing_manifest "relayClient.json" fs_release) as H.
  destruct (decide ("relayClient.json" ∈ denied fs_release)) as [Hd|Hd].
  - exfalso. revert Hd. apply not_elem_of_empty.
  - destruct H as (f' & H1 & H2 & _); [reflexivity|].
    exists f'. split; [exact H1|exact H2].
Defined.

(** X4: Loading never changes a path that exists: a manifest that parses is
    returned as decoded, one that does not parse gives the JSON error,
    and a directory at the path gives the error of reading it; in each
    case the file system is as before. *)
Theorem load_leaves_existing_manifest (path : string) (f : FS) (n : Node) :
  nodes f !! path = Some n →
  readEntries path f
  = (f, match n with
        | NDir _ _ => inl EISDIR
        | NFile x =>
            match json.Unmarshal (data x) with
            | inl err => inl (ErrJSON err)
            | inr ents => inr ents
            end
        end).
Proof.
  intros H. destruct n as [[d m]|p l].
  - exact (readEntries_file path d m f H).
  - unfold readEntries, ReadFile. by rewrite H.
Qed.

Lemma load_leaves_existing_manifest_witness :
  readEntries "relayClient.json" fs_corrupt
  = (fs_corrupt, inl (ErrJSON json.SyntaxError)).
Proof.
  apply (load_leaves_existing_manifest "relayClient.json" fs_corrupt
           (NFile (mkFile "[{" 420))).
  reflexivity.
Defined.

(** The round trip needs its assumption on the strings: a version that is
    the single byte 255, which is not UTF-8, is written as the
    replacement character and comes back as its three bytes. *)
Example load_after_save_replaces_invalid_bytes :
  readEntries "relayClient.json"
    (writeEntries "relayClient.json"
       (Some [mkEntry (String (byte_of 255) EmptyString) 0 None]) fs_release).1
  = ((writeEntries "relayClient.json"
        (Some [mkEntry (String (byte_of 255) EmptyString) 0 None]) fs_release).1,
     inr (Some [mkEntry (String (byte_of 239)
                           (String (byte_of 191) (String (byte_of 189) EmptyString)))
                  0 None])).
Proof. vm_compute. reflexivity. Qed.

(** ** Orchestrator *)

Section Orchestrator.

Variable Quote : string → string.

Implicit Types (w : World) (fl : Flags).

Lemma pbind_Some {A B} (m : Proc A) (k : A → Proc B) w w' b :
  pbind m k w = (w', Some b) ↔
  ∃ w1 a, m w = (w1, Some a) ∧ k a w1 = (w', Some b).
Proof.
  unfold pbind. split.
  - destruct (m w) as [w1 [a|]]; [eauto|done].
  - intros (w1 & a & -> & H). done.
Qed.

Lemma lift_fs_frame {A} (m : FS → FS * A) w w' a :
  lift_fs m w = (w', a) →
  trace w' = trace w ∧ now w' = now w ∧ run w' = run w.
Proof.
  unfold lift_fs. destruct (m (fs w)). by intros [= <- _].
Qed.

Lemma okOrExit_fs_trace (m : FS → FS * option error) w w' u :
  okOrExit (lift_fs m) w = (w', Some u) →
  trace w' = trace w ∧ now w' = now w ∧ run w' = run w.
Proof.
  unfold okOrExit. destruct (lift_fs m w) as [w1 [e|]] eqn:H; [done|].
  intros [= <- _]. by eapply lift_fs_frame.
Qed.

Lemma orExit_fs_trace {A} (m : FS → FS * (error + A)) w w' a :
  orExit (lift_fs m) w = (w', Some a) →
  trace w' = trace w ∧ now w' = now w ∧ run w' = run w.
Proof.
  unfold orExit. destruct (lift_fs m w) as [w1 [e|x]] eqn:H; [done|].
  intros [= <- _]. by eapply lift_fs_frame.
Qed.

Lemma Run_trace argv w w' r :
  Run argv w = (w', r) → trace w' = trace w ++ [argv].
Proof.
  unfold Run. destruct (run w argv (fs w)). by intros [= <- _].
Qed.

Lemma RunBuildAll_trace version w w' :
  RunBuildAll version w = (w', None) →
  trace w' = trace w ++ [build_command version].
Proof.
  unfold RunBuildAll. destruct (negb _); [done|].
  destruct (Run _ w) as [w1 [e|]] eqn:H; [done|].
  intros [= <-]. by apply Run_trace in H.
Qed.

Lemma ensureRemoteDir_trace fl newVersion w w' r :
  ensureRemoteDir (hostPort fl) (user fl)
    (TrimRight (remoteDir fl) "/" +:+ "/" +:+ dlDir +:+ "/" +:+ newVersion) w
  = (w', r) →
  trace w' = trace w ++ [mkdir_command fl newVersion].
Proof.
  unfold ensureRemoteDir, mkdir_command.
  destruct (parseHostPort (hostPort fl)) as [host port].
  apply Run_trace.
Qed.

(** In dry mode [publish] runs the directory creation and nothing
    else. *)
Lemma publish_dry fl newVersion versionDir files w w' u :
  dryRun fl = true →
  publish Quote fl newVersion versionDir files w = (w', Some u) →
  trace w' = trace w ++ [mkdir_command fl newVersion].
Proof.
  intros Hdry. unfold publish. rewrite Hdry. simpl.
  intros (w1 & [] & H1 & H2)%pbind_Some.
  unfold pret in H2. assert (w1 = w') as -> by congruence.
  unfold okOrExit in H1.
  destruct (ensureRemoteDir _ _ _ w) as [w2 [e|]] eqn:He; [done|].
  assert (w2 = w') as -> by congruence. by eapply ensureRemoteDir_trace.
Qed.

End Orchestrator.

(** C2 on the code: a dry run that goes through has run two commands,
    the build and, on the remote host, the creation of the version
    directory. The remote step is not left out as a whole: only the
    transfers and the alias updates are. *)
Theorem dry_run_creates_remote_directory
    (Quote : string → string) (fl : Flags) (w w' : World) :
  dryRun fl = true →
  main Quote fl w = (w', 0) →
  ∃ newVersion,
    trace w' = trace w ++ [build_command newVersion; mkdir_command fl newVersion]
    ∧ filter (λ argv, is_remote argv = true) (drop (length (trace w)) (trace w'))
      = [mkdir_command fl newVersion].
Proof.
  intros Hdry Hmain. unfold main in Hmain.
  destruct (main_steps Quote fl w) as [w0 [u|]] eqn:Hsteps; [|done].
  destruct u. assert (w0 = w') as -> by congruence. clear Hmain.
  rename Hsteps into H. unfold main_steps in H.
  apply pbind_Some in H as (w1 & [] & H1 & H).
  apply pbind_Some in H as (w2 & entries & H2 & H).
  apply pbind_Some in H as (w3 & newVersion & H3 & H).
  apply pbind_Some in H as (w4 & [] & H4 & H).
  apply pbind_Some in H as (w5 & [] & H5 & H).
  apply pbind_Some in H as (w6 & files & H6 & H).
  apply pbind_Some in H as (w7 & links & H7 & H).
  apply pbind_Some in H as (w8 & [] & H8 & H).
  apply okOrExit_fs_trace in H1 as (T1 & _).
  apply orExit_fs_trace in H2 as (T2 & _).
  assert (w3 = w2) as ->.
  { unfold orExit, pure_step in H3. destruct (pickVersion _ _); by simplify_eq. }
  assert (trace w4 = trace w2 ++ [build_command newVersion]) as T4.
  { unfold okOrExit in H4.
    destruct (RunBuildAll newVersion w2) as [w4' [e|]] eqn:Hb; [done|].
    injection H4 as <-. by apply RunBuildAll_trace. }
  apply okOrExit_fs_trace in H5 as (T5 & _).
  apply orExit_fs_trace in H6 as (T6 & _).
  assert (w7 = w6) as ->.
  { unfold orExit in H7. destruct (checksum_each _ _ _ _); by simplify_eq. }
  apply okOrExit_fs_trace in H8 as (T8 & _).
  apply (publish_dry Quote) in H as T9; [|done].
  exists newVersion.
  assert (trace w' = trace w ++ [build_command newVersion; mkdir_command fl newVersion])
    as Ht.
  { rewrite T9, T8, T6, T5, T4, T2, T1, <- app_assoc. done. }
  split; [done|].
  rewrite Ht, drop_app_length.
  unfold mkdir_command. destruct (parseHostPort (hostPort fl)) as [host port].
  reflexivity.
Qed.

Lemma dry_run_creates_remote_directory_witness :
  ∃ newVersion,
    trace (main quote_plain flags_dry world_release).1
    = trace world_release
      ++ [build_command newVersion; mkdir_command flags_dry newVersion].
Proof.
  destruct (dry_run_creates_remote_directory quote_plain flags_dry world_release
              (main quote_plain flags_dry world_release).1)
    as (v & H & _).
  - reflexivity.
  - vm_compute. reflexivity.
  - exists v. exact H.
Defined.

(** The dry run on a build tree with one archive and no manifest: the
    version is 0.0.1, the process ends with status 0, and the commands it
    has run are the build and the remote [mkdir]. *)
Example dry_run_trace :
  (main quote_plain flags_dry world_release).2 = 0
  ∧ trace (main quote_plain flags_dry world_release).1
    = [["bash"; "../RelayClient/build/build-all.sh"; "0.0.1"];
       ["ssh"; "-p"; "2222"; "user@host.ext";
        "mkdir -p /home/user/www/public_html/downloads/0.0.1"]].
Proof. split; vm_compute; reflexivity. Qed.

(** ** Host and port *)

Section HostPort.

Implicit Types (s h p : string) (sep : ascii).

Lemma split_on_length sep s :
  length (split_on sep s) = S (count_byte sep s).
Proof.
  induction s as [|c s IH]; [done|]. cbn [split_on count_byte].
  destruct (Ascii.eqb c sep).
  - cbn [length]. by rewrite IH.
  - destruct (split_on sep s) as [|x xs]; [done|].
    cbn [length Nat.add] in *. done.
Qed.

Lemma split_on_one sep s p :
  split_on sep s = [p] → s = p ∧ count_byte sep p = 0%nat.
Proof.
  revert p. induction s as [|c s IH]; intros p H.
  - by injection H as <-.
  - cbn [split_on] in H. destruct (Ascii.eqb c sep) eqn:Hc.
    + pose proof (split_on_length sep s) as Hl.
      injection H as _ H. by rewrite H in Hl.
    + destruct (split_on sep s) as [|x xs] eqn:Hs.
      * pose proof (split_on_length sep s) as Hl. by rewrite Hs in Hl.
      * injection H as <- ->. destruct (IH x eq_refl) as [-> Hx].
        split; [done|]. cbn [count_byte]. by rewrite Hc.
Qed.

Lemma split_on_two sep s h p :
  split_on sep s = [h; p] →
  s = h +:+ String sep p ∧ count_byte sep h = 0%nat ∧ count_byte sep p = 0%nat.
Proof.
  revert h. induction s as [|c s IH]; intros h H; [done|].
  cbn [split_on] in H. destruct (Ascii.eqb_spec c sep) as [->|Hc].
  - injection H as <- H. by destruct (split_on_one _ _ _ H) as [-> Hp].
  - destruct (split_on sep s) as [|x xs] eqn:Hs; [done|].
    injection H as <- ->. destruct (IH x eq_refl) as (-> & Hx & Hp).
    split; [done|]. split; [|done]. cbn [count_byte].
    by rewrite (proj2 (Ascii.eqb_neq _ _) Hc).
Qed.

End HostPort.

(** X15: The host flag is cut at its colon when it has exactly one: what is in
    front is the host and what is behind is the port, neither with a
    colon in it. A flag with no colon, or with more than one as in an
    IPv6 address, is taken as the host as it stands, without a port. *)
Theorem host_flag_is_cut_at_its_only_colon (hp : string) :
  if Nat.eqb (count_byte ":" hp) 1 then
    ∃ h p, hp = h +:+ ":" +:+ p
           ∧ count_byte ":" h = 0%nat ∧ count_byte ":" p = 0%nat
           ∧ parseHostPort hp = (h, p)
  else parseHostPort hp = (hp, EmptyString).
Proof.
  pose proof (split_on_length ":" hp) as Hl. unfold parseHostPort.
  destruct (Nat.eqb_spec (count_byte ":" hp) 1) as [He|Hne].
  - rewrite He in Hl.
    destruct (split_on ":" hp) as [|h [|p [|x xs]]] eqn:Hs; try done.
    destruct (split_on_two _ _ _ _ Hs) as (-> & Hh & Hp). by exists h, p.
  - destruct (split_on ":" hp) as [|h [|p [|x xs]]] eqn:Hs; try done.
    cbn [length] in Hl. lia.
Qed.

(** ** Commands *)

Section Commands.

Variable Quote : string → string.

Implicit Types (w : World) (fl : Flags).

Lemma Run_inv argv w w' r :
  Run argv w = (w', r) →
  trace w' = trace w ++ [argv] ∧ now w' = now w ∧ run w' = run w
  ∧ fs w' = (run w argv (fs w)).1
  ∧ r = (if (run w argv (fs w)).2 then None else Some ErrExit).
Proof.
  unfold Run. destruct (run w argv (fs w)) as [f ok]. by intros [= <- <-].
Qed.

Lemma Run_ends_well argv w :
  (Run argv w).2 = if ends_well argv w then None else Some ErrExit.
Proof. unfold Run, ends_well. by destruct (run w argv (fs w)). Qed.

Lemma run_list_cons argv cmds w :
  run_list (argv :: cmds) w = run_list cmds (Run argv w).1.
Proof. done. Qed.

Lemma run_list_app c1 c2 w :
  run_list (c1 ++ c2) w = run_list c2 (run_list c1 w).
Proof. apply fold_left_app. Qed.

Lemma all_end_well_app c1 c2 w :
  all_end_well (c1 ++ c2) w
  = all_end_well c1 w && all_end_well c2 (run_list c1 w).
Proof.
  revert w. induction c1 as [|argv c1 IH]; intros w; [done|].
  cbn [app all_end_well]. by rewrite IH, run_list_cons, andb_assoc.
Qed.

Lemma run_list_inv cmds w :
  trace (run_list cmds w) = trace w ++ cmds
  ∧ now (run_list cmds w) = now w ∧ run (run_list cmds w) = run w.
Proof.
  revert w. induction cmds as [|argv cmds IH]; intros w.
  - cbn. by rewrite app_nil_r.
  - rewrite run_list_cons. destruct (IH (Run argv w).1) as (T & N & R).
    destruct (Run argv w) as [w1 r] eqn:Hrun.
    apply Run_inv in Hrun as (T1 & N1 & R1 & _). cbn [fst] in *.
    rewrite T, N, R, T1, <- app_assoc. done.
Qed.

(** Composition of runs that stop at the first failure. *)
Lemma stops_one argv w w' e :
  Run argv w = (w', e) →
  stops_at_first_failure [argv] w w' (bool_decide (e = None)).
Proof.
  intros H. exists [argv], []. split; [done|].
  split; [by rewrite run_list_cons, H|].
  pose proof (Run_ends_well argv w) as He. rewrite H in He. cbn [snd] in He.
  destruct (ends_well argv w) eqn:Hw; subst e.
  - rewrite bool_decide_eq_true_2 by done. cbn [all_end_well].
    by rewrite Hw.
  - rewrite bool_decide_eq_false_2 by done. by exists [], argv.
Qed.

Lemma stops_app_fail c1 c2 w w' :
  stops_at_first_failure c1 w w' false →
  stops_at_first_failure (c1 ++ c2) w w' false.
Proof.
  intros (ran & rest & -> & -> & Hf). exists ran, (rest ++ c2).
  by rewrite app_assoc.
Qed.

Lemma stops_app_ok c1 c2 w w1 w' ok :
  stops_at_first_failure c1 w w1 true →
  stops_at_first_failure c2 w1 w' ok →
  stops_at_first_failure (c1 ++ c2) w w' ok.
Proof.
  intros (ran1 & rest1 & -> & -> & -> & H1) (ran & rest & -> & -> & H2).
  rewrite app_nil_r. exists (ran1 ++ ran), rest.
  split; [by rewrite app_assoc|]. split; [by rewrite run_list_app|].
  destruct ok.
  - destruct H2 as [-> H2]. split; [done|].
    by rewrite all_end_well_app, H1, H2.
  - destruct H2 as (before & argv & -> & Hb & Hbad).
    exists (ran1 ++ before), argv. split; [by rewrite app_assoc|].
    split; [by rewrite all_end_well_app, H1, Hb|].
    by rewrite run_list_app.
Qed.

Lemma last_snoc_cons {A} (x y : A) l : last (x :: l) = Some y → l ≠ [] → last l = Some y.
Proof. by destruct l. Qed.

(** The transfers: one command a file, in order, up to and including
    the first that fails. *)
Lemma scp_each_spec host port user dir locals w w' r :
  scp_each host port user dir locals w = (w', r) →
  ∃ sent rest,
    locals = sent ++ rest
    ∧ trace w' = trace w
        ++ ((λ local, "scp" :: (if String.eqb port EmptyString then []
                                else ["-P"; port])
                         ++ [local; user +:+ "@" +:+ host +:+ ":" +:+ dir])
              <$> sent)
    ∧ now w' = now w ∧ run w' = run w
    ∧ (remote_keeps_files w → fs w' = fs w)
    ∧ match r with
      | None => rest = []
      | Some e => ∃ local, last sent = Some local ∧ e = ErrScpFailed local ErrExit
      end.
Proof.
  revert w. induction locals as [|local rest IH]; intros w H.
  - injection H as <- <-. exists [], [].
    split_and!; try done. cbn [fmap list_fmap]. by rewrite app_nil_r.
  - cbn [scp_each] in H.
    destruct (Run _ w) as [w1 [err|]] eqn:Hrun;
      apply Run_inv in Hrun as (Ht & Hn & Hr & Hf & He).
    + injection H as <- <-. exists [local], rest.
      split_and!; [done..| |].
      * intros Hk. rewrite Hf. by apply Hk.
      * exists local. split; [done|].
        destruct (run w _ (fs w)).2; by simplify_eq.
    + destruct (IH _ H) as (sent & rest' & -> & Ht' & Hn' & Hr' & Hf' & Hres).
      exists (local :: sent), rest'. split_and!; [done| |congruence..| |].
      * rewrite Ht', Ht, fmap_cons, <- app_assoc. done.
      * intros Hk. rewrite Hf', Hf; [by apply Hk|].
        unfold remote_keeps_files. by rewrite Hr.
      * destruct r as [e|]; [|done]. destruct Hres as (l & Hl & ->).
        exists l. split; [|done]. by destruct sent.
Qed.

Lemma symlink_each_spec host port user base ver files w w' r :
  symlink_each Quote host port user base ver files w = (w', r) →
  ∃ linked rest,
    files = linked ++ rest
    ∧ trace w' = trace w
        ++ ((λ f, "ssh" :: (if String.eqb port EmptyString then []
                            else ["-p"; port])
                     ++ [user +:+ "@" +:+ host;
                         "ln -sfn " +:+ Quote (Join [base; ver; f]) +:+ " "
                         +:+ Quote (Join [base; alias_name ver f])])
              <$> linked)
    ∧ now w' = now w ∧ run w' = run w
    ∧ (remote_keeps_files w → fs w' = fs w)
    ∧ match r with
      | None => rest = []
      | Some e => ∃ f, last linked = Some f ∧ e = ErrSymlink f ErrExit
      end.
Proof.
  revert w. induction files as [|file rest IH]; intros w H.
  - injection H as <- <-. exists [], [].
    split_and!; try done. cbn [fmap list_fmap]. by rewrite app_nil_r.
  - cbn [symlink_each] in H.
    destruct (Run _ w) as [w1 [err|]] eqn:Hrun;
      apply Run_inv in Hrun as (Ht & Hn & Hr & Hf & He).
    + injection H as <- <-. exists [file], rest.
      split_and!; [done..| |].
      * intros Hk. rewrite Hf. by apply Hk.
      * exists file. split; [done|].
        destruct (run w _ (fs w)).2; by simplify_eq.
    + destruct (IH _ H) as (linked & rest' & -> & Ht' & Hn' & Hr' & Hf' & Hres).
      exists (file :: linked), rest'. split_and!; [done| |congruence..| |].
      * rewrite Ht', Ht, fmap_cons, <- app_assoc. done.
      * intros Hk. rewrite Hf', Hf; [by apply Hk|].
        unfold remote_keeps_files. by rewrite Hr.
      * destruct r as [e|]; [|done]. destruct Hres as (l & Hl & ->).
        exists l. split; [|done]. by destruct linked.
Qed.

Lemma uploadWithScp_spec hp user dir locals w w' r :
  uploadWithScp hp user dir locals w = (w', r) →
  ∃ sent rest,
    locals = sent ++ rest
    ∧ trace w' = trace w ++ (scp_command hp user dir <$> sent)
    ∧ now w' = now w ∧ run w' = run w
    ∧ (remote_keeps_files w → fs w' = fs w)
    ∧ match r with
      | None => rest = []
      | Some e => ∃ local, last sent = Some local ∧ e = ErrScpFailed local ErrExit
      end.
Proof.
  unfold uploadWithScp, scp_command.
  destruct (parseHostPort hp) as [host port]. apply scp_each_spec.
Qed.

Lemma updateLatestFileSymlinks_spec hp user base ver files w w' r :
  updateLatestFileSymlinks Quote hp user base ver files w = (w', r) →
  ∃ linked rest,
    files = linked ++ rest
    ∧ trace w' = trace w ++ (ln_command Quote hp user base ver <$> linked)
    ∧ now w' = now w ∧ run w' = run w
    ∧ (remote_keeps_files w → fs w' = fs w)
    ∧ match r with
      | None => rest = []
      | Some e => ∃ f, last linked = Some f ∧ e = ErrSymlink f ErrExit
      end.
Proof.
  unfold updateLatestFileSymlinks, ln_command.
  destruct (parseHostPort hp) as [host port]. apply symlink_each_spec.
Qed.

(** The transfers again, with the worlds: the loop runs the commands of
    a front part of the list, each in the world the one before left, and
    ends with the first that ends badly. *)
Lemma scp_each_stops host port user dir locals w w' r :
  scp_each host port user dir locals w = (w', r) →
  ∃ sent rest,
    locals = sent ++ rest
    ∧ w' = run_list
             ((λ local, "scp" :: (if String.eqb port EmptyString then []
                                  else ["-P"; port])
                           ++ [local; user +:+ "@" +:+ host +:+ ":" +:+ dir])
                <$> sent) w
    ∧ match r with
      | None =>
          rest = []
          ∧ all_end_well
              ((λ local, "scp" :: (if String.eqb port EmptyString then []
                                   else ["-P"; port])
                            ++ [local; user +:+ "@" +:+ host +:+ ":" +:+ dir])
                 <$> sent) w = true
      | Some e =>
          ∃ before local,
            sent = before ++ [local]
            ∧ e = ErrScpFailed local ErrExit
            ∧ all_end_well
                ((λ local, "scp" :: (if String.eqb port EmptyString then []
                                     else ["-P"; port])
                              ++ [local; user +:+ "@" +:+ host +:+ ":" +:+ dir])
                   <$> before) w = true
            ∧ ends_well
                ("scp" :: (if String.eqb port EmptyString then []
                           else ["-P"; port])
                       ++ [local; user +:+ "@" +:+ host +:+ ":" +:+ dir])
                (run_list
                   ((λ local, "scp" :: (if String.eqb port EmptyString then []
                                        else ["-P"; port])
                                 ++ [local; user +:+ "@" +:+ host +:+ ":" +:+ dir])
                      <$> before) w) = false
      end.
Proof.
  set (cmd := λ local, "scp" :: (if String.eqb port EmptyString then []
                                 else ["-P"; port])
                         ++ [local; user +:+ "@" +:+ host +:+ ":" +:+ dir]).
  revert w. induction locals as [|local rest IH]; intros w H.
  - injection H as <- <-. by exists [], [].
  - cbn [scp_each] in H. fold (cmd local) in H. fold (cmd local).
    pose proof (Run_ends_well (cmd local) w) as He.
    destruct (Run (cmd local) w) as [w1 [err|]] eqn:Hrun; cbn [snd] in He.
    + injection H as <- <-. exists [local], rest. split; [done|].
      split; [cbn [fmap list_fmap]; by rewrite run_list_cons, Hrun|].
      exists [], local.
      destruct (ends_well (cmd local) w) eqn:Hw; [done|].
      injection He as ->. done.
    + destruct (ends_well (cmd local) w) eqn:Hw; [|done].
      destruct (IH _ H) as (sent & rest' & -> & -> & Hres).
      exists (local :: sent), rest'. split; [done|].
      split; [cbn [fmap list_fmap]; by rewrite run_list_cons, Hrun|].
      destruct r as [e|].
      * destruct Hres as (before & l & -> & -> & Hall & Hbad).
        exists (local :: before), l. split_and!; [done..| |].
        -- cbn [fmap list_fmap all_end_well]. by rewrite Hw, Hrun.
        -- cbn [fmap list_fmap]. by rewrite run_list_cons, Hrun.
      * destruct Hres as [-> Hall]. split; [done|].
        cbn [fmap list_fmap all_end_well]. by rewrite Hw, Hrun.
Qed.

Lemma symlink_each_stops host port user base ver files w w' r :
  symlink_each Quote host port user base ver files w = (w', r) →
  ∃ linked rest,
    files = linked ++ rest
    ∧ w' = run_list
             ((λ f, "ssh" :: (if String.eqb port EmptyString then []
                              else ["-p"; port])
                       ++ [user +:+ "@" +:+ host;
                           "ln -sfn " +:+ Quote (Join [base; ver; f]) +:+ " "
                           +:+ Quote (Join [base; alias_name ver f])])
                <$> linked) w
    ∧ match r with
      | None =>
          rest = []
          ∧ all_end_well
              ((λ f, "ssh" :: (if String.eqb port EmptyString then []
                               else ["-p"; port])
                        ++ [user +:+ "@" +:+ host;
                            "ln -sfn " +:+ Quote (Join [base; ver; f]) +:+ " "
                            +:+ Quote (Join [base; alias_name ver f])])
                 <$> linked) w = true
      | Some e =>
          ∃ before file,
            linked = before ++ [file]
            ∧ e = ErrSymlink file ErrExit
            ∧ all_end_well
                ((λ f, "ssh" :: (if String.eqb port EmptyString then []
                                 else ["-p"; port])
                          ++ [user +:+ "@" +:+ host;
                              "ln -sfn " +:+ Quote (Join [base; ver; f]) +:+ " "
                              +:+ Quote (Join [base; alias_name ver f])])
                   <$> before) w = true
            ∧ ends_well
                ("ssh" :: (if String.eqb port EmptyString then []
                           else ["-p"; port])
                       ++ [user +:+ "@" +:+ host;
                           "ln -sfn " +:+ Quote (Join [base; ver; file]) +:+ " "
                           +:+ Quote (Join [base; alias_name ver file])])
                (run_list
                   ((λ f, "ssh" :: (if String.eqb port EmptyString then []
                                    else ["-p"; port])
                             ++ [user +:+ "@" +:+ host;
                                 "ln -sfn " +:+ Quote (Join [base; ver; f]) +:+ " "
                                 +:+ Quote (Join [base; alias_name ver f])])
                      <$> before) w) = false
      end.
Proof.
  set (cmd := λ f, "ssh" :: (if String.eqb port EmptyString then []
                             else ["-p"; port])
                     ++ [user +:+ "@" +:+ host;
                         "ln -sfn " +:+ Quote (Join [base; ver; f]) +:+ " "
                         +:+ Quote (Join [base; alias_name ver f])]).
  revert w. induction files as [|file rest IH]; intros w H.
  - injection H as <- <-. by exists [], [].
  - cbn [symlink_each] in H. fold (alias_name ver file) in H.
    fold (cmd file) in H. fold (cmd file).
    pose proof (Run_ends_well (cmd file) w) as He.
    destruct (Run (cmd file) w) as [w1 [err|]] eqn:Hrun; cbn [snd] in He.
    + injection H as <- <-. exists [file], rest. split; [done|].
      split; [cbn [fmap list_fmap]; by rewrite run_list_cons, Hrun|].
      exists [], file.
      destruct (ends_well (cmd file) w) eqn:Hw; [done|].
      injection He as ->. done.
    + destruct (ends_well (cmd file) w) eqn:Hw; [|done].
      destruct (IH _ H) as (linked & rest' & -> & -> & Hres).
      exists (file :: linked), rest'. split; [done|].
      split; [cbn [fmap list_fmap]; by rewrite run_list_cons, Hrun|].
      destruct r as [e|].
      * destruct Hres as (before & l & -> & -> & Hall & Hbad).
        exists (file :: before), l. split_and!; [done..| |].
        -- cbn [fmap list_fmap all_end_well]. by rewrite Hw, Hrun.
        -- cbn [fmap list_fmap]. by rewrite run_list_cons, Hrun.
      * destruct Hres as [-> Hall]. split; [done|].
        cbn [fmap list_fmap all_end_well]. by rewrite Hw, Hrun.
Qed.

Lemma uploadWithScp_stops hp user dir locals w w' r :
  uploadWithScp hp user dir locals w = (w', r) →
  ∃ sent rest,
    locals = sent ++ rest
    ∧ w' = run_list (scp_command hp user dir <$> sent) w
    ∧ match r with
      | None =>
          rest = [] ∧ all_end_well (scp_command hp user dir <$> sent) w = true
      | Some e =>
          ∃ before local,
            sent = before ++ [local]
            ∧ e = ErrScpFailed local ErrExit
            ∧ all_end_well (scp_command hp user dir <$> before) w = true
            ∧ ends_well (scp_command hp user dir local)
                (run_list (scp_command hp user dir <$> before) w) = false
      end.
Proof.
  unfold uploadWithScp, scp_command.
  destruct (parseHostPort hp) as [host port]. apply scp_each_stops.
Qed.

Lemma updateLatestFileSymlinks_stops hp user base ver files w w' r :
  updateLatestFileSymlinks Quote hp user base ver files w = (w', r) →
  ∃ linked rest,
    files = linked ++ rest
    ∧ w' = run_list (ln_command Quote hp user base ver <$> linked) w
    ∧ match r with
      | None =>
          rest = []
          ∧ all_end_well (ln_command Quote hp user base ver <$> linked) w = true
      | Some e =>
          ∃ before file,
            linked = before ++ [file]
            ∧ e = ErrSymlink file ErrExit
            ∧ all_end_well (ln_command Quote hp user base ver <$> before) w = true
            ∧ ends_well (ln_command Quote hp user base ver file)
                (run_list (ln_command Quote hp user base ver <$> before) w) = false
      end.
Proof.
  unfold updateLatestFileSymlinks, ln_command.
  destruct (parseHostPort hp) as [host port]. apply symlink_each_stops.
Qed.

(** A loop that names the file of the first command that ends badly
    stops at the first failure. *)
Lemma loop_stops {A} (cmd : A → list string) (items ran rest : list A) w w'
    (P : A → Prop) (ok : bool) :
  items = ran ++ rest →
  w' = run_list (cmd <$> ran) w →
  (if ok then rest = [] ∧ all_end_well (cmd <$> ran) w = true
   else ∃ before x,
          ran = before ++ [x] ∧ P x
          ∧ all_end_well (cmd <$> before) w = true
          ∧ ends_well (cmd x) (run_list (cmd <$> before) w) = false) →
  stops_at_first_failure (cmd <$> items) w w' ok.
Proof.
  intros -> -> H. exists (cmd <$> ran), (cmd <$> rest).
  split; [by rewrite fmap_app|]. split; [done|].
  destruct ok.
  - destruct H as [-> H]. done.
  - destruct H as (before & x & -> & _ & Hb & Hbad).
    exists (cmd <$> before), (cmd x). by rewrite fmap_app.
Qed.

Lemma uploadWithScp_stops_at_first hp user dir locals w w' r :
  uploadWithScp hp user dir locals w = (w', r) →
  stops_at_first_failure (scp_command hp user dir <$> locals) w w'
    (bool_decide (r = None)).
Proof.
  intros (sent & rest & E & W & H)%uploadWithScp_stops.
  destruct r as [e|].
  - rewrite bool_decide_eq_false_2 by done.
    destruct H as (before & local & Hs & He & Hb & Hbad).
    apply (loop_stops _ locals sent rest w w' (λ l, e = ErrScpFailed l ErrExit));
      [done..|]. by exists before, local.
  - rewrite bool_decide_eq_true_2 by done.
    by apply (loop_stops _ locals sent rest w w' (λ _, True)).
Qed.

Lemma updateLatestFileSymlinks_stops_at_first hp user base ver files w w' r :
  updateLatestFileSymlinks Quote hp user base ver files w = (w', r) →
  stops_at_first_failure (ln_command Quote hp user base ver <$> files) w w'
    (bool_decide (r = None)).
Proof.
  intros (linked & rest & E & W & H)%updateLatestFileSymlinks_stops.
  destruct r as [e|].
  - rewrite bool_decide_eq_false_2 by done.
    destruct H as (before & file & Hs & He & Hb & Hbad).
    apply (loop_stops _ files linked rest w w' (λ l, e = ErrSymlink l ErrExit));
      [done..|]. by exists before, file.
  - rewrite bool_decide_eq_true_2 by done.
    by apply (loop_stops _ files linked rest w w' (λ _, True)).
Qed.

Lemma ensureRemoteDir_inv fl v w w' r :
  ensureRemoteDir (hostPort fl) (user fl)
    (TrimRight (remoteDir fl) "/" +:+ "/" +:+ dlDir +:+ "/" +:+ v) w = (w', r) →
  trace w' = trace w ++ [mkdir_command fl v]
  ∧ now w' = now w ∧ run w' = run w
  ∧ (remote_keeps_files w → fs w' = fs w).
Proof.
  unfold ensureRemoteDir, mkdir_command.
  destruct (parseHostPort (hostPort fl)) as [host port].
  intros (Ht & Hn & Hr & Hf & _)%Run_inv. split_and!; [done..|].
  intros Hk. rewrite Hf. by apply Hk.
Qed.

Lemma RunBuildAll_inv v w w' r :
  RunBuildAll v w = (w', r) →
  now w' = now w ∧ run w' = run w
  ∧ (trace w' = trace w ∧ r ≠ None
     ∨ trace w' = trace w ++ [build_command v]
       ∧ r = (if (run w (build_command v) (fs w)).2 then None
              else Some (ErrBuildFailed ErrExit))).
Proof.
  unfold RunBuildAll. destruct (negb _).
  - intros [= <- <-]. split_and!; [done..|]. by left.
  - destruct (Run _ w) as [w1 [e|]] eqn:Hrun;
      apply Run_inv in Hrun as (Ht & Hn & Hr & Hf & He);
      intros [= <- <-]; (split_and!; [done..|]); right; (split; [done|]);
      fold (build_command v) in He; destruct (run w _ (fs w)).2; by simplify_eq.
Qed.

Lemma okOrExit_lift_fs_inv (m : FS → FS * option error) w w' u :
  okOrExit (lift_fs m) w = (w', Some u) →
  ∃ f', m (fs w) = (f', None) ∧ w' = with_fs w f'.
Proof.
  unfold okOrExit, lift_fs. destruct (m (fs w)) as [f' [e|]]; [done|].
  intros [= <-]. eauto.
Qed.

Lemma orExit_lift_fs_inv {A} (m : FS → FS * (error + A)) w w' a :
  orExit (lift_fs m) w = (w', Some a) →
  ∃ f', m (fs w) = (f', inr a) ∧ w' = with_fs w f'.
Proof.
  unfold orExit, lift_fs. destruct (m (fs w)) as [f' [e|x]]; [done|].
  intros [= <- <-]. eauto.
Qed.

Lemma fs_step_inv (m : FS → error + FS) f f' :
  fs_step m f = (f', None) → m f = inr f'.
Proof. unfold fs_step. destruct (m f); by intros [= <-]. Qed.

(** A run of [main] that ends well, step by step. *)
Lemma main_steps_inv fl w w' u :
  main_steps Quote fl w = (w', Some u) →
  ∃ f1 f2 entries v w4 f5 f6 files links f8,
    MkdirAll dlDir 493 (fs w) = inr f1
    ∧ readEntries (jsonName fl) f1 = (f2, inr entries)
    ∧ pickVersion (manualVer fl) entries = inr v
    ∧ RunBuildAll v (with_fs w f2) = (w4, None)
    ∧ MkdirAll (Join [dlDir; v]) 493 (fs w4) = inr f5
    ∧ collectAndRenameZips (srcDir fl) (Join [dlDir; v]) v f5 = (f6, inr files)
    ∧ checksum_each (Join [dlDir; v]) (elems files) None f6 = inr links
    ∧ writeEntries (jsonName fl)
        (upsertEntry entries (mkEntry v (now w4) links)) f6 = (f8, None)
    ∧ publish Quote fl v (Join [dlDir; v]) files (with_fs w4 f8) = (w', Some u).
Proof.
  intros H. unfold main_steps in H.
  apply pbind_Some in H as (w1 & [] & H1 & H).
  apply pbind_Some in H as (w2 & entries & H2 & H).
  apply pbind_Some in H as (w3 & v & H3 & H).
  apply pbind_Some in H as (w4 & [] & H4 & H).
  apply pbind_Some in H as (w5 & [] & H5 & H).
  apply pbind_Some in H as (w6 & files & H6 & H).
  apply pbind_Some in H as (w7 & links & H7 & H).
  apply pbind_Some in H as (w8 & [] & H8 & H).
  apply okOrExit_lift_fs_inv in H1 as (f1 & H1%fs_step_inv & ->).
  apply orExit_lift_fs_inv in H2 as (f2 & H2 & ->).
  assert (pickVersion (manualVer fl) entries = inr v ∧ w3 = with_fs (with_fs w f1) f2)
    as [Hv ->].
  { unfold orExit, pure_step in H3. destruct (pickVersion _ _); by simplify_eq. }
  assert (RunBuildAll v (with_fs w f2) = (w4, None)) as Hb.
  { unfold okOrExit in H4.
    change (with_fs (with_fs w f1) f2) with (with_fs w f2) in H4.
    destruct (RunBuildAll v (with_fs w f2)) as [w4' [e|]]; by simplify_eq. }
  apply okOrExit_lift_fs_inv in H5 as (f5 & H5%fs_step_inv & ->).
  apply orExit_lift_fs_inv in H6 as (f6 & H6 & ->).
  assert (checksum_each (Join [dlDir; v]) (elems files) None f6 = inr links
          ∧ w7 = with_fs w4 f6) as [Hc ->].
  { unfold orExit in H7. simpl in H7.
    destruct (checksum_each _ _ _ f6); by simplify_eq. }
  apply okOrExit_lift_fs_inv in H8 as (f8 & H8 & ->).
  exists f1, f2, entries, v, w4, f5, f6, files, links, f8.
  split_and!; done.
Qed.

(** What [publish] does when it ends well. *)
Lemma publish_inv fl v versionDir files w w' u :
  publish Quote fl v versionDir files w = (w', Some u) →
  trace w' = trace w
    ++ mkdir_command fl v
       :: (if dryRun fl then []
           else (scp_command (hostPort fl) (user fl)
                   (TrimRight (remoteDir fl) "/" +:+ "/" +:+ dlDir +:+ "/" +:+ v)
                   <$> ((λ f, Join [versionDir; f]) <$> elems files))
                ++ [scp_command (hostPort fl) (user fl) (remoteDir fl) (jsonName fl)]
                ++ (ln_command Quote (hostPort fl) (user fl)
                      (remoteDir fl +:+ "/" +:+ dlDir) v <$> elems files))
  ∧ (remote_keeps_files w → fs w' = fs w).
Proof.
  unfold publish. intros (w1 & [] & H1 & H)%pbind_Some.
  assert (trace w1 = trace w ++ [mkdir_command fl v] ∧ run w1 = run w
          ∧ (remote_keeps_files w → fs w1 = fs w)) as (T1 & R1 & F1).
  { unfold okOrExit in H1.
    destruct (ensureRemoteDir _ _ _ w) as [w1' [e|]] eqn:He; [done|].
    injection H1 as <-. by apply ensureRemoteDir_inv in He as (? & ? & ? & ?). }
  destruct (dryRun fl); cbn [negb] in H.
  - unfold pret in H. injection H as <- _. split; [|done].
    by rewrite T1.
  - apply pbind_Some in H as (w2 & [] & H2 & H).
    apply pbind_Some in H as (w3 & [] & H3 & H).
    unfold okOrExit in H2, H3, H.
    destruct (uploadWithScp _ _ _ _ w1) as [w2' [e|]] eqn:U2; [done|].
    injection H2 as ->.
    destruct (uploadWithScp _ _ _ _ w2) as [w3' [e|]] eqn:U3; [done|].
    injection H3 as ->.
    destruct (updateLatestFileSymlinks _ _ _ _ _ _ w3) as [w4' [e|]] eqn:U4; [done|].
    injection H as ->.
    apply uploadWithScp_spec in U2
      as (s2 & r2 & E2 & T2 & _ & R2 & F2 & ->). rewrite app_nil_r in E2. subst s2.
    apply uploadWithScp_spec in U3
      as (s3 & r3 & E3 & T3 & _ & R3 & F3 & ->). rewrite app_nil_r in E3. subst s3.
    apply updateLatestFileSymlinks_spec in U4
      as (s4 & r4 & E4 & T4 & _ & R4 & F4 & ->). rewrite app_nil_r in E4. subst s4.
    split.
    + rewrite T4, T3, T2, T1, <- !app_assoc. done.
    + intros Hk.
      assert (remote_keeps_files w1) as K1 by (unfold remote_keeps_files; by rewrite R1).
      assert (remote_keeps_files w2) as K2
        by (unfold remote_keeps_files; by rewrite R2, R1).
      assert (remote_keeps_files w3) as K3
        by (unfold remote_keeps_files; by rewrite R3, R2, R1).
      by rewrite F4, F3, F2, F1.
Qed.

Lemma pbind_inv {A B} (m : Proc A) (k : A → Proc B) w w' r :
  pbind m k w = (w', r) →
  (m w = (w', None) ∧ r = None) ∨ ∃ w1 a, m w = (w1, Some a) ∧ k a w1 = (w', r).
Proof.
  unfold pbind. destruct (m w) as [w1 [a|]].
  - right. eauto.
  - intros [= <- <-]. by left.
Qed.

Lemma okOrExit_inv (m : World → World * option error) w w' r :
  okOrExit m w = (w', r) →
  ∃ e, m w = (w', e)
       ∧ (match r with Some _ => true | None => false end)
         = bool_decide (e = None).
Proof.
  unfold okOrExit. destruct (m w) as [w1 [e|]]; intros [= <- <-]; eauto.
Qed.

Lemma ensureRemoteDir_Run fl v w :
  ensureRemoteDir (hostPort fl) (user fl)
    (TrimRight (remoteDir fl) "/" +:+ "/" +:+ dlDir +:+ "/" +:+ v) w
  = Run (mkdir_command fl v) w.
Proof.
  unfold ensureRemoteDir, mkdir_command.
  by destruct (parseHostPort (hostPort fl)) as [host port].
Qed.

Lemma stops_cons_ok argv cmds w w1 w' ok :
  stops_at_first_failure [argv] w w1 true →
  stops_at_first_failure cmds w1 w' ok →
  stops_at_first_failure (argv :: cmds) w w' ok.
Proof. apply (stops_app_ok [argv] cmds). Qed.

Lemma stops_cons_fail argv cmds w w' :
  stops_at_first_failure [argv] w w' false →
  stops_at_first_failure (argv :: cmds) w w' false.
Proof. apply (stops_app_fail [argv] cmds). Qed.

(** The remote part runs its commands in order up to the first that
    ends badly, and ends well when none does. *)
Lemma publish_stops fl v (files : slice string) w w' r :
  publish Quote fl v (Join [dlDir; v]) files w = (w', r) →
  stops_at_first_failure (remote_commands Quote fl v (elems files)) w w'
    (match r with Some _ => true | None => false end).
Proof.
  unfold publish, remote_commands. intros H.
  apply pbind_inv in H as [[H ->]|(w1 & [] & H1 & H)].
  { apply okOrExit_inv in H as (e & H & Hok).
    rewrite ensureRemoteDir_Run in H. apply stops_one in H.
    rewrite <- Hok in H. by apply stops_cons_fail. }
  apply okOrExit_inv in H1 as (e1 & H1 & Hok1).
  rewrite ensureRemoteDir_Run in H1. apply stops_one in H1. rewrite <- Hok1 in H1.
  apply (stops_cons_ok _ _ _ _ _ _ H1). clear H1 Hok1.
  destruct (dryRun fl); cbn [negb] in H.
  { injection H as <- <-. by exists [], []. }
  apply pbind_inv in H as [[H ->]|(w2 & [] & H2 & H)].
  { apply okOrExit_inv in H as (e & H & Hok).
    apply uploadWithScp_stops_at_first in H. rewrite <- Hok in H.
    by apply stops_app_fail. }
  apply okOrExit_inv in H2 as (e2 & H2 & Hok2).
  apply uploadWithScp_stops_at_first in H2. rewrite <- Hok2 in H2.
  apply (stops_app_ok _ _ _ _ _ _ H2). clear H2 Hok2.
  apply pbind_inv in H as [[H ->]|(w3 & [] & H3 & H)].
  { apply okOrExit_inv in H as (e & H & Hok).
    apply uploadWithScp_stops_at_first in H. rewrite <- Hok in H.
    by apply (stops_app_fail [_]). }
  apply okOrExit_inv in H3 as (e3 & H3 & Hok3).
  apply uploadWithScp_stops_at_first in H3. rewrite <- Hok3 in H3.
  apply (stops_app_ok _ _ _ _ _ _ H3). clear H3 Hok3.
  apply okOrExit_inv in H as (e & H & Hok).
  apply updateLatestFileSymlinks_stops_at_first in H. by rewrite <- Hok in H.
Qed.

(** What the local part leaves of the world it started in. *)
Lemma local_steps_world fl w entries v files links w8 :
  local_steps fl w entries v files links w8 →
  trace w8 = trace w ++ [build_command v] ∧ now w8 = now w ∧ run w8 = run w.
Proof.
  intros (f1 & f2 & w4 & f5 & f6 & f8 & _ & _ & _ & Hb & _ & _ & _ & _ & ->).
  by apply RunBuildAll_inv in Hb as (N & R & [[_ Hb]|[T _]]).
Qed.

(** A run of [main] that ends well has gone through the local part. *)
Lemma main_steps_local fl w w' u :
  main_steps Quote fl w = (w', Some u) →
  ∃ entries v files links w8,
    local_steps fl w entries v files links w8
    ∧ publish Quote fl v (Join [dlDir; v]) files w8 = (w', Some u).
Proof.
  intros (f1 & f2 & entries & v & w4 & f5 & f6 & files & links & f8
          & H1 & H2 & Hv & Hb & H5 & H6 & Hc & Hw & Hp)%main_steps_inv.
  pose proof Hb as (Nb & _)%RunBuildAll_inv. cbn [now with_fs] in Nb.
  rewrite Nb in Hw.
  exists entries, v, files, links, (with_fs w4 f8). split; [|done].
  by exists f1, f2, w4, f5, f6, f8.
Qed.

(** After the local part [main] goes on with the remote part. *)
Lemma main_steps_publish fl w entries v files links w8 :
  local_steps fl w entries v files links w8 →
  main_steps Quote fl w = publish Quote fl v (Join [dlDir; v]) files w8.
Proof.
  intros (f1 & f2 & w4 & f5 & f6 & f8 & H1 & H2 & Hv & Hb & H5 & H6 & Hc & Hw & ->).
  pose proof Hb as (Nb & _)%RunBuildAll_inv. cbn [now with_fs] in Nb.
  unfold main_steps, pbind.
  unfold okOrExit at 1, lift_fs at 1, fs_step at 1. rewrite H1.
  unfold orExit at 1, lift_fs at 1. cbn [fs with_fs]. rewrite H2.
  unfold orExit at 1, pure_step. rewrite Hv.
  unfold okOrExit at 1.
  change (with_fs (with_fs w f1) f2) with (with_fs w f2). rewrite Hb.
  unfold okOrExit at 1, lift_fs at 1, fs_step at 1. rewrite H5.
  unfold orExit at 1, lift_fs at 1. cbn [fs with_fs]. rewrite H6.
  unfold orExit at 1. cbn [fs with_fs]. rewrite Hc.
  unfold okOrExit at 1, lift_fs at 1. cbn [fs with_fs now]. rewrite Nb, Hw.
  done.
Qed.

(** The links the checksum loop returns: one a file, in order, with
    the path of the file and the digest of the bytes at that path. *)
Lemma checksum_each_inr versionDir files links0 f links :
  checksum_each versionDir files links0 f = inr links →
  elems links
  = elems links0
    ++ ((λ file, mkDownloadInfo (Join [versionDir; file])
                   (EncodeToString
                      (sha256.Sum256 (content f (Join [versionDir; file])))))
          <$> files).
Proof.
  revert links0. induction files as [|file rest IH]; intros links0 H.
  - injection H as <-. by rewrite app_nil_r.
  - cbn [checksum_each] in H. unfold computeChecksum, ReadFile in H.
    destruct (nodes f !! Join [versionDir; file]) as [[x|p l]|] eqn:Hx; try done.
    apply IH in H. rewrite H. unfold append1, content. cbn [elems].
    by rewrite <- app_assoc, fmap_cons, Hx.
Qed.

End Commands.

(** X16: The transfers are made one file at a time, in the order given, each
    in the world the one before it left, and stop at the first command
    that ends badly. The call returns no error exactly when every command
    ends well, and then every file was transferred. Otherwise the commands
    run are those of a front part of the list: the last of them ended
    badly, those before it ended well, the error names the file of the
    last, and no later file is tried. *)
Theorem transfers_stop_at_first_failure
    (hp user dir : string) (locals : list string) (w w' : World)
    (r : option error) :
  uploadWithScp hp user dir locals w = (w', r) →
  (r = None ↔ all_end_well (scp_command hp user dir <$> locals) w = true)
  ∧ ∃ sent rest,
      locals = sent ++ rest
      ∧ w' = run_list (scp_command hp user dir <$> sent) w
      ∧ trace w' = trace w ++ (scp_command hp user dir <$> sent)
      ∧ match r with
        | None => rest = []
        | Some e =>
            ∃ before local,
              sent = before ++ [local]
              ∧ e = ErrScpFailed local ErrExit
              ∧ all_end_well (scp_command hp user dir <$> before) w = true
              ∧ ends_well (scp_command hp user dir local)
                  (run_list (scp_command hp user dir <$> before) w) = false
        end.
Proof.
  intros H. apply uploadWithScp_stops in H as (sent & rest & -> & -> & H).
  split.
  - destruct r as [e|].
    + destruct H as (before & local & -> & _ & Hb & Hbad). split; [done|].
      rewrite !fmap_app, <- !app_assoc, all_end_well_app, Hb.
      cbn [fmap list_fmap app all_end_well andb]. by rewrite Hbad.
    + destruct H as [-> H]. by rewrite app_nil_r.
  - exists sent, rest. split; [done|]. split; [done|].
    split; [apply run_list_inv|]. destruct r as [e|]; [done|]. by destruct H.
Qed.

Lemma transfers_stop_at_first_failure_witness :
  ∃ w',
    uploadWithScp "host.ext:2222" "user" "/srv" ["a.zip"; "b.zip"; "c.zip"]
      (world_refusing "b.zip")
    = (w', Some (ErrScpFailed "b.zip" ErrExit))
    ∧ trace w' = [["scp"; "-P"; "2222"; "a.zip"; "user@host.ext:/srv"];
                  ["scp"; "-P"; "2222"; "b.zip"; "user@host.ext:/srv"]]
    ∧ all_end_well
        (scp_command "host.ext:2222" "user" "/srv" <$> ["a.zip"; "b.zip"; "c.zip"])
        (world_refusing "b.zip") ≠ true.
Proof.
  destruct (transfers_stop_at_first_failure "host.ext:2222" "user" "/srv"
              ["a.zip"; "b.zip"; "c.zip"] (world_refusing "b.zip")
              (uploadWithScp "host.ext:2222" "user" "/srv" ["a.zip"; "b.zip"; "c.zip"]
                 (world_refusing "b.zip")).1
              (Some (ErrScpFailed "b.zip" ErrExit)))
    as [Hiff _].
  - vm_compute. reflexivity.
  - eexists. split; [vm_compute; reflexivity|]. split; [vm_compute; reflexivity|].
    intros Hall. apply Hiff in Hall. discriminate Hall.
Defined.

(** X17: The aliases are repointed one file at a time, in the order given,
    each command in the world the one before it left, and stop at the
    first command that ends badly. The call returns no error exactly when
    every command ends well, and then every file has its alias. Otherwise
    the commands run are those of a front part of the list: the last of
    them ended badly, those before it ended well, the error names the
    file of the last, and no later file is tried. The command for a file
    links the alias name in the remote base directory to the file in the
    directory of the version, both paths quoted. *)
Theorem aliases_stop_at_first_failure
    (Quote : string → string) (hp user base ver : string) (files : list string)
    (w w' : World) (r : option error) :
  updateLatestFileSymlinks Quote hp user base ver files w = (w', r) →
  (r = None ↔ all_end_well (ln_command Quote hp user base ver <$> files) w = true)
  ∧ ∃ linked rest,
      files = linked ++ rest
      ∧ w' = run_list (ln_command Quote hp user base ver <$> linked) w
      ∧ trace w' = trace w ++ (ln_command Quote hp user base ver <$> linked)
      ∧ match r with
        | None => rest = []
        | Some e =>
            ∃ before file,
              linked = before ++ [file]
              ∧ e = ErrSymlink file ErrExit
              ∧ all_end_well (ln_command Quote hp user base ver <$> before) w = true
              ∧ ends_well (ln_command Quote hp user base ver file)
                  (run_list (ln_command Quote hp user base ver <$> before) w) = false
        end.
Proof.
  intros H.
  apply updateLatestFileSymlinks_stops in H as (linked & rest & -> & -> & H).
  split.
  - destruct r as [e|].
    + destruct H as (before & file & -> & _ & Hb & Hbad). split; [done|].
      rewrite !fmap_app, <- !app_assoc, all_end_well_app, Hb.
      cbn [fmap list_fmap app all_end_well andb]. by rewrite Hbad.
    + destruct H as [-> H]. by rewrite app_nil_r.
  - exists linked, rest. split; [done|]. split; [done|].
    split; [apply run_list_inv|]. destruct r as [e|]; [done|]. by destruct H.
Qed.

Lemma aliases_stop_at_first_failure_witness :
  ∃ w',
    updateLatestFileSymlinks quote_plain "host.ext" "user" "/srv/downloads" "0.0.1"
      ["client-0.0.1.zip"; "server-0.0.1.zip"; "tools-0.0.1.zip"]
      (world_refusing
         ("ln -sfn " +:+ quote_plain "/srv/downloads/0.0.1/server-0.0.1.zip"
          +:+ " " +:+ quote_plain "/srv/downloads/server-latest.zip"))
    = (w', Some (ErrSymlink "server-0.0.1.zip" ErrExit))
    ∧ trace w'
      = [["ssh"; "user@host.ext";
          "ln -sfn " +:+ quote_plain "/srv/downloads/0.0.1/client-0.0.1.zip"
          +:+ " " +:+ quote_plain "/srv/downloads/client-latest.zip"];
         ["ssh"; "user@host.ext";
          "ln -sfn " +:+ quote_plain "/srv/downloads/0.0.1/server-0.0.1.zip"
          +:+ " " +:+ quote_plain "/srv/downloads/server-latest.zip"]]
    ∧ all_end_well
        (ln_command quote_plain "host.ext" "user" "/srv/downloads" "0.0.1"
           <$> ["client-0.0.1.zip"; "server-0.0.1.zip"; "tools-0.0.1.zip"])
        (world_refusing
           ("ln -sfn " +:+ quote_plain "/srv/downloads/0.0.1/server-0.0.1.zip"
            +:+ " " +:+ quote_plain "/srv/downloads/server-latest.zip")) ≠ true.
Proof.
  destruct (aliases_stop_at_first_failure quote_plain "host.ext" "user"
              "/srv/downloads" "0.0.1"
              ["client-0.0.1.zip"; "server-0.0.1.zip"; "tools-0.0.1.zip"]
              (world_refusing
                 ("ln -sfn " +:+ quote_plain "/srv/downloads/0.0.1/server-0.0.1.zip"
                  +:+ " " +:+ quote_plain "/srv/downloads/server-latest.zip"))
              (updateLatestFileSymlinks quote_plain "host.ext" "user" "/srv/downloads"
                 "0.0.1" ["client-0.0.1.zip"; "server-0.0.1.zip"; "tools-0.0.1.zip"]
                 (world_refusing
                    ("ln -sfn "
                     +:+ quote_plain "/srv/downloads/0.0.1/server-0.0.1.zip"
                     +:+ " " +:+ quote_plain "/srv/downloads/server-latest.zip"))).1
              (Some (ErrSymlink "server-0.0.1.zip" ErrExit)))
    as [Hiff _].
  - vm_compute. reflexivity.
  - eexists. split; [vm_compute; reflexivity|]. split; [vm_compute; reflexivity|].
    intros Hall. apply Hiff in Hall. discriminate Hall.
Defined.

(** X18: The alias of a staged archive. Staging names the copy of an archive
    after its base name and the version; the alias step takes the version
    and the extension off again, so the alias is the base name followed by
    [-latest.zip], whatever the version and the case of the extension the
    archive came with. A file name that does not end in the version and
    [.zip] keeps its whole name in front of [-latest.zip]. *)
Theorem alias_of_staged_archive (ver : string) :
  (∀ de, alias_name ver (staged_name ver de)
         = TrimSuffix (Name de) (Ext (Name de)) +:+ "-latest.zip")
  ∧ (∀ file, HasSuffix file ("-" +:+ ver +:+ ".zip") = false →
             alias_name ver file = file +:+ "-latest.zip").
Proof.
  split.
  - intros de. unfold alias_name, staged_name. by rewrite TrimSuffix_append.
  - intros file H. unfold alias_name, TrimSuffix. by rewrite H.
Qed.

(** X19: A release that is not dry and ends well has gone through the local
    part of [main], which fixes the entries loaded, the version picked,
    the files staged and the links, and has then run every command of the
    remote part, each ending well. In all it has run, in this order: the
    build with the version picked; the creation of the remote directory
    of the version; one transfer for every staged file, in staging order,
    into that directory; the transfer of the manifest into the remote
    directory; one alias command for every staged file, in the same
    order. At least one file was staged. *)
Theorem live_run_command_sequence
    (Quote : string → string) (fl : Flags) (w w' : World) :
  dryRun fl = false →
  main Quote fl w = (w', 0) →
  ∃ entries v files links w8,
    local_steps fl w entries v files links w8
    ∧ elems files ≠ []
    ∧ w' = run_list (remote_commands Quote fl v (elems files)) w8
    ∧ all_end_well (remote_commands Quote fl v (elems files)) w8 = true
    ∧ trace w'
      = trace w
        ++ [build_command v; mkdir_command fl v]
        ++ (scp_command (hostPort fl) (user fl)
              (TrimRight (remoteDir fl) "/" +:+ "/" +:+ dlDir +:+ "/" +:+ v)
              <$> ((λ f, Join [Join [dlDir; v]; f]) <$> elems files))
        ++ [scp_command (hostPort fl) (user fl) (remoteDir fl) (jsonName fl)]
        ++ (ln_command Quote (hostPort fl) (user fl)
              (remoteDir fl +:+ "/" +:+ dlDir) v <$> elems files).
Proof.
  intros Hlive Hmain. unfold main in Hmain.
  destruct (main_steps Quote fl w) as [w0 [u|]] eqn:Hsteps; [|done].
  injection Hmain as ->.
  apply main_steps_local in Hsteps
    as (entries & v & files & links & w8 & Hlocal & Hp).
  exists entries, v, files, links, w8. split; [done|].
  pose proof (local_steps_world _ _ _ _ _ _ _ Hlocal) as (Tb & _ & _).
  pose proof Hlocal
    as (f1 & f2 & w4 & f5 & f6 & f8 & _ & _ & _ & _ & _ & Hst & _).
  apply collect_ok in Hst as (_ & _ & _ & _ & Hne). split; [done|].
  apply publish_stops in Hp as (ran & rest & E & -> & -> & Hall).
  rewrite app_nil_r in E. subst ran. split; [done|]. split; [done|].
  destruct (run_list_inv (remote_commands Quote fl v (elems files)) w8)
    as (T & _ & _).
  rewrite T, Tb. unfold remote_commands. rewrite Hlive.
  by rewrite <- !app_assoc.
Qed.

Lemma live_run_command_sequence_witness :
  trace (main quote_plain flags_live world_release).1
  = [["bash"; "../RelayClient/build/build-all.sh"; "0.0.1"];
     ["ssh"; "user@host.ext";
      "mkdir -p /home/user/www/public_html/downloads/0.0.1"];
     ["scp"; "downloads/0.0.1/client-0.0.1.zip";
      "user@host.ext:/home/user/www/public_html/downloads/0.0.1"];
     ["scp"; "relayClient.json"; "user@host.ext:/home/user/www/public_html"];
     ["ssh"; "user@host.ext";
      "ln -sfn "
      +:+ quote_plain "/home/user/www/public_html/downloads/0.0.1/client-0.0.1.zip"
      +:+ " "
      +:+ quote_plain "/home/user/www/public_html/downloads/client-latest.zip"]].
Proof.
  destruct (live_run_command_sequence quote_plain flags_live world_release
              (main quote_plain flags_live world_release).1)
    as (entries & v & files & links & w8 & _).
  - reflexivity.
  - vm_compute. reflexivity.
  - vm_compute. reflexivity.
Defined.

(** X21: A build that fails stops the release. When the build command ends
    badly, the process leaves with status 1, and the build is the last
    command it has run, if it has run one at all: nothing is sent to the
    remote host. *)
Theorem failed_build_stops_the_release
    (Quote : string → string) (fl : Flags) (w w' : World) (code : Z) :
  (∀ v f, (run w (build_command v) f).2 = false) →
  main Quote fl w = (w', code) →
  code = 1
  ∧ (trace w' = trace w ∨ ∃ v, trace w' = trace w ++ [build_command v]).
Proof.
  intros Hfail Hmain. unfold main in Hmain.
  destruct (main_steps Quote fl w) as [w0 [u|]] eqn:Hsteps.
  - exfalso.
    apply main_steps_inv in Hsteps
      as (f1 & f2 & entries & v & w4 & f5 & f6 & files & links & f8
          & _ & _ & _ & Hb & _).
    apply RunBuildAll_inv in Hb as (_ & _ & [[_ Hb]|[_ Hb]]); [done|].
    cbn [run fs with_fs] in Hb. by rewrite Hfail in Hb.
  - injection Hmain as <- <-. split; [done|].
    unfold main_steps, pbind in Hsteps.
    destruct (okOrExit (lift_fs (fs_step (MkdirAll dlDir 493))) w)
      as [w1 [[]|]] eqn:H1.
    + apply okOrExit_lift_fs_inv in H1 as (f1 & _ & ->).
      destruct (orExit (lift_fs (readEntries (jsonName fl))) (with_fs w f1))
        as [w2 [entries|]] eqn:H2.
      * apply orExit_lift_fs_inv in H2 as (f2 & _ & ->).
        unfold orExit at 1, pure_step at 1 in Hsteps.
        destruct (pickVersion (manualVer fl) entries) as [e|v].
        -- injection Hsteps as <-. by left.
        -- unfold okOrExit at 1 in Hsteps.
           destruct (RunBuildAll v (with_fs (with_fs w f1) f2)) as [w4 r] eqn:Hb.
           apply RunBuildAll_inv in Hb as (_ & _ & [[Tb Hb]|[Tb Hb]]).
           ++ destruct r; [|done]. injection Hsteps as <-. by left.
           ++ cbn [run fs with_fs] in Hb. rewrite Hfail in Hb. subst r.
              injection Hsteps as <-. right. by exists v.
      * injection Hsteps as <-. left.
        unfold orExit in H2.
        destruct (lift_fs _ (with_fs w f1)) as [w2' [e|x]] eqn:Hl; [|done].
        injection H2 as <-. by apply lift_fs_frame in Hl as [-> _].
    + injection Hsteps as <-. left.
      unfold okOrExit in H1.
      destruct (lift_fs _ w) as [w1' [e|]] eqn:Hl; [|done].
      injection H1 as <-. by apply lift_fs_frame in Hl as [-> _].
Qed.

Lemma failed_build_stops_the_release_witness :
  (main quote_plain flags_live (world_refusing "bash")).2 = 1
  ∧ trace (main quote_plain flags_live (world_refusing "bash")).1
    = [["bash"; "../RelayClient/build/build-all.sh"; "0.0.1"]].
Proof.
  destruct (failed_build_stops_the_release quote_plain flags_live
              (world_refusing "bash")
              (main quote_plain flags_live (world_refusing "bash")).1
              (main quote_plain flags_live (world_refusing "bash")).2)
    as [Hc _].
  - reflexivity.
  - by destruct (main quote_plain flags_live (world_refusing "bash")).
  - split; [exact Hc|]. vm_compute. reflexivity.
Defined.

(** X24: What a release that ends well leaves in the manifest, when the
    commands sent to the remote host leave the local files alone, in dry
    mode as in live mode. The run has gone through the local part of
    [main], which fixes the entries loaded at the start, the version
    picked, the files staged and the links built from their checksums;
    the manifest file holds the encoding of those entries with the new
    entry put in by [upsertEntry]. The new entry carries the version
    picked, the time of the run, and one link for every staged file, in
    staging order, with the path of the file under the directory of the
    version; the checksum of a link is the digest of the bytes at its
    path when the process ends, unless that path is the manifest
    itself. *)
Theorem release_is_recorded_in_manifest
    (Quote : string → string) (fl : Flags) (w w' : World) :
  remote_keeps_files w →
  main Quote fl w = (w', 0) →
  ∃ entries v files links w8,
    local_steps fl w entries v files links w8
    ∧ elems files ≠ []
    ∧ Link <$> elems links
      = (λ file, Join [Join [dlDir; v]; file]) <$> elems files
    ∧ Forall (λ l, Link l ≠ jsonName fl →
                   Checksum l
                   = EncodeToString (sha256.Sum256 (content (fs w') (Link l))))
        (elems links)
    ∧ content (fs w') (jsonName fl)
      = json.MarshalIndent (upsertEntry entries (mkEntry v (now w) links)).
Proof.
  intros Hk Hmain. unfold main in Hmain.
  destruct (main_steps Quote fl w) as [w0 [u|]] eqn:Hsteps; [|done].
  injection Hmain as ->.
  apply main_steps_local in Hsteps
    as (entries & v & files & links & w8 & Hlocal & Hp).
  exists entries, v, files, links, w8. split; [done|].
  pose proof (local_steps_world _ _ _ _ _ _ _ Hlocal) as (_ & _ & Rb).
  destruct Hlocal
    as (f1 & f2 & w4 & f5 & f6 & f8 & _ & _ & _ & _ & _ & Hst & Hc & Hw & ->).
  apply publish_inv in Hp as [_ Fp]. cbn [fs with_fs] in Fp.
  rewrite Fp by (unfold remote_keeps_files; by rewrite Rb).
  apply collect_ok in Hst as (_ & _ & _ & _ & Hne).
  apply checksum_each_inr in Hc. cbn [elems app] in Hc.
  apply writeEntries_ok in Hw as [_ ->].
  split_and!; [done| | |].
  - rewrite Hc, <- list_fmap_compose. done.
  - rewrite Hc. apply Forall_fmap, Forall_forall. intros file _ Hl.
    cbn [Link Checksum compose] in *. unfold content. cbn [nodes with_nodes].
    by rewrite lookup_insert_ne.
  - unfold content. cbn [nodes with_nodes]. by rewrite lookup_insert_eq.
Qed.

Lemma release_is_recorded_in_manifest_witness :
  content (fs (main quote_plain flags_dry world_release).1) "relayClient.json"
  = json.MarshalIndent
      (Some [mkEntry "0.0.1" 1700000000000000000
               (Some [mkDownloadInfo "downloads/0.0.1/client-0.0.1.zip"
                        (EncodeToString (sha256.Sum256 "PK-client"))])]).
Proof.
  destruct (release_is_recorded_in_manifest quote_plain flags_dry world_release
              (main quote_plain flags_dry world_release).1)
    as (entries & v & files & links & w8 & _).
  - intros argv f _. reflexivity.
  - vm_compute. reflexivity.
  - vm_compute. reflexivity.
Defined.

(** ** The manifest is saved before the remote host is reached *)

Section Ordering.

Variable Quote : string → string.

Implicit Types (w : World) (fl : Flags).

Lemma okOrExit_lift_fs_None (m : FS → FS * option error) w w' :
  okOrExit (lift_fs m) w = (w', None) → trace w' = trace w.
Proof.
  unfold okOrExit. destruct (lift_fs m w) as [w1 [e|]] eqn:H; [|done].
  intros [= <-]. by apply lift_fs_frame in H as [-> _].
Qed.

Lemma orExit_lift_fs_None {A} (m : FS → FS * (error + A)) w w' :
  orExit (lift_fs m) w = (w', None) → trace w' = trace w.
Proof.
  unfold orExit. destruct (lift_fs m w) as [w1 [e|x]] eqn:H; [|done].
  intros [= <-]. by apply lift_fs_frame in H as [-> _].
Qed.

(** [publish] leaves the local files alone however it ends. *)
Lemma publish_fs fl v versionDir files w w' r :
  publish Quote fl v versionDir files w = (w', r) →
  remote_keeps_files w → fs w' = fs w.
Proof.
  unfold publish. intros H Hk.
  apply pbind_inv in H as [[H _]|(w1 & [] & H1 & H)].
  - unfold okOrExit in H.
    destruct (ensureRemoteDir _ _ _ w) as [w1 [e|]] eqn:He; [|done].
    injection H as <-. apply ensureRemoteDir_inv in He as (_ & _ & _ & F). auto.
  - unfold okOrExit in H1.
    destruct (ensureRemoteDir _ _ _ w) as [w1' [e|]] eqn:He; [done|].
    injection H1 as ->. apply ensureRemoteDir_inv in He as (_ & _ & R1 & F1).
    assert (remote_keeps_files w1) as K1 by (unfold remote_keeps_files; by rewrite R1).
    rewrite <- F1 by done. clear F1.
    destruct (dryRun fl); cbn [negb] in H; [by injection H as <- _|].
    apply pbind_inv in H as [[H _]|(w2 & [] & H2 & H)].
    { unfold okOrExit in H.
      destruct (uploadWithScp _ _ _ _ w1) as [w2 [e|]] eqn:U; [|done].
      injection H as <-.
      apply uploadWithScp_spec in U as (_ & _ & _ & _ & _ & _ & F & _). auto. }
    unfold okOrExit in H2.
    destruct (uploadWithScp _ _ _ _ w1) as [w2' [e|]] eqn:U2; [done|].
    injection H2 as ->.
    apply uploadWithScp_spec in U2 as (_ & _ & _ & _ & _ & R2 & F2 & _).
    assert (remote_keeps_files w2) as K2
      by (unfold remote_keeps_files; by rewrite R2, R1).
    rewrite <- F2 by done. clear F2.
    apply pbind_inv in H as [[H _]|(w3 & [] & H3 & H)].
    { unfold okOrExit in H.
      destruct (uploadWithScp _ _ _ _ w2) as [w3 [e|]] eqn:U; [|done].
      injection H as <-.
      apply uploadWithScp_spec in U as (_ & _ & _ & _ & _ & _ & F & _). auto. }
    unfold okOrExit in H3.
    destruct (uploadWithScp _ _ _ _ w2) as [w3' [e|]] eqn:U3; [done|].
    injection H3 as ->.
    apply uploadWithScp_spec in U3 as (_ & _ & _ & _ & _ & R3 & F3 & _).
    assert (remote_keeps_files w3) as K3
      by (unfold remote_keeps_files; by rewrite R3, R2, R1).
    rewrite <- F3 by done. clear F3.
    unfold okOrExit in H.
    destruct (updateLatestFileSymlinks _ _ _ _ _ _ w3) as [w4 [e|]] eqn:U4;
      injection H as <-;
      apply updateLatestFileSymlinks_spec in U4 as (_ & _ & _ & _ & _ & _ & F & _);
      auto.
Qed.

(** A run of [main] either leaves before the manifest is saved, having
    run the build at most, or goes through the local part and on to
    [publish]. *)
Lemma main_steps_cases fl w w' r :
  main_steps Quote fl w = (w', r) →
  (r = None ∧ (trace w' = trace w ∨ ∃ v, trace w' = trace w ++ [build_command v]))
  ∨ ∃ entries v files links w8,
      local_steps fl w entries v files links w8
      ∧ publish Quote fl v (Join [dlDir; v]) files w8 = (w', r).
Proof.
  intros H. unfold main_steps in H.
  apply pbind_inv in H as [[H ->]|(w1 & [] & H1 & H)].
  { left. split; [done|]. left. by apply okOrExit_lift_fs_None in H. }
  apply okOrExit_lift_fs_inv in H1 as (f1 & H1%fs_step_inv & ->).
  apply pbind_inv in H as [[H ->]|(w2 & entries & H2 & H)].
  { left. split; [done|]. left. by apply orExit_lift_fs_None in H. }
  apply orExit_lift_fs_inv in H2 as (f2 & H2 & ->).
  apply pbind_inv in H as [[H ->]|(w3 & v & H3 & H)].
  { left. split; [done|]. left. unfold orExit, pure_step in H.
    destruct (pickVersion _ _); by simplify_eq. }
  assert (pickVersion (manualVer fl) entries = inr v ∧ w3 = with_fs w f2)
    as [Hv ->].
  { unfold orExit, pure_step in H3. destruct (pickVersion _ _); by simplify_eq. }
  apply pbind_inv in H as [[H ->]|(w4 & [] & H4 & H)].
  { left. split; [done|]. unfold okOrExit in H.
    destruct (RunBuildAll v (with_fs w f2)) as [w4 [e|]] eqn:Hb; [|done].
    injection H as <-.
    apply RunBuildAll_inv in Hb as (_ & _ & [[T _]|[T _]]); [by left|].
    right. by exists v. }
  assert (RunBuildAll v (with_fs w f2) = (w4, None)) as Hb.
  { unfold okOrExit in H4.
    destruct (RunBuildAll v (with_fs w f2)) as [w4' [e|]]; by simplify_eq. }
  pose proof Hb as (Nb & Rb & [[_ Hn]|[Tb _]])%RunBuildAll_inv; [done|].
  cbn [now run trace with_fs] in Nb, Rb, Tb.
  apply pbind_inv in H as [[H ->]|(w5 & [] & H5 & H)].
  { left. split; [done|]. right. exists v.
    apply okOrExit_lift_fs_None in H. by rewrite H. }
  apply okOrExit_lift_fs_inv in H5 as (f5 & H5%fs_step_inv & ->).
  apply pbind_inv in H as [[H ->]|(w6 & files & H6 & H)].
  { left. split; [done|]. right. exists v.
    apply orExit_lift_fs_None in H. by rewrite H. }
  apply orExit_lift_fs_inv in H6 as (f6 & H6 & ->).
  apply pbind_inv in H as [[H ->]|(w7 & links & H7 & H)].
  { left. split; [done|]. right. exists v. unfold orExit in H. simpl in H.
    destruct (checksum_each _ _ _ f6); by simplify_eq. }
  assert (checksum_each (Join [dlDir; v]) (elems files) None f6 = inr links
          ∧ w7 = with_fs w4 f6) as [Hc ->].
  { unfold orExit in H7. simpl in H7.
    destruct (checksum_each _ _ _ f6); by simplify_eq. }
  apply pbind_inv in H as [[H ->]|(w8 & [] & H8 & H)].
  { left. split; [done|]. right. exists v.
    apply okOrExit_lift_fs_None in H. by rewrite H. }
  apply okOrExit_lift_fs_inv in H8 as (f8 & H8 & ->).
  cbn [now with_fs] in H8. rewrite Nb in H8.
  right. exists entries, v, files, links, (with_fs w4 f8). split; [|done].
  by exists f1, f2, w4, f5, f6, f8.
Qed.

End Ordering.

(** X25: The remote host is reached only after the manifest was saved, and a
    release that fails there stays recorded: whenever the process has run
    a command on or to the remote host, and such commands leave the local
    files alone, the run has gone through the local part of [main], which
    fixes the entries loaded, the version picked, the files staged and the
    links, and the manifest file holds the encoding of those entries with
    the new entry put in, whether the process ends well or not. *)
Theorem manifest_is_saved_before_remote_commands
    (Quote : string → string) (fl : Flags) (w w' : World) (code : Z) :
  remote_keeps_files w →
  main Quote fl w = (w', code) →
  filter (λ argv, is_remote argv = true) (drop (length (trace w)) (trace w')) ≠ [] →
  ∃ entries v files links w8,
    local_steps fl w entries v files links w8
    ∧ content (fs w') (jsonName fl)
      = json.MarshalIndent (upsertEntry entries (mkEntry v (now w) links)).
Proof.
  intros Hk Hmain Hremote. unfold main in Hmain.
  destruct (main_steps Quote fl w) as [w0 r] eqn:Hsteps.
  assert (w0 = w') as -> by (destruct r; by simplify_eq). clear Hmain.
  apply main_steps_cases in Hsteps
    as [[_ [T|[v T]]]|(entries & v & files & links & w8 & Hlocal & Hp)].
  - exfalso. apply Hremote. by rewrite T, drop_ge.
  - exfalso. apply Hremote. by rewrite T, drop_app_length.
  - exists entries, v, files, links, w8. split; [done|].
    pose proof (local_steps_world _ _ _ _ _ _ _ Hlocal) as (_ & _ & Rb).
    destruct Hlocal
      as (f1 & f2 & w4 & f5 & f6 & f8 & _ & _ & _ & _ & _ & _ & _ & Hw & ->).
    apply publish_fs in Hp; [|unfold remote_keeps_files; by rewrite Rb].
    cbn [fs with_fs] in Hp. rewrite Hp.
    apply writeEntries_ok in Hw as [_ ->].
    unfold content. cbn [nodes with_nodes]. by rewrite lookup_insert_eq.
Qed.

Lemma manifest_is_saved_before_remote_commands_witness :
  (main quote_plain flags_live (world_refusing "relayClient.json")).2 = 1
  ∧ content (fs (main quote_plain flags_live (world_refusing "relayClient.json")).1)
      "relayClient.json"
    = json.MarshalIndent
        (Some [mkEntry "0.0.1" 1700000000000000000
                 (Some [mkDownloadInfo "downloads/0.0.1/client-0.0.1.zip"
                          (EncodeToString (sha256.Sum256 "PK-client"))])]).
Proof.
  destruct (manifest_is_saved_before_remote_commands quote_plain flags_live
              (world_refusing "relayClient.json")
              (main quote_plain flags_live (world_refusing "relayClient.json")).1
              (main quote_plain flags_live (world_refusing "relayClient.json")).2)
    as (entries & v & files & links & w8 & _).
  - intros argv f _. reflexivity.
  - by destruct (main quote_plain flags_live (world_refusing "relayClient.json")).
  - vm_compute. discriminate.
  - split; vm_compute; reflexivity.
Defined.

(** X20: The commands of a release come in one fixed order, and the first
    that ends badly ends the run. Once the local part of [main] has gone
    through, with the version and the staged files it fixes, the process
    runs the commands of the remote part in their order, each in the
    world the one before it left: the creation of the remote directory
    and, unless the run is dry, one transfer for every staged file, the
    transfer of the manifest and one alias command for every staged file.
    The exit status is 0 exactly when every one of them ends well, and
    then all were run. Otherwise the status is 1, the commands run are a
    front part of the sequence, the last of them ended badly and those
    before it ended well. Before them the process has run the build, and
    nothing else. *)
Theorem commands_follow_release_order
    (Quote : string → string) (fl : Flags) (w w' : World) (code : Z)
    (entries : slice Entry) (v : string) (files : slice string)
    (links : slice downloadInfo) (w8 : World) :
  local_steps fl w entries v files links w8 →
  main Quote fl w = (w', code) →
  (code = 0 ↔ all_end_well (remote_commands Quote fl v (elems files)) w8 = true)
  ∧ ∃ ran rest,
      remote_commands Quote fl v (elems files) = ran ++ rest
      ∧ w' = run_list ran w8
      ∧ trace w' = trace w ++ build_command v :: ran
      ∧ (code = 0 ∧ rest = []
         ∨ code = 1
           ∧ ∃ before argv,
               ran = before ++ [argv]
               ∧ all_end_well before w8 = true
               ∧ ends_well argv (run_list before w8) = false).
Proof.
  intros Hlocal Hmain. unfold main in Hmain.
  rewrite (main_steps_publish Quote fl w entries v files links w8 Hlocal) in Hmain.
  destruct (publish Quote fl v (Join [dlDir; v]) files w8) as [w0 r] eqn:Hp.
  apply publish_stops in Hp as (ran & rest & E & -> & Hres).
  pose proof (local_steps_world _ _ _ _ _ _ _ Hlocal) as (Tb & _ & _).
  destruct (run_list_inv ran w8) as (T & _ & _).
  destruct r as [u|]; injection Hmain as <- <-.
  - destruct Hres as [-> Hall]. rewrite app_nil_r in E. split.
    + by rewrite E.
    + exists ran, []. split; [by rewrite app_nil_r|]. split; [done|].
      split; [by rewrite T, Tb, <- app_assoc|]. by left.
  - destruct Hres as (before & argv & -> & Hb & Hbad). split.
    + split; [done|]. rewrite E, <- app_assoc, all_end_well_app, Hb.
      cbn [app all_end_well andb]. by rewrite Hbad.
    + exists (before ++ [argv]), rest. split; [done|]. split; [done|].
      split; [by rewrite T, Tb, <- app_assoc|]. right. split; [done|].
      by exists before, argv.
Qed.

Lemma commands_follow_release_order_witness :
  ∃ w8,
    local_steps flags_live (world_refusing "relayClient.json")
      (Some []) "0.0.1" (Some ["client-0.0.1.zip"])
      (Some [mkDownloadInfo "downloads/0.0.1/client-0.0.1.zip"
               (EncodeToString (sha256.Sum256 "PK-client"))]) w8
    ∧ (main quote_plain flags_live (world_refusing "relayClient.json")).2 = 1
    ∧ trace (main quote_plain flags_live (world_refusing "relayClient.json")).1
      = [["bash"; "../RelayClient/build/build-all.sh"; "0.0.1"];
         ["ssh"; "user@host.ext";
          "mkdir -p /home/user/www/public_html/downloads/0.0.1"];
         ["scp"; "downloads/0.0.1/client-0.0.1.zip";
          "user@host.ext:/home/user/www/public_html/downloads/0.0.1"];
         ["scp"; "relayClient.json"; "user@host.ext:/home/user/www/public_html"]]
    ∧ all_end_well
        (remote_commands quote_plain flags_live "0.0.1" ["client-0.0.1.zip"]) w8
      ≠ true.
Proof.
  assert (∃ w8,
            local_steps flags_live (world_refusing "relayClient.json")
              (Some []) "0.0.1" (Some ["client-0.0.1.zip"])
              (Some [mkDownloadInfo "downloads/0.0.1/client-0.0.1.zip"
                       (EncodeToString (sha256.Sum256 "PK-client"))]) w8)
    as [w8 Hlocal].
  { set (w := world_refusing "relayClient.json").
    set (f2 := (readEntries "relayClient.json"
                  (fs_step (MkdirAll dlDir 493) (fs w)).1).1).
    set (w4 := (RunBuildAll "0.0.1" (with_fs w f2)).1).
    set (f6 := (collectAndRenameZips "../RelayClient" "downloads/0.0.1" "0.0.1"
                  (fs_step (MkdirAll "downloads/0.0.1" 493) (fs w4)).1).1).
    set (f8 := (writeEntries "relayClient.json"
                  (Some [mkEntry "0.0.1" 1700000000000000000
                           (Some [mkDownloadInfo "downloads/0.0.1/client-0.0.1.zip"
                                    (EncodeToString (sha256.Sum256 "PK-client"))])])
                  f6).1).
    exists (with_fs w4 f8).
    exists (fs_step (MkdirAll dlDir 493) (fs w)).1, f2, w4,
           (fs_step (MkdirAll "downloads/0.0.1" 493) (fs w4)).1, f6, f8.
    split; [vm_compute; reflexivity|]. split; [vm_compute; reflexivity|].
    split; [vm_compute; reflexivity|]. split; [vm_compute; reflexivity|].
    split; [vm_compute; reflexivity|]. split; [vm_compute; reflexivity|].
    split; [vm_compute; reflexivity|]. split; [vm_compute; reflexivity|].
    reflexivity. }
  exists w8. split; [exact Hlocal|].
  destruct (commands_follow_release_order quote_plain flags_live
              (world_refusing "relayClient.json")
              (main quote_plain flags_live (world_refusing "relayClient.json")).1
              (main quote_plain flags_live (world_refusing "relayClient.json")).2
              (Some []) "0.0.1" (Some ["client-0.0.1.zip"])
              (Some [mkDownloadInfo "downloads/0.0.1/client-0.0.1.zip"
                       (EncodeToString (sha256.Sum256 "PK-client"))]) w8 Hlocal)
    as [Hiff _].
  - by destruct (main quote_plain flags_live (world_refusing "relayClient.json")).
  - split; [vm_compute; reflexivity|]. split; [vm_compute; reflexivity|].
    intros Hall. apply Hiff in Hall. vm_compute in Hall. discriminate Hall.
Defined.

(** ** The automatic version is new to the manifest *)

Section Fresh.

Implicit Types (a b c : string) (v : semver.Version).

(** The parser on three numbers. *)
Lemma NewVersion_three a b c :
  a ≠ EmptyString → b ≠ EmptyString → c ≠ EmptyString →
  string_forallb is_digit a = true → string_forallb is_digit b = true →
  string_forallb is_digit c = true →
  digits_value 0 a < 2 ^ 64 → digits_value 0 b < 2 ^ 64 →
  digits_value 0 c < 2 ^ 64 →
  semver.NewVersion (a +:+ "." +:+ b +:+ "." +:+ c)
  = Some (semver.mkVersion (digits_value 0 a) (digits_value 0 b)
            (digits_value 0 c) EmptyString EmptyString
            (a +:+ "." +:+ b +:+ "." +:+ c)).
Proof.
  intros Na Nb Nc Da Db Dc Va Vb Vc.
  unfold semver.NewVersion, semver.submatch.
  destruct a as [|x a]; [done|].
  pose proof Da as Hx. cbn [string_forallb] in Hx.
  apply andb_true_iff in Hx as [Hx _].
  change (String x a +:+ "." +:+ b +:+ "." +:+ c)
    with (String x (a +:+ "." +:+ b +:+ "." +:+ c)).
  rewrite strip_v_digit by done.
  change (String x (a +:+ "." +:+ b +:+ "." +:+ c))
    with (String x a +:+ "." +:+ b +:+ "." +:+ c).
  rewrite span_digits_app by done.
  change ("." +:+ b +:+ "." +:+ c) with (String "." (b +:+ "." +:+ c)).
  rewrite dot_number_digits by done. cbn [mbind option_bind].
  rewrite <- (append_nil_r c) at 1.
  change ("." +:+ c +:+ EmptyString) with (String "." (c +:+ EmptyString)).
  rewrite dot_number_digits by done. cbn [mbind option_bind semver.suffix].
  rewrite (ParseUint64_digits (String x a)) by done. cbn [mbind option_bind].
  destruct (String.eqb_spec b EmptyString) as [|_]; [done|].
  rewrite (ParseUint64_digits b) by done. cbn [mbind option_bind].
  destruct (String.eqb_spec c EmptyString) as [|_]; [done|].
  rewrite (ParseUint64_digits c) by done. cbn [mbind option_bind].
  reflexivity.
Qed.

Lemma dec_digits n :
  0 <= n < 2 ^ 64 →
  dec n ≠ EmptyString ∧ string_forallb is_digit (dec n) = true
  ∧ digits_value 0 (dec n) = n.
Proof.
  intros Hn. destruct (dec_spec n) as (x & t & -> & Hd & Hv & _); [lia|done].
Qed.

(** The parser reads a printed version without pre-release and
    metadata back with the same numbers. *)
Lemma NewVersion_String_plain v :
  0 <= semver.major v < 2 ^ 64 → 0 <= semver.minor v < 2 ^ 64 →
  0 <= semver.patch v < 2 ^ 64 →
  semver.pre v = EmptyString → semver.metadata v = EmptyString →
  semver.NewVersion (semver.String_ v)
  = Some (semver.mkVersion (semver.major v) (semver.minor v) (semver.patch v)
            EmptyString EmptyString (semver.String_ v)).
Proof.
  intros Ha Hb Hc Hp Hm.
  assert (semver.String_ v
          = dec (semver.major v) +:+ "." +:+ dec (semver.minor v) +:+ "."
            +:+ dec (semver.patch v)) as ->.
  { unfold semver.String_. rewrite Hp, Hm.
    change (String.eqb EmptyString EmptyString) with true. cbv iota.
    change (EmptyString +:+ EmptyString) with EmptyString.
    by rewrite append_nil_r. }
  destruct (dec_digits _ Ha) as (Na & Da & Va).
  destruct (dec_digits _ Hb) as (Nb & Db & Vb).
  destruct (dec_digits _ Hc) as (Nc & Dc & Vc).
  rewrite (NewVersion_three _ _ _ Na Nb Nc Da Db Dc);
    [|rewrite Va; lia|rewrite Vb; lia|rewrite Vc; lia].
  rewrite Va, Vb, Vc. reflexivity.
Qed.

Lemma Compare_same_numbers v o :
  semver.major v = semver.major o → semver.minor v = semver.minor o →
  semver.patch v = semver.patch o →
  semver.pre v = EmptyString → semver.pre o = EmptyString →
  semver.Compare v o = 0.
Proof.
  intros Ha Hb Hc Hp Ho. unfold semver.Compare, semver.compareSegment.
  rewrite Ha, Hb, Hc, Hp, Ho, !Z.ltb_irrefl. reflexivity.
Qed.

End Fresh.

(** X6: An automatic release never takes the place of an earlier one. Unless
    the greatest version of the manifest has the largest patch number 64
    bits hold (and no pre-release), no entry of the manifest carries the
    version automatic mode picks, so the new entry is put behind the
    entries that were there, all of which stay as they are. *)
Theorem automatic_release_is_appended
    (entries : slice Entry) (date : Z) (links : slice downloadInfo) :
  semver.pre (highestVersion entries) ≠ EmptyString
  ∨ semver.patch (highestVersion entries) < 2 ^ 64 - 1 →
  Forall (λ e, Version e ≠ automaticVersion entries) (elems entries)
  ∧ upsertEntry entries (mkEntry (automaticVersion entries) date links)
    = Some (elems entries ++ [mkEntry (automaticVersion entries) date links]).
Proof.
  intros Hno.
  assert (Forall (λ e, Version e ≠ automaticVersion entries) (elems entries)) as Hfresh.
  { destruct (keep_highest_fold (elems entries) _ zero_version_wf)
      as (Hwf & _ & Hall & _).
    change (fold_left keep_highest (elems entries) (semver.MustParse "0.0.0"))
      with (highestVersion entries) in *.
    set (h := highestVersion entries) in *.
    destruct Hwf as (_ & Hma & Hmi & Hpa).
    set (n := semver.IncPatch h).
    assert (semver.major n = semver.major h ∧ semver.minor n = semver.minor h
            ∧ 0 <= semver.patch n < 2 ^ 64
            ∧ semver.pre n = EmptyString ∧ semver.metadata n = EmptyString)
      as (Ea & Eb & Ec & Ep & Em).
    { subst n. unfold semver.IncPatch.
      destruct (negb (String.eqb (semver.pre h) EmptyString));
        cbn [semver.major semver.minor semver.patch semver.pre semver.metadata];
        (split; [reflexivity|]); (split; [reflexivity|]);
        (split; [|split; reflexivity]).
      - exact Hpa.
      - apply Z.mod_pos_bound. lia. }
    pose proof (NewVersion_String_plain n) as Hparse.
    rewrite Ea, Eb in Hparse. specialize (Hparse Hma Hmi Ec Ep Em).
    apply Forall_forall. intros e Hin Heq.
    unfold automaticVersion in Heq. fold h in Heq. fold n in Heq.
    rewrite <- Heq in Hparse.
    pose proof (Hall e _ Hin Hparse) as Hle.
    pose proof (IncPatch_exceeds h _ (proj1 Hpa) Hno Hle) as Hgt.
    fold n in Hgt.
    rewrite Compare_same_numbers in Hgt by done. lia. }
  split; [done|]. by apply upsert_append.
Qed.

Lemma automatic_release_is_appended_witness :
  upsertEntry manifest_three (mkEntry "1.10.3" 5 None)
  = Some (elems manifest_three ++ [mkEntry "1.10.3" 5 None]).
Proof.
  pose proof (automatic_release_is_appended manifest_three 5 None) as H.
  change (automaticVersion manifest_three) with "1.10.3" in H.
  apply H. right. vm_compute. reflexivity.
Defined.

(** At the largest patch number the counter wraps around, and the
    automatic version can be one the manifest has: the release then takes
    the place of that entry. *)
Example automatic_release_replaces_after_wrap :
  automaticVersion (Some [mkEntry "0.0.0" 1 None;
                          mkEntry "0.0.18446744073709551615" 2 None])
  = "0.0.0"
  ∧ upsertEntry (Some [mkEntry "0.0.0" 1 None;
                       mkEntry "0.0.18446744073709551615" 2 None])
      (mkEntry "0.0.0" 3 None)
    = Some [mkEntry "0.0.0" 3 None; mkEntry "0.0.18446744073709551615" 2 None].
Proof. split; vm_compute; reflexivity. Qed.

(** ** A dry run against a live run *)

Section Rehearsal.

Variable Quote : string → string.

Implicit Types (w : World) (fl : Flags).

Lemma scp_command_remote hp user dir local :
  is_remote (scp_command hp user dir local) = true.
Proof. unfold scp_command. by destruct (parseHostPort hp). Qed.

Lemma ln_command_remote hp user base ver f :
  is_remote (ln_command Quote hp user base ver f) = true.
Proof. unfold ln_command. by destruct (parseHostPort hp). Qed.

(** What the live part of [publish] adds to the commands, however it
    ends. *)
Lemma live_part_trace fl v versionDir (files : slice string) w w' r :
  pbind (okOrExit (uploadWithScp (hostPort fl) (user fl)
                     (TrimRight (remoteDir fl) "/" +:+ "/" +:+ dlDir +:+ "/" +:+ v)
                     ((λ f, Join [versionDir; f]) <$> elems files))) (λ _,
  pbind (okOrExit (uploadWithScp (hostPort fl) (user fl) (remoteDir fl)
                     [jsonName fl])) (λ _,
  okOrExit (updateLatestFileSymlinks Quote (hostPort fl) (user fl)
              (remoteDir fl +:+ "/" +:+ dlDir) v (elems files)))) w = (w', r) →
  ∃ more, trace w' = trace w ++ more
          ∧ Forall (λ argv, is_remote argv = true) more.
Proof.
  intros H.
  assert (∀ hp user dir l,
            Forall (λ argv, is_remote argv = true) (scp_command hp user dir <$> l))
    as Hscp.
  { intros. apply Forall_fmap, Forall_forall. intros x _.
    apply scp_command_remote. }
  assert (∀ hp user base ver l,
            Forall (λ argv, is_remote argv = true)
              (ln_command Quote hp user base ver <$> l)) as Hln.
  { intros. apply Forall_fmap, Forall_forall. intros x _.
    apply ln_command_remote. }
  apply pbind_inv in H as [[H _]|(w2 & [] & H2 & H)].
  { unfold okOrExit in H.
    destruct (uploadWithScp _ _ _ _ w) as [w2 [e|]] eqn:U; [|done].
    injection H as <-.
    apply uploadWithScp_spec in U as (s & _ & _ & T & _). eauto. }
  unfold okOrExit in H2.
  destruct (uploadWithScp _ _ _ _ w) as [w2' [e|]] eqn:U2; [done|].
  injection H2 as ->.
  apply uploadWithScp_spec in U2 as (s2 & _ & _ & T2 & _).
  apply pbind_inv in H as [[H _]|(w3 & [] & H3 & H)].
  { unfold okOrExit in H.
    destruct (uploadWithScp _ _ _ _ w2) as [w3 [e|]] eqn:U; [|done].
    injection H as <-.
    apply uploadWithScp_spec in U as (s & _ & _ & T & _).
    eexists. split; [by rewrite T, T2, <- app_assoc|].
    apply Forall_app. eauto. }
  unfold okOrExit in H3.
  destruct (uploadWithScp _ _ _ _ w2) as [w3' [e|]] eqn:U3; [done|].
  injection H3 as ->.
  apply uploadWithScp_spec in U3 as (s3 & _ & _ & T3 & _).
  unfold okOrExit in H.
  assert (∃ s4, trace w' = trace w3
                           ++ (ln_command Quote (hostPort fl) (user fl)
                                 (remoteDir fl +:+ "/" +:+ dlDir) v <$> s4))
    as [s4 T4].
  { destruct (updateLatestFileSymlinks _ _ _ _ _ _ w3) as [w4 [e|]] eqn:U4;
      injection H as <- _;
      apply updateLatestFileSymlinks_spec in U4 as (s & _ & _ & T & _); eauto. }
  eexists. split; [by rewrite T4, T3, T2, <- !app_assoc|].
  apply Forall_app. split; [done|]. apply Forall_app. eauto.
Qed.

(** [publish] in dry mode and in live mode, from the same world. *)
Lemma publish_pair fl v versionDir files w wd rd wl rl :
  publish Quote (set_dry true fl) v versionDir files w = (wd, rd) →
  publish Quote (set_dry false fl) v versionDir files w = (wl, rl) →
  (∃ more, trace wl = trace wd ++ more
           ∧ Forall (λ argv, is_remote argv = true) more)
  ∧ (rd = None → rl = None).
Proof.
  unfold publish.
  cbn [dryRun hostPort user remoteDir jsonName set_dry negb].
  intros Hd Hl.
  apply pbind_inv in Hd as [[Hd ->]|(w1 & [] & H1 & Hd)].
  - unfold pbind in Hl. rewrite Hd in Hl. injection Hl as <- <-.
    split; [|done]. exists []. by rewrite app_nil_r.
  - unfold pbind at 1 in Hl. rewrite H1 in Hl.
    unfold pret in Hd. injection Hd as <- <-.
    split; [|done]. by eapply live_part_trace.
Qed.

(** The two runs share everything in front of [publish]. *)
Lemma main_steps_pair fl w wd rd wl rl :
  main_steps Quote (set_dry true fl) w = (wd, rd) →
  main_steps Quote (set_dry false fl) w = (wl, rl) →
  (wd = wl ∧ rd = None ∧ rl = None)
  ∨ ∃ v versionDir files w8,
      run w8 = run w
      ∧ publish Quote (set_dry true fl) v versionDir files w8 = (wd, rd)
      ∧ publish Quote (set_dry false fl) v versionDir files w8 = (wl, rl).
Proof.
  unfold main_steps.
  cbn [srcDir manualVer jsonName set_dry].
  intros Hd Hl.
  apply pbind_inv in Hd as [[Hd ->]|(w1 & [] & H1 & Hd)].
  { unfold pbind in Hl. rewrite Hd in Hl. injection Hl as <- <-. by left. }
  unfold pbind at 1 in Hl. rewrite H1 in Hl.
  apply okOrExit_lift_fs_inv in H1 as (f1 & _ & ->).
  apply pbind_inv in Hd as [[Hd ->]|(w2 & entries & H2 & Hd)].
  { unfold pbind in Hl. rewrite Hd in Hl. injection Hl as <- <-. by left. }
  unfold pbind at 1 in Hl. rewrite H2 in Hl.
  apply orExit_lift_fs_inv in H2 as (f2 & _ & ->).
  apply pbind_inv in Hd as [[Hd ->]|(w3 & v & H3 & Hd)].
  { unfold pbind in Hl. rewrite Hd in Hl. injection Hl as <- <-. by left. }
  unfold pbind at 1 in Hl. rewrite H3 in Hl.
  assert (w3 = with_fs w f2) as ->.
  { unfold orExit, pure_step in H3. destruct (pickVersion _ _); by simplify_eq. }
  apply pbind_inv in Hd as [[Hd ->]|(w4 & [] & H4 & Hd)].
  { unfold pbind in Hl. rewrite Hd in Hl. injection Hl as <- <-. by left. }
  unfold pbind at 1 in Hl. rewrite H4 in Hl.
  assert (run w4 = run w) as R4.
  { unfold okOrExit in H4.
    destruct (RunBuildAll v (with_fs w f2)) as [w4' [e|]] eqn:Hb; [done|].
    injection H4 as <-. by apply RunBuildAll_inv in Hb as (_ & ? & _). }
  apply pbind_inv in Hd as [[Hd ->]|(w5 & [] & H5 & Hd)].
  { unfold pbind in Hl. rewrite Hd in Hl. injection Hl as <- <-. by left. }
  unfold pbind at 1 in Hl. rewrite H5 in Hl.
  apply okOrExit_lift_fs_inv in H5 as (f5 & _ & ->).
  apply pbind_inv in Hd as [[Hd ->]|(w6 & files & H6 & Hd)].
  { unfold pbind in Hl. rewrite Hd in Hl. injection Hl as <- <-. by left. }
  unfold pbind at 1 in Hl. rewrite H6 in Hl.
  apply orExit_lift_fs_inv in H6 as (f6 & _ & ->).
  apply pbind_inv in Hd as [[Hd ->]|(w7 & links & H7 & Hd)].
  { unfold pbind in Hl. rewrite Hd in Hl. injection Hl as <- <-. by left. }
  unfold pbind at 1 in Hl. rewrite H7 in Hl.
  assert (w7 = with_fs w4 f6) as ->.
  { unfold orExit in H7. simpl in H7.
    destruct (checksum_each _ _ _ f6); by simplify_eq. }
  apply pbind_inv in Hd as [[Hd ->]|(w8 & [] & H8 & Hd)].
  { unfold pbind in Hl. cbn [now with_fs] in Hd, Hl. rewrite Hd in Hl.
    injection Hl as <- <-. by left. }
  unfold pbind at 1 in Hl. cbn [now with_fs] in H8, Hl. rewrite H8 in Hl.
  apply okOrExit_lift_fs_inv in H8 as (f8 & _ & ->).
  right. exists v, (Join [dlDir; v]), files, (with_fs w4 f8). done.
Qed.

End Rehearsal.

(** X26: A dry run rehearses the live run. From the same world and with the
    same flags but for the dry-run flag, and when the commands sent to
    the remote host leave the local files alone: the two runs leave the
    same local files; the commands of the dry run are the first commands
    of the live run, and what the live run runs beyond them goes to the
    remote host; and a live run that ends with status 0 means that the dry
    run does. *)
Theorem dry_run_rehearses_live_run
    (Quote : string → string) (fl : Flags) (w : World) :
  remote_keeps_files w →
  fs (main Quote (set_dry true fl) w).1 = fs (main Quote (set_dry false fl) w).1
  ∧ (∃ more,
       trace (main Quote (set_dry false fl) w).1
       = trace (main Quote (set_dry true fl) w).1 ++ more
       ∧ Forall (λ argv, is_remote argv = true) more)
  ∧ ((main Quote (set_dry false fl) w).2 = 0 →
     (main Quote (set_dry true fl) w).2 = 0).
Proof.
  intros Hk. unfold main.
  destruct (main_steps Quote (set_dry true fl) w) as [wd rd] eqn:Hd.
  destruct (main_steps Quote (set_dry false fl) w) as [wl rl] eqn:Hl.
  assert (fs wd = fs wl
          ∧ (∃ more, trace wl = trace wd ++ more
                     ∧ Forall (λ argv, is_remote argv = true) more)
          ∧ (rd = None → rl = None)) as (F & T & R).
  { destruct (main_steps_pair Quote fl w wd rd wl rl Hd Hl)
      as [(-> & -> & ->)|(v & vd & files & w8 & R8 & Pd & Pl)].
    - split; [done|]. split; [|done]. exists []. by rewrite app_nil_r.
    - assert (remote_keeps_files w8) as K8
        by (unfold remote_keeps_files; by rewrite R8).
      pose proof (publish_fs Quote _ _ _ _ _ _ _ Pd K8) as Fd.
      pose proof (publish_fs Quote _ _ _ _ _ _ _ Pl K8) as Fl.
      split; [congruence|]. by eapply publish_pair. }
  split; [by destruct rd, rl|]. split; [by destruct rd, rl|].
  destruct rl as [[]|]; [|done]. intros _.
  destruct rd as [[]|]; [done|]. by specialize (R eq_refl).
Qed.

Lemma dry_run_rehearses_live_run_witness :
  fs (main quote_plain (set_dry true flags_live) world_release).1
  = fs (main quote_plain (set_dry false flags_live) world_release).1
  ∧ length (trace (main quote_plain (set_dry true flags_live) world_release).1)
    = 2%nat
  ∧ length (trace (main quote_plain (set_dry false flags_live) world_release).1)
    = 5%nat.
Proof.
  destruct (dry_run_rehearses_live_run quote_plain flags_live world_release)
    as (F & _ & _).
  - intros argv f _. reflexivity.
  - split; [exact F|]. split; vm_compute; reflexivity.
Defined.

(** ** The paths a release writes *)

Section Confined.

Variable Quote : string → string.

Implicit Types (w : World) (fl : Flags) (f : FS).

Lemma MkdirAll_frame p perm f f' :
  MkdirAll p perm f = inr f' →
  (∀ q, q ≠ p → nodes f' !! q = nodes f !! q)
  ∧ ∀ s, listing_at f' s = listing_at f s.
Proof.
  unfold MkdirAll, listing_at.
  destruct (nodes f !! p) as [[x|m l]|] eqn:Hp; [done|by intros [= <-]|].
  destruct (decide (p ∈ denied f)); [done|]. intros [= <-]. simpl. split.
  - intros q Hq. by rewrite lookup_insert_ne.
  - intros s. destruct (decide (s = p)) as [->|Hs].
    + by rewrite lookup_insert_eq, Hp.
    + by rewrite lookup_insert_ne.
Qed.

Lemma writeEntries_frame path ents f f' r :
  writeEntries path ents f = (f', r) →
  ∀ q, q ≠ path → nodes f' !! q = nodes f !! q.
Proof.
  intros H q Hq. destruct r as [e|].
  - unfold writeEntries in H.
    destruct (WriteFile path _ 420 f); by simplify_eq.
  - apply writeEntries_ok in H as [_ ->]. simpl. by rewrite lookup_insert_ne.
Qed.

Lemma readEntries_frame path f f' r :
  readEntries path f = (f', r) →
  (∀ q, q ≠ path → nodes f' !! q = nodes f !! q)
  ∧ ∀ s, listing_at f' s = listing_at f s.
Proof.
  unfold readEntries, ReadFile.
  destruct (nodes f !! path) as [[x|m l]|] eqn:Hp.
  - destruct (json.Unmarshal (data x)); by intros [= <- _].
  - by intros [= <- _].
  - cbn [IsNotExist].
    destruct (writeEntries path (Some []) f) as [f1 [e|]] eqn:Hw.
    + unfold writeEntries in Hw.
      destruct (WriteFile path _ 420 f); [|done].
      injection Hw as <- _. by intros [= <- _].
    + intros [= <- _]. split; [by eapply writeEntries_frame|].
      apply writeEntries_ok in Hw as [_ ->]. intros s. unfold listing_at. simpl.
      destruct (decide (s = path)) as [->|Hs].
      * by rewrite lookup_insert_eq, Hp.
      * by rewrite lookup_insert_ne.
Qed.

Lemma collect_frame srcDir versionDir ver f f' r :
  collectAndRenameZips srcDir versionDir ver f = (f', r) →
  ∀ q, q ∉ (copy_jobs srcDir versionDir ver (listing_at f srcDir)).*2 →
       nodes f' !! q = nodes f !! q.
Proof.
  unfold collectAndRenameZips, ReadDir, listing_at. intros H q Hq.
  destruct (nodes f !! srcDir) as [[x|m l]|]; [by injection H as <- _| |by injection H as <- _].
  pose proof (stage_entries_frame srcDir versionDir ver l None f q Hq) as Hf.
  destruct (stage_entries _ _ _ l None f) as [f1 [err|out]].
  - by injection H as <- _.
  - destruct (Nat.eqb _ 0); by injection H as <- _.
Qed.

Lemma RunBuildAll_fs v w w' r :
  keeps_files w → RunBuildAll v w = (w', r) → fs w' = fs w ∧ run w' = run w.
Proof.
  intros Hk. unfold RunBuildAll. destruct (negb _); [by intros [= <- _]|].
  destruct (Run _ w) as [w1 [e|]] eqn:Hrun;
    apply Run_inv in Hrun as (_ & _ & Hr & Hf & _);
    intros [= <- _]; by rewrite Hf, Hk.
Qed.

Lemma okOrExit_lift_fs_any (m : FS → FS * option error) w w' r :
  okOrExit (lift_fs m) w = (w', r) → ∃ e, m (fs w) = (fs w', e) ∧ w' = with_fs w (fs w').
Proof.
  unfold okOrExit, lift_fs. destruct (m (fs w)) as [f' [e|]];
    intros [= <- _]; eauto.
Qed.

Lemma orExit_lift_fs_any {A} (m : FS → FS * (error + A)) w w' r :
  orExit (lift_fs m) w = (w', r) → ∃ e, m (fs w) = (fs w', e) ∧ w' = with_fs w (fs w').
Proof.
  unfold orExit, lift_fs. destruct (m (fs w)) as [f' [e|a]];
    intros [= <- _]; eauto.
Qed.

Lemma fs_step_MkdirAll_frame p perm f f' e :
  fs_step (MkdirAll p perm) f = (f', e) →
  (∀ q, q ≠ p → nodes f' !! q = nodes f !! q)
  ∧ ∀ s, listing_at f' s = listing_at f s.
Proof.
  unfold fs_step. destruct (MkdirAll p perm f) as [x|f1] eqn:H.
  - by intros [= <- _].
  - intros [= <- _]. by apply MkdirAll_frame in H.
Qed.

(** The local files after [main], whatever its end. *)
Lemma main_steps_frame fl w w' r :
  keeps_files w →
  main_steps Quote fl w = (w', r) →
  ∀ q,
    q ≠ dlDir → q ≠ jsonName fl →
    (∀ v, picked_version fl w v →
          q ≠ Join [dlDir; v]
          ∧ q ∉ (copy_jobs (srcDir fl) (Join [dlDir; v]) v
                   (listing_at (fs w) (srcDir fl))).*2) →
    nodes (fs w') !! q = nodes (fs w) !! q.
Proof.
  intros Hk H q Q1 Q2 Qv. unfold main_steps in H.
  apply pbind_inv in H as [[H ->]|(w1 & [] & H1 & H)].
  { apply okOrExit_lift_fs_any in H as (e & H & _).
    apply fs_step_MkdirAll_frame in H as [F _]. by apply F. }
  pose proof H1 as (f1 & M1%fs_step_inv & W1)%okOrExit_lift_fs_inv.
  apply okOrExit_lift_fs_any in H1 as (e1 & H1 & E1).
  apply fs_step_MkdirAll_frame in H1 as [F1 L1].
  apply pbind_inv in H as [[H ->]|(w2 & entries & H2 & H)].
  { apply orExit_lift_fs_any in H as (e & H & _).
    apply readEntries_frame in H as [F _]. rewrite F, F1 by done. done. }
  pose proof H2 as (f2 & M2 & W2)%orExit_lift_fs_inv.
  assert (fs w1 = f1) as Ef1 by (by rewrite W1). rewrite Ef1 in M2.
  apply orExit_lift_fs_any in H2 as (e2 & H2 & E2).
  apply readEntries_frame in H2 as [F2 L2].
  assert (run w2 = run w) as R2 by (by rewrite E2, E1).
  apply pbind_inv in H as [[H ->]|(w3 & v & H3 & H)].
  { unfold orExit, pure_step in H. destruct (pickVersion _ _); [|done].
    injection H as <-. rewrite F2, F1 by done. done. }
  assert (pickVersion (manualVer fl) entries = inr v ∧ w3 = w2) as [Hv ->].
  { unfold orExit, pure_step in H3. destruct (pickVersion _ _); by simplify_eq. }
  destruct (Qv v) as [Q3 Q4]; [by exists f1, f2, entries|].
  assert (keeps_files w2) as K2 by (unfold keeps_files; by rewrite R2).
  apply pbind_inv in H as [[H ->]|(w4 & [] & H4 & H)].
  { unfold okOrExit in H.
    destruct (RunBuildAll v w2) as [w4 [e|]] eqn:Hb; [|done].
    injection H as <-. apply RunBuildAll_fs in Hb as [F4 _]; [|done].
    rewrite F4, F2, F1 by done. done. }
  assert (fs w4 = fs w2 ∧ run w4 = run w2) as [F4 R4].
  { unfold okOrExit in H4.
    destruct (RunBuildAll v w2) as [w4' [e|]] eqn:Hb; [done|].
    injection H4 as <-. by apply RunBuildAll_fs in Hb. }
  apply pbind_inv in H as [[H ->]|(w5 & [] & H5 & H)].
  { apply okOrExit_lift_fs_any in H as (e & H & _).
    apply fs_step_MkdirAll_frame in H as [F _].
    rewrite F, F4, F2, F1 by done. done. }
  apply okOrExit_lift_fs_any in H5 as (e5 & H5 & E5).
  apply fs_step_MkdirAll_frame in H5 as [F5 L5].
  assert (listing_at (fs w5) (srcDir fl) = listing_at (fs w) (srcDir fl)) as L.
  { by rewrite L5, F4, L2, L1. }
  apply pbind_inv in H as [[H ->]|(w6 & files & H6 & H)].
  { apply orExit_lift_fs_any in H as (e & H & _).
    eapply collect_frame in H; [|by rewrite L].
    rewrite H, F5, F4, F2, F1 by done. done. }
  apply orExit_lift_fs_any in H6 as (e6 & H6 & E6).
  eapply collect_frame in H6; [|by rewrite L].
  assert (nodes (fs w6) !! q = nodes (fs w) !! q) as F6.
  { rewrite H6, F5, F4, F2, F1 by done. done. }
  apply pbind_inv in H as [[H ->]|(w7 & links & H7 & H)].
  { unfold orExit in H. simpl in H.
    destruct (checksum_each _ _ _ (fs w6)); [|done]. by injection H as <-. }
  assert (w7 = w6) as ->.
  { unfold orExit in H7. simpl in H7.
    destruct (checksum_each _ _ _ (fs w6)); by simplify_eq. }
  apply pbind_inv in H as [[H ->]|(w8 & [] & H8 & H)].
  { apply okOrExit_lift_fs_any in H as (e & H & _).
    eapply writeEntries_frame in H; [|done]. by rewrite H. }
  apply okOrExit_lift_fs_any in H8 as (e8 & H8 & E8).
  eapply writeEntries_frame in H8; [|exact Q2].
  apply publish_fs in H.
  - by rewrite H, H8.
  - intros argv f _. rewrite E8. cbn [run with_fs].
    rewrite E6, E5. cbn [run with_fs]. rewrite R4, R2. apply Hk.
Qed.

End Confined.

(** X27: What a release writes. When the commands it runs leave the local
    files alone, the process itself changes at most the downloads
    directory, the manifest and, for the version it picks from the flag
    and the manifest it loads, the directory of that version and the
    destinations of the copies staging makes of the archives the source
    directory lists; every other path, the archives themselves among
    them, is afterwards as it was, whatever the exit status. A run that
    ends before it has picked a version changes at most the downloads
    directory and the manifest. *)
Theorem release_writes_are_confined
    (Quote : string → string) (fl : Flags) (w w' : World) (code : Z) (q : string) :
  keeps_files w →
  main Quote fl w = (w', code) →
  q ≠ dlDir → q ≠ jsonName fl →
  (∀ v, picked_version fl w v →
        q ≠ Join [dlDir; v]
        ∧ q ∉ (copy_jobs (srcDir fl) (Join [dlDir; v]) v
                 (listing_at (fs w) (srcDir fl))).*2) →
  nodes (fs w') !! q = nodes (fs w) !! q.
Proof.
  intros Hk Hmain. unfold main in Hmain.
  destruct (main_steps Quote fl w) as [w0 r] eqn:Hsteps.
  assert (w0 = w') as -> by (destruct r; by simplify_eq).
  by eapply main_steps_frame.
Qed.

Lemma release_writes_are_confined_witness :
  picked_version flags_live world_release "0.0.1"
  ∧ nodes (fs (main quote_plain flags_live world_release).1)
      !! "../RelayClient/client.zip"
    = nodes (fs world_release) !! "../RelayClient/client.zip"
  ∧ nodes (fs (main quote_plain flags_live world_release).1)
      !! "downloads/0.0.1/client-0.0.1.zip"
    = Some (NFile (mkFile "PK-client" 420)).
Proof.
  split; [|split].
  - exists (fs_step (MkdirAll dlDir 493) (fs world_release)).1,
           (readEntries "relayClient.json"
              (fs_step (MkdirAll dlDir 493) (fs world_release)).1).1,
           (Some []).
    split; [vm_compute; reflexivity|]. split; vm_compute; reflexivity.
  - apply (release_writes_are_confined quote_plain flags_live world_release
             (main quote_plain flags_live world_release).1
             (main quote_plain flags_live world_release).2
             "../RelayClient/client.zip").
    + intros argv f. reflexivity.
    + by destruct (main quote_plain flags_live world_release).
    + discriminate.
    + discriminate.
    + intros v (f1 & f2 & entries & H1 & H2 & Hv).
      vm_compute in H1. injection H1 as <-.
      vm_compute in H2. injection H2 as <- <-.
      vm_compute in Hv. injection Hv as <-.
      split; [discriminate|].
      apply (bool_decide_unpack _). vm_compute. reflexivity.
  - vm_compute. reflexivity.
Defined.

(** X22: Without the build script nothing is run. When the script is not
    there at the start, the process leaves with status 1 and has run no
    command at all; locally it has at most created the downloads
    directory and the empty manifest. *)
Theorem missing_build_script_runs_nothing
    (Quote : string → string) (fl : Flags) (w w' : World) (code : Z) :
  nodes (fs w) !! "../RelayClient/build/build-all.sh" = None →
  jsonName fl ≠ "../RelayClient/build/build-all.sh" →
  main Quote fl w = (w', code) →
  code = 1
  ∧ trace w' = trace w
  ∧ ∀ q, q ≠ dlDir → q ≠ jsonName fl → nodes (fs w') !! q = nodes (fs w) !! q.
Proof.
  intros Hno Hjson Hmain. unfold main in Hmain.
  destruct (main_steps Quote fl w) as [w0 r] eqn:H.
  assert (r = None ∧ trace w0 = trace w
          ∧ ∀ q, q ≠ dlDir → q ≠ jsonName fl →
                 nodes (fs w0) !! q = nodes (fs w) !! q) as (-> & T & F).
  { unfold main_steps in H.
    apply pbind_inv in H as [[H ->]|(w1 & [] & H1 & H)].
    { split; [done|]. split; [by apply okOrExit_lift_fs_None in H|].
      apply okOrExit_lift_fs_any in H as (e & H & _).
      apply fs_step_MkdirAll_frame in H as [F _]. intros q Q1 _. by apply F. }
    pose proof (okOrExit_fs_trace _ _ _ _ H1) as (T1 & _).
    apply okOrExit_lift_fs_any in H1 as (e1 & H1 & E1).
    apply fs_step_MkdirAll_frame in H1 as [F1 _].
    apply pbind_inv in H as [[H ->]|(w2 & entries & H2 & H)].
    { split; [done|]. split; [apply orExit_lift_fs_None in H; congruence|].
      apply orExit_lift_fs_any in H as (e & H & _).
      apply readEntries_frame in H as [F _].
      intros q Q1 Q2. rewrite F, F1 by done. done. }
    pose proof (orExit_fs_trace _ _ _ _ H2) as (T2 & _).
    apply orExit_lift_fs_any in H2 as (e2 & H2 & E2).
    apply readEntries_frame in H2 as [F2 _].
    assert (∀ q, q ≠ dlDir → q ≠ jsonName fl →
                 nodes (fs w2) !! q = nodes (fs w) !! q) as F.
    { intros q Q1 Q2. rewrite F2, F1 by done. done. }
    apply pbind_inv in H as [[H ->]|(w3 & v & H3 & H)].
    { unfold orExit, pure_step in H. destruct (pickVersion _ _); [|done].
      injection H as <-. split; [done|]. split; [congruence|done]. }
    assert (w3 = w2) as ->.
    { unfold orExit, pure_step in H3. destruct (pickVersion _ _); by simplify_eq. }
    assert (RunBuildAll v w2
            = (w2, Some (ErrScriptMissing "../RelayClient/build/build-all.sh" ENOENT)))
      as Hb.
    { unfold RunBuildAll, Stat_ok.
      rewrite F, Hno by (done || discriminate).
      rewrite bool_decide_eq_false_2; [done|]. by intros [x Hx]. }
    unfold pbind at 1, okOrExit at 1 in H. rewrite Hb in H.
    injection H as <- <-. split; [done|]. split; [congruence|done]. }
  injection Hmain as <- <-. done.
Qed.

Lemma missing_build_script_runs_nothing_witness :
  (main quote_plain flags_live world_without_script).2 = 1
  ∧ trace (main quote_plain flags_live world_without_script).1 = []
  ∧ content (fs (main quote_plain flags_live world_without_script).1)
      "relayClient.json" = "[]".
Proof.
  destruct (missing_build_script_runs_nothing quote_plain flags_live
              world_without_script
              (main quote_plain flags_live world_without_script).1
              (main quote_plain flags_live world_without_script).2)
    as (Hc & Ht & _).
  - reflexivity.
  - discriminate.
  - by destruct (main quote_plain flags_live world_without_script).
  - split; [exact Hc|]. split; [exact Ht|]. vm_compute. reflexivity.
Defined.

(** X23: An explicit version that does not parse stops the run before the
    build: the process leaves with status 1 and has run no command;
    locally it has at most created the downloads directory and the empty
    manifest. *)
Theorem invalid_version_runs_nothing
    (Quote : string → string) (fl : Flags) (w w' : World) (code : Z) :
  manualVer fl ≠ EmptyString →
  semver.NewVersion (manualVer fl) = None →
  main Quote fl w = (w', code) →
  code = 1
  ∧ trace w' = trace w
  ∧ ∀ q, q ≠ dlDir → q ≠ jsonName fl → nodes (fs w') !! q = nodes (fs w) !! q.
Proof.
  intros Hgiven Hbad Hmain. unfold main in Hmain.
  destruct (main_steps Quote fl w) as [w0 r] eqn:H.
  assert (r = None ∧ trace w0 = trace w
          ∧ ∀ q, q ≠ dlDir → q ≠ jsonName fl →
                 nodes (fs w0) !! q = nodes (fs w) !! q) as (-> & T & F).
  { unfold main_steps in H.
    apply pbind_inv in H as [[H ->]|(w1 & [] & H1 & H)].
    { split; [done|]. split; [by apply okOrExit_lift_fs_None in H|].
      apply okOrExit_lift_fs_any in H as (e & H & _).
      apply fs_step_MkdirAll_frame in H as [F _]. intros q Q1 _. by apply F. }
    pose proof (okOrExit_fs_trace _ _ _ _ H1) as (T1 & _).
    apply okOrExit_lift_fs_any in H1 as (e1 & H1 & E1).
    apply fs_step_MkdirAll_frame in H1 as [F1 _].
    apply pbind_inv in H as [[H ->]|(w2 & entries & H2 & H)].
    { split; [done|]. split; [apply orExit_lift_fs_None in H; congruence|].
      apply orExit_lift_fs_any in H as (e & H & _).
      apply readEntries_frame in H as [F _].
      intros q Q1 Q2. rewrite F, F1 by done. done. }
    pose proof (orExit_fs_trace _ _ _ _ H2) as (T2 & _).
    apply orExit_lift_fs_any in H2 as (e2 & H2 & E2).
    apply readEntries_frame in H2 as [F2 _].
    assert (pickVersion (manualVer fl) entries = inl ErrInvalidSemVer) as Hv.
    { unfold pickVersion, explicitVersion.
      rewrite (proj2 (String.eqb_neq _ _) Hgiven). cbn [negb]. by rewrite Hbad. }
    unfold pbind at 1, orExit at 1, pure_step at 1 in H. rewrite Hv in H.
    injection H as <- <-. split; [done|]. split; [congruence|].
    intros q Q1 Q2. rewrite F2, F1 by done. done. }
  injection Hmain as <- <-. done.
Qed.

Lemma invalid_version_runs_nothing_witness :
  (main quote_plain flags_bad_version world_release).2 = 1
  ∧ trace (main quote_plain flags_bad_version world_release).1 = [].
Proof.
  destruct (invalid_version_runs_nothing quote_plain flags_bad_version world_release
              (main quote_plain flags_bad_version world_release).1
              (main quote_plain flags_bad_version world_release).2)
    as (Hc & Ht & _).
  - discriminate.
  - vm_compute. reflexivity.
  - by destruct (main quote_plain flags_bad_version world_release).
  - split; [exact Hc|exact Ht].
Defined.

(** ** The explicit version is in canonical form *)

Section Canonical.

Implicit Types (s p m : string) (v : semver.Version).

Lemma parts_chars (q : ascii → bool) sep s :
  forallb (string_forallb q) (split_on sep s) = true →
  string_forallb (λ c, q c || Ascii.eqb c sep) s = true.
Proof.
  induction s as [|c s IH]; [done|]. cbn [split_on string_forallb].
  destruct (Ascii.eqb c sep) eqn:Hc.
  - cbn [forallb string_forallb andb]. intros H.
    rewrite orb_true_r. by apply IH.
  - destruct (split_on sep s) as [|x xs]; cbn [forallb string_forallb].
    + intros H. apply andb_true_iff in H as [H _].
      apply andb_true_iff in H as [-> _]. by rewrite IH.
    + intros H. apply andb_true_iff in H as [H Hxs].
      apply andb_true_iff in H as [-> Hx]. cbn [orb andb].
      apply IH. cbn [forallb]. by rewrite Hx, Hxs.
Qed.

Lemma string_forallb_impl (q r : ascii → bool) s :
  (∀ c, q c = true → r c = true) →
  string_forallb q s = true → string_forallb r s = true.
Proof.
  intros Hqr. induction s as [|c s IH]; [done|]. cbn [string_forallb].
  intros [Hc Hs]%andb_true_iff. by rewrite (Hqr c Hc), IH.
Qed.

Lemma identifiers_no_plus s : semver.identifiers s = true → no_plus s = true.
Proof.
  unfold semver.identifiers, semver.containsOnly. intros H.
  assert (forallb (string_forallb semver.allowed) (split_on "." s) = true) as H'.
  { apply forallb_forall. intros x Hx.
    rewrite forallb_forall in H. by apply H, andb_true_iff in Hx as [_ ?]. }
  apply parts_chars in H'. revert H'. apply string_forallb_impl.
  intros c Hc.
  destruct c as [[] [] [] [] [] [] [] []]; first [reflexivity|discriminate Hc].
Qed.

Lemma identifiers_nonempty s : semver.identifiers s = true → s ≠ EmptyString.
Proof. by intros H ->. Qed.

Lemma cut_plus_none p : no_plus p = true → semver.cut_plus p = (p, None).
Proof.
  induction p as [|c p IH]; [done|]. cbn [no_plus string_forallb semver.cut_plus].
  intros [Hc Hp]%andb_true_iff. apply negb_true_iff in Hc. rewrite Hc.
  by rewrite (IH Hp).
Qed.

Lemma cut_plus_some p m :
  no_plus p = true → semver.cut_plus (p +:+ String "+" m) = (p, Some m).
Proof.
  induction p as [|c p IH].
  - intros _. reflexivity.
  - cbn [no_plus string_forallb]. intros [Hc Hp]%andb_true_iff.
    apply negb_true_iff in Hc.
    change (String c p +:+ String "+" m) with (String c (p +:+ String "+" m)).
    cbn [semver.cut_plus]. by rewrite Hc, (IH Hp).
Qed.

Lemma suffix_inv r p m :
  semver.suffix r = Some (p, m) →
  (p = EmptyString ∨ semver.identifiers p = true)
  ∧ (m = EmptyString ∨ semver.identifiers m = true).
Proof.
  destruct r as [|c r]; [intros [= <- <-]; by split; left|].
  destruct c as [[] [] [] [] [] [] [] []]; try done; cbn [semver.suffix].
  - destruct (semver.identifiers r) eqn:Hr; [|done].
    intros [= <- <-]. split; [by left|by right].
  - destruct (semver.cut_plus r) as [p' [m'|]].
    + destruct (semver.identifiers p') eqn:Hp; [|done].
      destruct (semver.identifiers m') eqn:Hm; [|done].
      intros [= <- <-]. split; by right.
    + destruct (semver.identifiers p') eqn:Hp; [|done].
      intros [= <- <-]. split; [by right|by left].
Qed.

(** What the parser has checked of a version it returns. *)
Lemma NewVersion_checked s v :
  semver.NewVersion s = Some v →
  (semver.pre v = EmptyString
   ∨ semver.identifiers (semver.pre v) = true
     ∧ semver.validatePrerelease (semver.pre v) = true)
  ∧ (semver.metadata v = EmptyString
     ∨ semver.identifiers (semver.metadata v) = true
       ∧ semver.validateMetadata (semver.metadata v) = true).
Proof.
  unfold semver.NewVersion, semver.submatch.
  destruct (semver.span_digits (semver.strip_v s)) as [[|c ma] r1]; [done|].
  destruct (semver.dot_number r1) as [[mi r2]|]; [|done]. cbn [mbind option_bind].
  destruct (semver.dot_number r2) as [[pa r3]|]; [|done]. cbn [mbind option_bind].
  destruct (semver.suffix r3) as [[p m]|] eqn:Hs; [|done]. cbn [mbind option_bind].
  apply suffix_inv in Hs as [Hp Hm].
  destruct (ParseUint64 (String c ma)); [|done]. cbn [mbind option_bind].
  destruct (if String.eqb mi EmptyString then Some 0 else ParseUint64 mi);
    [|done]. cbn [mbind option_bind].
  destruct (if String.eqb pa EmptyString then Some 0 else ParseUint64 pa);
    [|done]. cbn [mbind option_bind].
  destruct (String.eqb_spec p EmptyString) as [->|Np];
    destruct (String.eqb_spec m EmptyString) as [->|Nm]; cbn [negb andb].
  - intros [= <-]. split; by left.
  - destruct (semver.validateMetadata m) eqn:Vm; [|done]. cbn [negb].
    intros [= <-]. split; [by left|]. right. by destruct Hm.
  - destruct (semver.validatePrerelease p) eqn:Vp; [|done]. cbn [negb].
    intros [= <-]. split; [|by left]. right. by destruct Hp.
  - destruct (semver.validatePrerelease p) eqn:Vp; [|done]. cbn [negb].
    destruct (semver.validateMetadata m) eqn:Vm; [|done]. cbn [negb].
    intros [= <-]. split; right; [by destruct Hp|by destruct Hm].
Qed.

(** The parser on three numbers and what follows them. *)
Lemma NewVersion_three_suffix a b c suf p m :
  a ≠ EmptyString → b ≠ EmptyString → c ≠ EmptyString →
  string_forallb is_digit a = true → string_forallb is_digit b = true →
  string_forallb is_digit c = true →
  digits_value 0 a < 2 ^ 64 → digits_value 0 b < 2 ^ 64 →
  digits_value 0 c < 2 ^ 64 →
  match suf with String x _ => is_digit x = false | EmptyString => True end →
  semver.suffix suf = Some (p, m) →
  (p = EmptyString ∨ semver.validatePrerelease p = true) →
  (m = EmptyString ∨ semver.validateMetadata m = true) →
  semver.NewVersion (a +:+ "." +:+ b +:+ "." +:+ c +:+ suf)
  = Some (semver.mkVersion (digits_value 0 a) (digits_value 0 b)
            (digits_value 0 c) p m
            (a +:+ "." +:+ b +:+ "." +:+ c +:+ suf)).
Proof.
  intros Na Nb Nc Da Db Dc Va Vb Vc Hsuf Hs Hp Hm.
  unfold semver.NewVersion, semver.submatch.
  destruct a as [|x a]; [done|].
  pose proof Da as Hx. cbn [string_forallb] in Hx.
  apply andb_true_iff in Hx as [Hx _].
  change (String x a +:+ "." +:+ b +:+ "." +:+ c +:+ suf)
    with (String x (a +:+ "." +:+ b +:+ "." +:+ c +:+ suf)).
  rewrite strip_v_digit by done.
  change (String x (a +:+ "." +:+ b +:+ "." +:+ c +:+ suf))
    with (String x a +:+ "." +:+ b +:+ "." +:+ c +:+ suf).
  rewrite span_digits_app by done.
  change ("." +:+ b +:+ "." +:+ c +:+ suf)
    with (String "." (b +:+ "." +:+ c +:+ suf)).
  rewrite dot_number_digits by done. cbn [mbind option_bind].
  change ("." +:+ c +:+ suf) with (String "." (c +:+ suf)).
  rewrite dot_number_digits by done. cbn [mbind option_bind].
  rewrite Hs. cbn [mbind option_bind].
  rewrite (ParseUint64_digits (String x a)) by done. cbn [mbind option_bind].
  destruct (String.eqb_spec b EmptyString) as [|_]; [done|].
  rewrite (ParseUint64_digits b) by done. cbn [mbind option_bind].
  destruct (String.eqb_spec c EmptyString) as [|_]; [done|].
  rewrite (ParseUint64_digits c) by done. cbn [mbind option_bind].
  assert (negb (String.eqb p EmptyString) && negb (semver.validatePrerelease p)
          = false) as ->.
  { destruct Hp as [-> | ->]; [done|]. cbn [negb]. apply andb_false_r. }
  assert (negb (String.eqb m EmptyString) && negb (semver.validateMetadata m)
          = false) as ->.
  { destruct Hm as [-> | ->]; [done|]. cbn [negb]. apply andb_false_r. }
  reflexivity.
Qed.

(** The parser reads a version it has returned and that was printed
    back with the same numbers, pre-release and metadata. *)
Lemma NewVersion_String s v :
  semver.NewVersion s = Some v →
  semver.NewVersion (semver.String_ v)
  = Some (semver.mkVersion (semver.major v) (semver.minor v) (semver.patch v)
            (semver.pre v) (semver.metadata v) (semver.String_ v)).
Proof.
  intros H. pose proof (NewVersion_wf _ _ H) as (_ & Ha & Hb & Hc).
  apply NewVersion_checked in H as [Hp Hm].
  destruct (dec_digits _ Ha) as (Na & Da & Va).
  destruct (dec_digits _ Hb) as (Nb & Db & Vb).
  destruct (dec_digits _ Hc) as (Nc & Dc & Vc).
  set (suf := (if String.eqb (semver.pre v) EmptyString then EmptyString
               else "-" +:+ semver.pre v)
              +:+ (if String.eqb (semver.metadata v) EmptyString then EmptyString
                   else "+" +:+ semver.metadata v)).
  assert (semver.String_ v
          = dec (semver.major v) +:+ "." +:+ dec (semver.minor v) +:+ "."
            +:+ dec (semver.patch v) +:+ suf) as ->.
  { reflexivity. }
  rewrite (NewVersion_three_suffix _ _ _ suf (semver.pre v) (semver.metadata v)
             Na Nb Nc Da Db Dc);
    [by rewrite Va, Vb, Vc|rewrite Va; lia|rewrite Vb; lia|rewrite Vc; lia
    | | | |].
  - subst suf. destruct (String.eqb (semver.pre v) EmptyString);
      [destruct (String.eqb (semver.metadata v) EmptyString)|]; done.
  - subst suf.
    destruct Hp as [->|[Ip Vp]], Hm as [->|[Im Vm]].
    + reflexivity.
    + rewrite (proj2 (String.eqb_neq _ _) (identifiers_nonempty _ Im)).
      change (String.eqb EmptyString EmptyString) with true. cbv iota.
      change (EmptyString +:+ "+" +:+ semver.metadata v)
        with (String "+" (semver.metadata v)).
      cbn [semver.suffix]. by rewrite Im.
    + rewrite (proj2 (String.eqb_neq _ _) (identifiers_nonempty _ Ip)).
      change (String.eqb EmptyString EmptyString) with true. cbv iota.
      rewrite append_nil_r.
      change ("-" +:+ semver.pre v) with (String "-" (semver.pre v)).
      cbn [semver.suffix].
      by rewrite (cut_plus_none _ (identifiers_no_plus _ Ip)), Ip.
    + rewrite (proj2 (String.eqb_neq _ _) (identifiers_nonempty _ Ip)).
      rewrite (proj2 (String.eqb_neq _ _) (identifiers_nonempty _ Im)).
      rewrite append_assoc.
      change ("-" +:+ semver.pre v +:+ "+" +:+ semver.metadata v)
        with (String "-" (semver.pre v +:+ String "+" (semver.metadata v))).
      cbn [semver.suffix].
      by rewrite (cut_plus_some _ _ (identifiers_no_plus _ Ip)), Ip, Im.
  - destruct Hp as [?|[_ ?]]; [by left|by right].
  - destruct Hm as [?|[_ ?]]; [by left|by right].
Qed.

End Canonical.

(** X5: The explicit version is a fixed point. Whatever string explicit mode
    accepts, the version it resolves to is accepted again and resolves to
    itself: given back on the command line, the version recorded in the
    manifest names the same release. *)
Theorem explicit_version_is_a_fixed_point (s t : string) :
  explicitVersion s = inr t → explicitVersion t = inr t.
Proof.
  unfold explicitVersion.
  destruct (semver.NewVersion s) as [v|] eqn:Hv; [|done].
  intros [= <-]. by rewrite (NewVersion_String _ _ Hv).
Qed.

Lemma explicit_version_is_a_fixed_point_witness :
  explicitVersion "v1.2-beta.1+build.5" = inr "1.2.0-beta.1+build.5"
  ∧ explicitVersion "1.2.0-beta.1+build.5" = inr "1.2.0-beta.1+build.5".
Proof.
  split; [vm_compute; reflexivity|].
  apply (explicit_version_is_a_fixed_point "v1.2-beta.1+build.5").
  vm_compute. reflexivity.
Defined.

(** ** The automatic version and the order of the manifest *)

Section Order.

Implicit Types (v o : semver.Version).

Lemma Compare_zero v o :
  semver.Compare v o = 0 →
  semver.major v = semver.major o ∧ semver.minor v = semver.minor o
  ∧ semver.patch v = semver.patch o
  ∧ String.eqb (semver.pre v) EmptyString = String.eqb (semver.pre o) EmptyString.
Proof.
  intros H.
  destruct (Compare_cases v o) as [[E Hp]|[[_ Hc]|[_ Hc]]]; [|lia..].
  injection E as -> -> ->. split_and!; try done.
  rewrite H in Hp. unfold preCompare in Hp.
  destruct (String.eqb (semver.pre v) EmptyString),
    (String.eqb (semver.pre o) EmptyString); simpl in Hp; done.
Qed.

Lemma IncPatch_String v o :
  semver.major v = semver.major o → semver.minor v = semver.minor o →
  semver.patch v = semver.patch o →
  String.eqb (semver.pre v) EmptyString = String.eqb (semver.pre o) EmptyString →
  semver.String_ (semver.IncPatch v) = semver.String_ (semver.IncPatch o).
Proof.
  intros Ha Hb Hc Hp. unfold semver.IncPatch, semver.String_.
  rewrite Ha, Hb, Hc, Hp.
  by destruct (negb (String.eqb (semver.pre o) EmptyString)).
Qed.

Lemma highest_le (l l' : list Entry) :
  (∀ e, e ∈ l → e ∈ l') →
  semver.Compare (fold_left keep_highest l (semver.MustParse "0.0.0"))
    (fold_left keep_highest l' (semver.MustParse "0.0.0")) <= 0.
Proof.
  intros Hsub.
  destruct (keep_highest_fold l _ zero_version_wf) as (_ & _ & _ & Hfrom).
  destruct (keep_highest_fold l' _ zero_version_wf) as (_ & Hzero & Hall & _).
  cbv zeta in *.
  destruct Hfrom as [->|(e & Hin & He)]; [done|].
  eapply Hall; [by apply Hsub|done].
Qed.

End Order.

(** X7: The automatic version does not depend on the order of the manifest:
    two manifests with the same entries in another order give the same
    new version. *)
Theorem automatic_version_ignores_order (entries entries' : slice Entry) :
  elems entries ≡ₚ elems entries' →
  automaticVersion entries = automaticVersion entries'.
Proof.
  intros Hperm. unfold automaticVersion.
  change (highestVersion entries)
    with (fold_left keep_highest (elems entries) (semver.MustParse "0.0.0")).
  change (highestVersion entries')
    with (fold_left keep_highest (elems entries') (semver.MustParse "0.0.0")).
  pose proof (highest_le (elems entries) (elems entries')) as H1.
  pose proof (highest_le (elems entries') (elems entries)) as H2.
  destruct (keep_highest_fold (elems entries) _ zero_version_wf) as (W1 & _).
  destruct (keep_highest_fold (elems entries') _ zero_version_wf) as (W2 & _).
  cbv zeta in *.
  set (r := fold_left keep_highest (elems entries) _) in *.
  set (r' := fold_left keep_highest (elems entries') _) in *.
  assert (semver.Compare r r' = 0) as Hz.
  { pose proof (Compare_sign r r' W1 W2).
    assert (semver.Compare r r' <= 0)
      by (apply H1; intros e He; by rewrite <- Hperm).
    assert (semver.Compare r' r <= 0)
      by (apply H2; intros e He; by rewrite Hperm).
    lia. }
  apply Compare_zero in Hz as (Ha & Hb & Hc & Hp).
  by apply IncPatch_String.
Qed.

Lemma automatic_version_ignores_order_witness :
  automaticVersion
    (Some [mkEntry "1.10.2" 2 None; mkEntry "0.9.0" 1 None;
           mkEntry "not a version" 3 None; mkEntry "1.9.7" 4 None])
  = "1.10.3".
Proof.
  rewrite <- (automatic_version_ignores_order manifest_three).
  - vm_compute. reflexivity.
  - apply perm_swap.
Defined.
